(** * Pulse mesh relay: the BLE transport and relay layer

    A shallow embedding of [pulse-mobile/src/contexts/BleContext.tsx]
    (reassembly tracker, broadcast scheduler, relay application layer) and of
    the relay-response callback of [pulse-mobile/src/contexts/ChatContext.tsx].

    Conventions.
    - A JavaScript string that travels over the air is represented by its
      UTF-8 bytes ([Text]); U+0000 is the only code point whose encoding
      contains the byte 0, so [replace(/\0/g, "")] is the removal of every
      zero byte.  [TextDecoder] is the UTF-8 decoder of the Encoding
      Standard ([utf8Decode]): ill-formed bytes become U+FFFD and a byte
      order mark in front is dropped.
    - Every handler is a function from the state of the provider's refs to
      the new state and the list of effects it performed ([Event]).
    - What a handler reads from outside (the [hasInternet] of the closure
      it runs in, the id drawn by the encoder, the backend's answer) is
      passed in an [Env].
    - The scan listener is registered by the mount effect and again after a
      full reset, and keeps the closure of the render that registered it.
      A [Device] holds the provider's refs ([BleState]), the heartbeat
      table [peerHeartbeatsRef] and the [hasInternet] the registered
      listener reads; frames go through [onFrame].
    - React rendering state ([isBroadcasting], [forceUpdate]) carries no
      protocol decision and is left out, and so is [peerActivityRef], which
      is written and cleared but never read. *)

From stdpp Require Import gmap strings list fin_maps.
From Stdlib Require Import ZArith Lia.

Open Scope Z_scope.
Open Scope nat_scope.

Abbreviation Text := (list Z).

(** ** Chunks *)

(** Modelled from the spec: [utils/bleUtils] (encodeMessageToChunks,
    decodeSingleChunk, the frame layout) is not among the sources.  A chunk
    is its header (message id, total fragment count, 1-based sequence number,
    ack flag) followed by the data payload; [decodeSingleChunk] reads the
    header fields, and [chunk.slice(3)] is the payload [ck_data].  A frame
    that fails to decode is dropped on the first line of the handler, before
    any state is read. *)
Record Chunk := mkChunk {
  ck_id : nat;
  ck_totalChunks : nat;
  ck_chunkNumber : nat;
  ck_isAck : bool;
  ck_data : list Z
}.

#[global] Instance Chunk_eq_dec : EqDecision Chunk.
Proof. solve_decision. Defined.

Definition DATA_PER_CHUNK : nat := 6.

Definition zeroPad (n : nat) (d : list Z) : list Z :=
  d ++ replicate (n - length d) 0%Z.

(** Modelled from the spec: fragment count = ceil(len / capacity), minimum 1. *)
Definition chunkCount (message : list Z) : nat :=
  Nat.max 1 ((length message + (DATA_PER_CHUNK - 1)) / DATA_PER_CHUNK).

Definition fragment (message : list Z) (i : nat) : list Z :=
  zeroPad DATA_PER_CHUNK
    (take DATA_PER_CHUNK (drop (DATA_PER_CHUNK * i) message)).

(** Modelled from the spec: [encodeMessageToChunks(message, {id, isAck})]
    splits the message into fragments of the fixed data capacity, the last
    one zero-padded, and stamps the id, the count, the 1-based sequence
    number and the ack flag into every header.  When the caller supplies no
    id the encoder draws one; the drawn id is the argument [id] here. *)
Definition encodeMessageToChunks (message : list Z) (id : nat) (isAck : bool)
  : list Chunk :=
  (λ i, mkChunk id (chunkCount message) (S i) isAck (fragment message i))
    <$> seq 0 (chunkCount message).

(** ** Heartbeat filter *)

(** "HEARTBEAT:" *)
Definition HEARTBEAT_PREFIX : list Z :=
  [72; 69; 65; 82; 84; 66; 69; 65; 84; 58]%Z.

Fixpoint startsWith (p s : list Z) : bool :=
  match p, s with
  | [], _ => true
  | _ :: _, [] => false
  | a :: p', b :: s' => (a =? b)%Z && startsWith p' s'
  end.

(** White space code points of [String.prototype.trim], by the length of
    their UTF-8 encoding. *)
Definition ws1 (a : Z) : bool :=
  ((9 <=? a) && (a <=? 13) || (a =? 32))%Z.

Definition ws2 (a b : Z) : bool :=
  ((a =? 194) && (b =? 160))%Z.

Definition ws3 (a b c : Z) : bool :=
  ((a =? 225) && (b =? 154) && (c =? 128)
   || (a =? 226) && (b =? 128)
      && ((128 <=? c) && (c <=? 138) || (c =? 168) || (c =? 169) || (c =? 175))
   || (a =? 226) && (b =? 129) && (c =? 159)
   || (a =? 227) && (b =? 128) && (c =? 128)
   || (a =? 239) && (b =? 187) && (c =? 191))%Z.

(** Length in bytes of the white space code point at the head of [s]
    (0 when there is none). *)
Definition wsLen (s : list Z) : nat :=
  match s with
  | a :: b :: c :: _ =>
      if ws1 a then 1 else if ws2 a b then 2 else if ws3 a b c then 3 else 0
  | [a; b] => if ws1 a then 1 else if ws2 a b then 2 else 0
  | [a] => if ws1 a then 1 else 0
  | [] => 0
  end.

(** The same at the end of the string, given last byte first. *)
Definition wsLenRev (s : list Z) : nat :=
  match s with
  | c :: b :: a :: _ =>
      if ws1 c then 1 else if ws2 b c then 2 else if ws3 a b c then 3 else 0
  | [c; b] => if ws1 c then 1 else if ws2 b c then 2 else 0
  | [c] => if ws1 c then 1 else 0
  | [] => 0
  end.

Fixpoint trimWith (len : list Z → nat) (fuel : nat) (s : list Z) : list Z :=
  match fuel with
  | 0 => s
  | S fuel' =>
      match len s with
      | 0 => s
      | n => trimWith len fuel' (drop n s)
      end
  end.

Definition trim (s : list Z) : list Z :=
  let s1 := trimWith wsLen (length s) s in
  rev (trimWith wsLenRev (length s1) (rev s1)).

Definition isHeartbeat (c : Chunk) : bool :=
  startsWith HEARTBEAT_PREFIX (trim (ck_data c)).

(** ** Reassembly state *)

Record MessageState := mkMessageState {
  ms_id : nat;
  ms_totalChunks : nat;
  ms_isComplete : bool;
  ms_isAck : bool;
  ms_chunks : gmap nat Chunk;
  ms_fullMessage : list Z
}.

(** What a completed reassembly hands on. *)
Record Completion := mkCompletion {
  done_id : nat;
  done_isAck : bool;
  done_message : list Z
}.

(** ** [TextDecoder] *)

(** U+FFFD, the replacement character, and U+FEFF, the byte order mark. *)
Definition REPLACEMENT : list Z := [239; 191; 189]%Z.

Definition BOM : list Z := [239; 187; 191]%Z.

Definition between (lo hi b : Z) : bool := ((lo <=? b) && (b <=? hi))%Z.

(** The bounds of the first continuation byte after the lead byte. *)
Definition lowerBoundary (lead : Z) : Z :=
  (if lead =? 224 then 160 else if lead =? 240 then 144 else 128)%Z.

Definition upperBoundary (lead : Z) : Z :=
  (if lead =? 237 then 159 else if lead =? 244 then 143 else 191)%Z.

(** The UTF-8 decoder of [TextDecoder] (WHATWG Encoding, error mode
    replacement), its output written in UTF-8 again.  A well-formed sequence
    is copied.  A byte that cannot start a sequence becomes U+FFFD.  A
    sequence cut short, by a byte that cannot continue it or by the end of
    the input, becomes one U+FFFD, and the byte that cut it is read again
    as a first byte. *)
Fixpoint utf8Scan (s : list Z) : list Z :=
  match s with
  | [] => []
  | b :: rest =>
      if between 0 127 b then b :: utf8Scan rest
      else if between 194 223 b then
        match rest with
        | [] => REPLACEMENT
        | c1 :: rest1 =>
            if between 128 191 c1 then b :: c1 :: utf8Scan rest1
            else REPLACEMENT ++ utf8Scan rest
        end
      else if between 224 239 b then
        match rest with
        | [] => REPLACEMENT
        | c1 :: rest1 =>
            if between (lowerBoundary b) (upperBoundary b) c1 then
              match rest1 with
              | [] => REPLACEMENT
              | c2 :: rest2 =>
                  if between 128 191 c2
                  then b :: c1 :: c2 :: utf8Scan rest2
                  else REPLACEMENT ++ utf8Scan rest1
              end
            else REPLACEMENT ++ utf8Scan rest
        end
      else if between 240 244 b then
        match rest with
        | [] => REPLACEMENT
        | c1 :: rest1 =>
            if between (lowerBoundary b) (upperBoundary b) c1 then
              match rest1 with
              | [] => REPLACEMENT
              | c2 :: rest2 =>
                  if between 128 191 c2 then
                    match rest2 with
                    | [] => REPLACEMENT
                    | c3 :: rest3 =>
                        if between 128 191 c3
                        then b :: c1 :: c2 :: c3 :: utf8Scan rest3
                        else REPLACEMENT ++ utf8Scan rest2
                    end
                  else REPLACEMENT ++ utf8Scan rest1
              end
            else REPLACEMENT ++ utf8Scan rest
        end
      else REPLACEMENT ++ utf8Scan rest
  end.

(** [new TextDecoder().decode(bytes)]: a byte order mark at the head of the
    output is dropped. *)
Definition utf8Decode (s : list Z) : list Z :=
  let out := utf8Scan s in
  if startsWith BOM out then drop 3 out else out.

(** Lines 194-209.  [fullBinary] has [totalChunks * 6] zero bytes; the
    payloads of chunks 1..totalChunks are written one after the other;
    a missing chunk is a TypeError and a payload running past the buffer a
    RangeError ([None]).  The buffer is decoded by [TextDecoder] and every
    U+0000 is removed from the decoded text. *)
Fixpoint collectParts (chunks : gmap nat Chunk) (i n : nat)
  : option (list Z) :=
  match n with
  | 0 => Some []
  | S n' =>
      match chunks !! i with
      | None => None
      | Some c =>
          match collectParts chunks (S i) n' with
          | None => None
          | Some rest => Some (ck_data c ++ rest)
          end
      end
  end.

Definition stripNul (s : list Z) : list Z :=
  filter (λ b : Z, b ≠ 0%Z) s.

Definition reassemble (e : MessageState) : option (list Z) :=
  match collectParts (ms_chunks e) 1 (ms_totalChunks e) with
  | None => None
  | Some parts =>
      let size := ms_totalChunks e * DATA_PER_CHUNK in
      if decide (length parts ≤ size)
      then Some (stripNul
                   (utf8Decode (parts ++ replicate (size - length parts) 0%Z)))
      else None
  end.

(** ** Relay messages *)

Inductive RelayType := RELAY_QUERY | RELAY_RESPONSE.

Inductive QueryType := assistant | sos.

(** [location] and [sos_data] are opaque JSON values, kept as their text. *)
Record RelayMessage := mkRelayMessage {
  rm_type : RelayType;
  query_id : string;
  query_text : option Text;
  query_type : option QueryType;
  location : option Text;
  original_device : option string;
  response : option Text;
  sos_data : option Text
}.

(** What [JSON.parse] of a reassembled text is to the handlers: not JSON
    (the parse throws), a relay message, an incident report (with its
    [incident] object), or any other value. *)
Inductive Parsed :=
  | NotJson
  | Relay (m : RelayMessage)
  | IncidentReport (incident : Text)
  | OtherJson.

(** ** Effects and environment *)

Inductive Event :=
  | EvSend (id : nat) (c : Chunk)              (* broadcastOverBle(chunk), for queue entry id *)
  | EvEnqueue (id : nat) (chunks : list Chunk) (* addToBroadcastQueue(id, chunks) *)
  | EvCallback (queryId : string) (text : Text)(* relayResponseCallbackRef.current(...) *)
  | EvRelayFetch (queryId : string)            (* POST /api/relay/query *)
  | EvStoreFetch (incident : Text)             (* POST /api/incidents/store *)
  | EvStopBle.                                 (* stopBleBroadcast() *)

(** Outcome of the POST to /api/relay/query.  [result] is [result.response],
    taken to be a string, as [relayResponse] declares its parameter and
    [RelayMessage] its field; [None] when it is absent. *)
Inductive BackendReply :=
  | NetworkFailure                                   (* fetch rejects: no network, timed out *)
  | HttpError (status : nat) (errorText : Text)      (* !response.ok *)
  | HttpOk (success : bool) (result : option Text).  (* result.success, result.response *)

(** Outcome of lines 262-288: building and sending the POST to
    /api/incidents/store. *)
Inductive StoreOutcome :=
  | StoreBodyThrows                 (* building the body throws (incident undefined,
                                       an invalid timestamp): fetch is not called *)
  | StoreFetchRejects               (* fetch is called and rejects *)
  | StoreReturns (apiResponse : Text).
                                    (* fetch returns; [apiResponse] is the text
                                       built from response.ok *)

(** What a handler reads from outside.  [hasInternet] is the value of that
    variable in the closure that runs: a function called from the current
    render reads the device's connectivity, the handlers reached from the
    scan listener read the value of the render that registered the listener
    (see [Device] below). *)
Record Env := mkEnv {
  hasInternet : bool;
  freshId : nat;                 (* the id the encoder draws for a new message *)
  backend : BackendReply;
  incidentStore : StoreOutcome
}.

(** ** State of the provider's refs *)

Record BleState := mkBleState {
  masterState : gmap nat MessageState;
  broadcastQueue : list (nat * list Chunk);   (* a Map in insertion order *)
  masterInterval : bool;                      (* the scheduler's timer is armed *)
  broadcastCursor : nat * nat;                (* queueIndex, chunkIndex *)
  ownMessageIds : gset nat;
  receivedMessageIds : gset nat;
  relayResponseCallback : bool;               (* a callback is registered *)
  processedRelayQueries : gset string;
  rebroadcastedQueryIds : gset string;
  querySenderMap : gmap string string
}.

Definition set_masterState (m : gmap nat MessageState) (st : BleState) :=
  mkBleState m (broadcastQueue st) (masterInterval st) (broadcastCursor st)
    (ownMessageIds st) (receivedMessageIds st) (relayResponseCallback st)
    (processedRelayQueries st) (rebroadcastedQueryIds st) (querySenderMap st).

Definition set_broadcastQueue (q : list (nat * list Chunk)) (st : BleState) :=
  mkBleState (masterState st) q (masterInterval st) (broadcastCursor st)
    (ownMessageIds st) (receivedMessageIds st) (relayResponseCallback st)
    (processedRelayQueries st) (rebroadcastedQueryIds st) (querySenderMap st).

Definition set_masterInterval (b : bool) (st : BleState) :=
  mkBleState (masterState st) (broadcastQueue st) b (broadcastCursor st)
    (ownMessageIds st) (receivedMessageIds st) (relayResponseCallback st)
    (processedRelayQueries st) (rebroadcastedQueryIds st) (querySenderMap st).

Definition set_broadcastCursor (c : nat * nat) (st : BleState) :=
  mkBleState (masterState st) (broadcastQueue st) (masterInterval st) c
    (ownMessageIds st) (receivedMessageIds st) (relayResponseCallback st)
    (processedRelayQueries st) (rebroadcastedQueryIds st) (querySenderMap st).

Definition set_ownMessageIds (s : gset nat) (st : BleState) :=
  mkBleState (masterState st) (broadcastQueue st) (masterInterval st)
    (broadcastCursor st) s (receivedMessageIds st) (relayResponseCallback st)
    (processedRelayQueries st) (rebroadcastedQueryIds st) (querySenderMap st).

Definition set_receivedMessageIds (s : gset nat) (st : BleState) :=
  mkBleState (masterState st) (broadcastQueue st) (masterInterval st)
    (broadcastCursor st) (ownMessageIds st) s (relayResponseCallback st)
    (processedRelayQueries st) (rebroadcastedQueryIds st) (querySenderMap st).

Definition set_relayResponseCallback (b : bool) (st : BleState) :=
  mkBleState (masterState st) (broadcastQueue st) (masterInterval st)
    (broadcastCursor st) (ownMessageIds st) (receivedMessageIds st) b
    (processedRelayQueries st) (rebroadcastedQueryIds st) (querySenderMap st).

Definition set_processedRelayQueries (s : gset string) (st : BleState) :=
  mkBleState (masterState st) (broadcastQueue st) (masterInterval st)
    (broadcastCursor st) (ownMessageIds st) (receivedMessageIds st)
    (relayResponseCallback st) s (rebroadcastedQueryIds st) (querySenderMap st).

Definition set_rebroadcastedQueryIds (s : gset string) (st : BleState) :=
  mkBleState (masterState st) (broadcastQueue st) (masterInterval st)
    (broadcastCursor st) (ownMessageIds st) (receivedMessageIds st)
    (relayResponseCallback st) (processedRelayQueries st) s (querySenderMap st).

Definition set_querySenderMap (m : gmap string string) (st : BleState) :=
  mkBleState (masterState st) (broadcastQueue st) (masterInterval st)
    (broadcastCursor st) (ownMessageIds st) (receivedMessageIds st)
    (relayResponseCallback st) (processedRelayQueries st)
    (rebroadcastedQueryIds st) m.

(** The state of a freshly mounted provider. *)
Definition initialState : BleState :=
  mkBleState ∅ [] false (0, 0) ∅ ∅ false ∅ ∅ ∅.

(** ** Reassembly tracker: [handleIncomingChunk], lines 128-212 *)

(** Lines 162-170: the stored request becomes the response being received. *)
Definition resetForAck (e : MessageState) (totalChunks : nat) : MessageState :=
  mkMessageState (ms_id e) totalChunks false true ∅ [].

(** Lines 172-181. *)
Definition newEntry (c : Chunk) : MessageState :=
  mkMessageState (ck_id c) (ck_totalChunks c) false (ck_isAck c) ∅ [].

Definition storeChunk (c : Chunk) (e : MessageState) : MessageState :=
  mkMessageState (ms_id e) (ms_totalChunks e) (ms_isComplete e) (ms_isAck e)
    (<[ck_chunkNumber c := c]> (ms_chunks e)) (ms_fullMessage e).

Definition markComplete (e : MessageState) : MessageState :=
  mkMessageState (ms_id e) (ms_totalChunks e) true (ms_isAck e)
    (ms_chunks e) (ms_fullMessage e).

Definition setFullMessage (m : list Z) (e : MessageState) : MessageState :=
  mkMessageState (ms_id e) (ms_totalChunks e) (ms_isComplete e) (ms_isAck e)
    (ms_chunks e) m.

(** The entry the handler works on after lines 162-182. *)
Definition entryFor (c : Chunk) (stored : option MessageState) : MessageState :=
  match stored with
  | Some e =>
      if negb (ms_isAck e) && ck_isAck c
      then resetForAck e (ck_totalChunks c)
      else e
  | None => newEntry c
  end.

(** The tracker part of [handleIncomingChunk].  The result carries the
    completed message when this chunk was the last one missing.  An
    exception during reassembly leaves the entry as it was when thrown:
    marked complete, with its old text. *)
Definition trackChunk (c : Chunk) (st : BleState)
  : BleState * option Completion :=
  if isHeartbeat c then (st, None)
  else if decide (ck_id c ∈ ownMessageIds st) then (st, None)
  else
    let id := ck_id c in
    let st1 := set_receivedMessageIds ({[id]} ∪ receivedMessageIds st) st in
    let entry := entryFor c (masterState st !! id) in
    let put e := set_masterState (<[id := e]> (masterState st)) st1 in
    if ms_isComplete entry
       || bool_decide (is_Some (ms_chunks entry !! ck_chunkNumber c))
    then (put entry, None)
    else
      let entry1 := storeChunk c entry in
      if decide (size (ms_chunks entry1) = ms_totalChunks entry1) then
        let entry2 := markComplete entry1 in
        match reassemble entry2 with
        | None => (put entry2, None)
        | Some fullMessage =>
            (put (setFullMessage fullMessage entry2),
             Some (mkCompletion id (ms_isAck entry2) fullMessage))
        end
      else (put entry1, None).

(** ** Broadcast queue and scheduler *)

(** [Map.prototype.set]: an existing key keeps its place. *)
Fixpoint queueSet (id : nat) (chunks : list Chunk)
    (q : list (nat * list Chunk)) : list (nat * list Chunk) :=
  match q with
  | [] => [(id, chunks)]
  | (k, v) :: q' =>
      if decide (k = id) then (k, chunks) :: q'
      else (k, v) :: queueSet id chunks q'
  end.

Definition queueDelete (id : nat) (q : list (nat * list Chunk))
  : list (nat * list Chunk) :=
  filter (λ kv, kv.1 ≠ id) q.

(** [startMasterBroadcastLoop], lines 510-515: arm the timer, reset the cursor. *)
Definition startMasterBroadcastLoop (st : BleState) : BleState :=
  set_broadcastCursor (0, 0) (set_masterInterval true st).

(** [stopMasterBroadcastLoop], lines 554-563. *)
Definition stopMasterBroadcastLoop (st : BleState) : BleState * list Event :=
  (set_broadcastCursor (0, 0) (set_masterInterval false st), [EvStopBle]).

(** [addToBroadcastQueue], lines 502-507. *)
Definition addToBroadcastQueue (id : nat) (chunks : list Chunk) (st : BleState)
  : BleState * list Event :=
  let st1 := set_broadcastQueue (queueSet id chunks (broadcastQueue st)) st in
  (if masterInterval st1 then st1 else startMasterBroadcastLoop st1,
   [EvEnqueue id chunks]).

(** The timer callback of [startMasterBroadcastLoop], lines 516-550. *)
Definition tick (st : BleState) : BleState * list Event :=
  let entries := broadcastQueue st in
  match entries with
  | [] => stopMasterBroadcastLoop st
  | _ :: _ =>
      let '(queueIndex0, chunkIndex0) := broadcastCursor st in
      let queueIndex :=
        if decide (length entries ≤ queueIndex0) then 0 else queueIndex0 in
      match entries !! queueIndex with
      | None => (st, [])
      | Some (currentId, chunksToBroadcast) =>
          match chunksToBroadcast with
          | [] =>
              (set_broadcastCursor (0, 0)
                 (set_broadcastQueue (queueDelete currentId entries) st), [])
          | _ :: _ =>
              let chunkIndex :=
                if decide (length chunksToBroadcast ≤ chunkIndex0)
                then 0 else chunkIndex0 in
              let sent :=
                match chunksToBroadcast !! chunkIndex with
                | Some c => [EvSend currentId c]
                | None => []
                end in
              let chunkIndex1 := S chunkIndex in
              let cursor :=
                if decide (length chunksToBroadcast ≤ chunkIndex1) then
                  let queueIndex1 := S queueIndex in
                  (if decide (length entries ≤ queueIndex1)
                   then 0 else queueIndex1, 0)
                else (queueIndex, chunkIndex1) in
              (set_broadcastCursor cursor st, sent)
          end
      end
  end.

(** The timer fires only while it is armed. *)
Definition timerFires (st : BleState) : BleState * list Event :=
  if masterInterval st then tick st else (st, []).

(** [n] consecutive timer callbacks. *)
Fixpoint ticks (n : nat) (st : BleState) : BleState * list Event :=
  match n with
  | 0 => (st, [])
  | S n' =>
      let '(st1, ev1) := tick st in
      let '(st2, ev2) := ticks n' st1 in
      (st2, ev1 ++ ev2)
  end.

(** [broadcastMessage], lines 566-597.  [newId] is the id the encoder draws. *)
Definition ownState (id : nat) (chunks : list Chunk) (message : list Z)
  : MessageState :=
  mkMessageState id (length chunks) true false
    (list_to_map (imap (λ i c, (S i, c)) chunks)) message.

Definition broadcastMessage (newId : nat) (message : list Z) (st : BleState)
  : BleState * list Event :=
  let chunks := encodeMessageToChunks message newId false in
  let id := newId in
  let st1 := set_ownMessageIds ({[id]} ∪ ownMessageIds st) st in
  let st2 :=
    set_masterState (<[id := ownState id chunks message]> (masterState st1)) st1 in
  addToBroadcastQueue id chunks st2.

(** The connectivity effect, lines 741-769, run when [hasInternet] changes. *)
Definition keepOnline (m : gmap nat MessageState) (kv : nat * list Chunk) : bool :=
  match m !! kv.1 with
  | Some state => ms_isAck state
  | None => false
  end.

Definition onConnectivityChange (online : bool) (st : BleState)
  : BleState * list Event :=
  if online then
    let entriesToKeep := filter (λ kv, keepOnline (masterState st) kv = true)
                           (broadcastQueue st) in
    let st1 := set_broadcastQueue entriesToKeep st in
    if bool_decide (length (broadcastQueue st1) = 0) && masterInterval st1
    then stopMasterBroadcastLoop st1
    else (st1, [])
  else (st, []).

(** [onRelayResponse], lines 497-499. *)
Definition onRelayResponse (st : BleState) : BleState :=
  set_relayResponseCallback true st.

(** The part of [clearAllAndStop] (lines 653-684) that touches the state. *)
Definition clearAllAndStop (st : BleState) : BleState * list Event :=
  (mkBleState ∅ [] false (0, 0) ∅ ∅ (relayResponseCallback st) ∅ ∅ ∅,
   [EvStopBle]).

(** ** Relay application layer *)

Definition responseKey (queryId : string) : string :=
  String.append "response-" queryId.

Definition queryMessage (queryId : string) (queryText : Text)
    (queryType : QueryType) (loc : option Text) (originalDevice : string)
    (sosData : option Text) : RelayMessage :=
  mkRelayMessage RELAY_QUERY queryId (Some queryText) (Some queryType) loc
    (Some originalDevice) None sosData.

Definition responseMessage (queryId : string) (text : Text) : RelayMessage :=
  mkRelayMessage RELAY_RESPONSE queryId None None None None (Some text) None.

(** Truthiness of an optional string. *)
Definition truthy {A} (o : option (list A)) : option (list A) :=
  match o with
  | Some (x :: l) => Some (x :: l)
  | _ => None
  end.

Definition truthyString (o : option string) : option string :=
  match o with
  | Some EmptyString => None
  | other => other
  end.

Section Relay.

(** [JSON.parse] and [JSON.stringify] are the platform's. *)
Variable JSON_parse : Text → Parsed.
Variable JSON_stringify : RelayMessage → Text.

(** [relayResponse], lines 472-494. *)
Definition relayResponse (env : Env) (queryId : string) (text : Text)
    (st : BleState) : BleState * list Event :=
  broadcastMessage (freshId env) (JSON_stringify (responseMessage queryId text)) st.

(** [relayQuery], lines 436-469. *)
Definition relayQuery (env : Env) (queryId : string) (queryText : Text)
    (queryType : QueryType) (loc : option Text) (originalDevice : string)
    (sosData : option Text) (st : BleState) : BleState * list Event :=
  if hasInternet env then (st, [])
  else
    broadcastMessage (freshId env)
      (JSON_stringify
         (queryMessage queryId queryText queryType loc originalDevice sosData))
      st.

(** [handleRelayMessage], lines 321-433. *)
Definition handleRelayMessage (env : Env) (message : RelayMessage)
    (st : BleState) : BleState * list Event :=
  let qid := query_id message in
  match rm_type message with
  | RELAY_QUERY =>
      if decide (qid ∈ processedRelayQueries st) then (st, [])
      else if decide (qid ∈ rebroadcastedQueryIds st) then (st, [])
      else if hasInternet env then
        let st1 :=
          set_processedRelayQueries ({[qid]} ∪ processedRelayQueries st) st in
        match backend env with
        | NetworkFailure => (st1, [EvRelayFetch qid])
        | HttpError _ _ => (st1, [EvRelayFetch qid])
        | HttpOk success result =>
            match (if success then truthy result else None) with
            | Some text =>
                let '(st2, ev) := relayResponse env qid text st1 in
                (st2, EvRelayFetch qid :: ev)
            | None => (st1, [EvRelayFetch qid])
            end
        end
      else
        let st1 :=
          set_rebroadcastedQueryIds ({[qid]} ∪ rebroadcastedQueryIds st) st in
        let st2 :=
          match truthyString (original_device message) with
          | Some dev =>
              set_querySenderMap (<[qid := dev]> (querySenderMap st1)) st1
          | None => st1
          end in
        broadcastMessage (freshId env) (JSON_stringify message) st2
  | RELAY_RESPONSE =>
      let delivered :=
        match relayResponseCallback st, truthy (response message) with
        | true, Some text => [EvCallback qid text]
        | _, _ => []
        end in
      if negb (hasInternet env)
         && negb (bool_decide (responseKey qid ∈ rebroadcastedQueryIds st))
      then
        let st1 :=
          set_rebroadcastedQueryIds
            ({[responseKey qid]} ∪ rebroadcastedQueryIds st) st in
        let '(st2, ev) :=
          broadcastMessage (freshId env) (JSON_stringify message) st1 in
        (st2, delivered ++ ev)
      else (st, delivered)
  end.

(** [handleApiResponse], lines 242-318. *)
Definition ackState (id : nat) (ackChunks : list Chunk) (apiResponse : Text)
  : MessageState :=
  mkMessageState id (length ackChunks) true true
    (list_to_map (imap (λ i c, (S i, c)) ackChunks)) apiResponse.

Definition handleApiResponse (env : Env) (id : nat) (messageText : Text)
    (st : BleState) : BleState * list Event :=
  match JSON_parse messageText with
  | Relay m => handleRelayMessage env m st
  | IncidentReport incident =>
      match incidentStore env with
      | StoreBodyThrows => (st, [])
      | StoreFetchRejects => (st, [EvStoreFetch incident])
      | StoreReturns apiResponse =>
          let ackChunks := encodeMessageToChunks apiResponse id true in
          let st1 :=
            set_masterState
              (<[id := ackState id ackChunks apiResponse]> (masterState st)) st in
          let '(st2, ev) := addToBroadcastQueue id ackChunks st1 in
          (st2, EvStoreFetch incident :: ev)
      end
  | NotJson | OtherJson => (st, [])
  end.

(** Lines 214-237 of [handleIncomingChunk]: what is done with a completed
    message. *)
Definition dispatchComplete (env : Env) (done : Completion) (st : BleState)
  : BleState * list Event :=
  if done_isAck done then (st, [])
  else if hasInternet env then
    handleApiResponse env (done_id done) (done_message done) st
  else
    match JSON_parse (done_message done) with
    | Relay m => handleRelayMessage env m st
    | _ => (st, [])
    end.

(** [handleIncomingChunk], lines 128-239. *)
Definition handleIncomingChunk (env : Env) (c : Chunk) (st : BleState)
  : BleState * list Event :=
  match trackChunk c st with
  | (st1, None) => (st1, [])
  | (st1, Some done) => dispatchComplete env done st1
  end.

(** Chunks handed to the receive callback one after the other. *)
Fixpoint deliver (frames : list (Env * Chunk)) (st : BleState)
  : BleState * list Event :=
  match frames with
  | [] => (st, [])
  | (env, c) :: rest =>
      let '(st1, ev1) := handleIncomingChunk env c st in
      let '(st2, ev2) := deliver rest st1 in
      (st2, ev1 ++ ev2)
  end.

(** What can happen to a provider between two receipts, short of the full
    reset [clearAllAndStop]. *)
Inductive Input :=
  | InChunk (env : Env) (c : Chunk)
  | InRelayMessage (env : Env) (m : RelayMessage)
  | InTimer
  | InStartBroadcasting
  | InStopBroadcasting
  | InBroadcast (newId : nat) (message : Text)
  | InRelayQuery (env : Env) (queryId : string) (queryText : Text)
      (queryType : QueryType) (loc : option Text) (originalDevice : string)
      (sosData : option Text)
  | InRelayResponse (env : Env) (queryId : string) (text : Text)
  | InOnRelayResponse
  | InConnectivity (online : bool).

Definition step (i : Input) (st : BleState) : BleState * list Event :=
  match i with
  | InChunk env c => handleIncomingChunk env c st
  | InRelayMessage env m => handleRelayMessage env m st
  | InTimer => timerFires st
  | InStartBroadcasting => (startMasterBroadcastLoop st, [])
  | InStopBroadcasting => stopMasterBroadcastLoop st
  | InBroadcast newId message => broadcastMessage newId message st
  | InRelayQuery env q t ty loc dev sosd => relayQuery env q t ty loc dev sosd st
  | InRelayResponse env q t => relayResponse env q t st
  | InOnRelayResponse => (onRelayResponse st, [])
  | InConnectivity online => onConnectivityChange online st
  end.

Fixpoint run (inputs : list Input) (st : BleState) : BleState * list Event :=
  match inputs with
  | [] => (st, [])
  | i :: rest =>
      let '(st1, ev1) := step i st in
      let '(st2, ev2) := run rest st1 in
      (st2, ev1 ++ ev2)
  end.

End Relay.

(** ** The chat provider's relay-response callback (ChatContext.tsx) *)

Record PendingQuery := mkPendingQuery {
  pq_queryId : string;
  pq_messageId : string;
  pq_text : Text
}.

Record ChatMessage := mkChatMessage {
  cm_id : string;
  cm_text : Text;
  cm_user : nat        (* 1: the user, 2: Pulse AI *)
}.

Record ChatState := mkChatState {
  messages : list ChatMessage;
  pendingQueries : list PendingQuery
}.

Section Chat.

(** Lines 218-228: the text shown for a response (it may be nested JSON). *)
Variable extractResponseText : Text → Text.

(** The callback registered on lines 209-253.  [newMessageId] is the
    [_id] drawn for the AI message. *)
Definition relayResponseHandler (newMessageId : string) (queryId : string)
    (resp : Text) (cs : ChatState) : ChatState :=
  match find (λ q, bool_decide (pq_queryId q = queryId)) (pendingQueries cs) with
  | Some pending =>
      let aiMessage :=
        mkChatMessage newMessageId (extractResponseText resp) 2 in
      mkChatState
        (aiMessage
           :: filter (λ msg, cm_id msg ≠ pq_messageId pending) (messages cs))
        (filter (λ q, pq_queryId q ≠ queryId) (pendingQueries cs))
  | None => cs
  end.

End Chat.

(** ** Peer table: heartbeats and [getActivePeerCount] *)

Definition HEARTBEAT_TIMEOUT_MS : Z := 15000.

(** Lines 136-138 of [handleIncomingChunk]: the device id carried by a
    heartbeat frame.  [replace('HEARTBEAT:', '')] removes the first
    occurrence, which is the prefix just tested. *)
Definition heartbeatPeer (c : Chunk) : option Text :=
  let trimmedData := trim (ck_data c) in
  if startsWith HEARTBEAT_PREFIX trimmedData
  then Some (trim (drop (length HEARTBEAT_PREFIX) trimmedData))
  else None.

(** Lines 137-144: what a received frame does to [peerHeartbeatsRef], a map
    from device id to the time last seen.  [deviceId] is this device's own
    id, [now] is [Date.now()]. *)
Definition noteHeartbeat (deviceId : Text) (now : Z) (c : Chunk)
    (peers : gmap Text Z) : gmap Text Z :=
  match heartbeatPeer c with
  | Some peerDeviceId =>
      if bool_decide (peerDeviceId ≠ []) && bool_decide (peerDeviceId ≠ deviceId)
      then <[peerDeviceId := now]> peers
      else peers
  | None => peers
  end.

(** [getActivePeerCount], lines 636-650: dead peers are deleted, the others
    counted. *)
Definition getActivePeerCount (now : Z) (peers : gmap Text Z)
  : gmap Text Z * nat :=
  let alive :=
    filter (λ kv : Text * Z, ¬ (now - kv.2 > HEARTBEAT_TIMEOUT_MS)%Z) peers in
  (alive, size alive).

(** ** The chat provider: [sendMessage], [clearChat], the reconnect poll *)

Definition utf8 (s : string) : Text :=
  (λ a, Z.of_nat (Ascii.nat_of_ascii a)) <$> String.list_ascii_of_string s.

(** The placeholder shown while a query is relayed; it starts with U+1F504. *)
Definition SEARCHING_TEXT : Text :=
  [240; 159; 148; 132]%Z
  ++ utf8 " Searching for network connection via nearby devices...".

Definition INVALID_RESPONSE_TEXT : Text :=
  utf8 "Sorry, I received an invalid response.".

Definition TROUBLE_TEXT : Text :=
  utf8 "I'm sorry, I'm having trouble connecting right now. Please try again in a moment.".

Definition TIMED_OUT_TEXT : Text :=
  utf8 "Request timed out. Please check your connection and try again.".

Definition CANNOT_CONNECT_TEXT : Text :=
  utf8 "Cannot connect to server. Please ensure the backend is running or try offline relay.".

(** Outcome of the direct call of lines 86-127. *)
Inductive ApiOutcome :=
  | ApiAborted           (* the 30 s abort: error.name is AbortError *)
  | ApiNetworkFailed     (* error.message includes "Network request failed" *)
  | ApiOtherError        (* any other throw, among them !response.ok *)
  | ApiOk (responseText : option Text).
                         (* data.response, or data.response.response, when a string *)

Record SendEnv := mkSendEnv {
  se_hasInternet : bool;        (* the chat provider's own reading of NetInfo *)
  se_userMessageId : string;    (* Math.random() for the user's message *)
  se_queryId : string;
  se_replyMessageId : string;   (* Math.random() for the AI, pending or error message *)
  se_api : ApiOutcome;
  se_location : Text;           (* {lat, lon} of the device, or {lat: 0, lon: 0} *)
  se_deviceId : string;
  se_ble : Env                  (* what the BLE provider sees during relayQuery *)
}.

Section ChatSend.

Variable JSON_stringify : RelayMessage → Text.

(** [sendMessage], lines 56-201. *)
Definition sendMessage (senv : SendEnv) (text : Text) (cs : ChatState)
    (st : BleState) : ChatState * BleState * list Event :=
  match trim text with
  | [] => (cs, st, [])
  | _ :: _ =>
      let userMessage := mkChatMessage (se_userMessageId senv) text 1 in
      let shown := userMessage :: messages cs in
      let reply t := mkChatMessage (se_replyMessageId senv) t 2 in
      if se_hasInternet senv then
        let answer :=
          match se_api senv with
          | ApiOk (Some responseText) => responseText
          | ApiOk None => INVALID_RESPONSE_TEXT
          | ApiAborted => TIMED_OUT_TEXT
          | ApiNetworkFailed => CANNOT_CONNECT_TEXT
          | ApiOtherError => TROUBLE_TEXT
          end in
        (mkChatState (reply answer :: shown) (pendingQueries cs), st,
         [EvRelayFetch (se_queryId senv)])
      else
        let cs1 :=
          mkChatState (reply SEARCHING_TEXT :: shown)
            (pendingQueries cs
             ++ [mkPendingQuery (se_queryId senv) (se_replyMessageId senv) text]) in
        let '(st1, ev) :=
          relayQuery JSON_stringify (se_ble senv) (se_queryId senv) text
            assistant (Some (se_location senv)) (se_deviceId senv) None st in
        (cs1, st1, ev)
  end.

End ChatSend.

(** [clearChat], lines 203-206. *)
Definition clearChat (cs : ChatState) : ChatState := mkChatState [] [].

(** Lines 266-292: what one completed status poll does to the chat.
    [responseText] is the text taken from [data.response]. *)
Definition pollCompleted (newMessageId : string) (pending : PendingQuery)
    (responseText : Text) (cs : ChatState) : ChatState :=
  mkChatState
    (mkChatMessage newMessageId responseText 2
       :: filter (λ msg, cm_id msg ≠ pq_messageId pending) (messages cs))
    (filter (λ q, pq_queryId q ≠ pq_queryId pending) (pendingQueries cs)).

(** The reconnect effect, lines 256-300, for the pending list [snapshot] it
    was run with.  [check] is the backend's answer per query id: the text of
    a completed query, [None] when the request fails or the query is not
    completed; [newId] draws the id of each AI message.  The polls complete
    here in list order. *)
Fixpoint pollPending (check : string → option Text) (newId : string → string)
    (snapshot : list PendingQuery) (cs : ChatState) : ChatState :=
  match snapshot with
  | [] => cs
  | pending :: rest =>
      pollPending check newId rest
        (match check (pq_queryId pending) with
         | Some (c :: responseText) =>
             pollCompleted (newId (pq_queryId pending)) pending
               (c :: responseText) cs
         | _ => cs
         end)
  end.

Definition checkPendingQueries (hasInternet : bool)
    (check : string → option Text) (newId : string → string)
    (cs : ChatState) : ChatState :=
  if hasInternet then pollPending check newId (pendingQueries cs) cs else cs.

(** ** The device: provider state, peer table and scan listener *)

(** The provider's refs together with the two things it holds beside them:
    the peer table [peerHeartbeatsRef] and the scan listener.  The listener
    is the [handleIncomingChunk] of the render that registered it, in the
    mount effect (lines 772-858, dependencies []) or in the restart of
    [clearAllAndStop] (lines 687-695); what it carries of that render is its
    [hasInternet], which the handlers it reaches ([handleApiResponse],
    [handleRelayMessage]) read as well.  [None]: no listener is
    registered. *)
Record Device := mkDevice {
  dev_ble : BleState;
  dev_peers : gmap Text Z;
  dev_listener : option bool
}.

(** What the listener's handlers read: the captured [hasInternet], and the
    rest as it is when the frame arrives. *)
Definition listenerEnv (captured : bool) (env : Env) : Env :=
  mkEnv captured (freshId env) (backend env) (incidentStore env).

(** The mount effect when the BLE manager is available: the listener is the
    handler of the first render, whose [hasInternet] is [firstRender]. *)
Definition mountDevice (firstRender : bool) : Device :=
  mkDevice initialState ∅ (Some firstRender).

(** [clearAllAndStop], lines 653-685: the scanner is stopped and the refs
    are cleared; [peerHeartbeatsRef] is not among them. *)
Definition clearDevice (d : Device) : Device * list Event :=
  (mkDevice (clearAllAndStop (dev_ble d)).1 (dev_peers d) None,
   (clearAllAndStop (dev_ble d)).2).

(** The timeout of lines 687-700, 500 ms later: the scanner is started
    again with the handler of the render [clearAllAndStop] was called from,
    whose [hasInternet] is [online]. *)
Definition restartScanner (online : bool) (d : Device) : Device :=
  mkDevice (dev_ble d) (dev_peers d) (Some online).

(** What happens to a device: the scanner hands a frame to the listener, or
    something happens that does not come through the listener (a timer
    tick, the connectivity effect, a call of a function the context
    exports). *)
Inductive DeviceInput :=
  | DevFrame (now : Z) (env : Env) (c : Chunk)
  | DevLocal (i : Input).

Section DeviceOps.

Variable JSON_parse : Text → Parsed.
Variable JSON_stringify : RelayMessage → Text.

(** [deviceIdRef.current]. *)
Variable deviceId : Text.

(** A frame reaches the listener: [handleIncomingChunk], lines 128-239,
    with the peer table.  [now] is [Date.now()], [env] the device's
    situation when the frame arrives; its [hasInternet] is not read. *)
Definition onFrame (now : Z) (env : Env) (c : Chunk) (d : Device)
  : Device * list Event :=
  match dev_listener d with
  | None => (d, [])
  | Some captured =>
      let '(st, ev) :=
        handleIncomingChunk JSON_parse JSON_stringify
          (listenerEnv captured env) c (dev_ble d) in
      (mkDevice st (noteHeartbeat deviceId now c (dev_peers d))
         (dev_listener d), ev)
  end.

Definition onLocal (i : Input) (d : Device) : Device * list Event :=
  let '(st, ev) := step JSON_parse JSON_stringify i (dev_ble d) in
  (mkDevice st (dev_peers d) (dev_listener d), ev).

Definition devStep (i : DeviceInput) (d : Device) : Device * list Event :=
  match i with
  | DevFrame now env c => onFrame now env c d
  | DevLocal i => onLocal i d
  end.

Fixpoint devRun (inputs : list DeviceInput) (d : Device)
  : Device * list Event :=
  match inputs with
  | [] => (d, [])
  | i :: rest =>
      let '(d1, ev1) := devStep i d in
      let '(d2, ev2) := devRun rest d1 in
      (d2, ev1 ++ ev2)
  end.

End DeviceOps.

(** ** Auxiliary notions used in the statements *)

(** A text that comes through the decoder and the removal of U+0000 as it
    is: well-formed UTF-8 (the decoder rewrites nothing), no byte order mark
    in front, no zero byte. *)
Definition cleanText (t : Text) : Prop :=
  utf8Scan t = t ∧ startsWith BOM t = false ∧ 0%Z ∉ t.

#[global] Instance cleanText_dec t : Decision (cleanText t).
Proof. unfold cleanText. apply _. Defined.

(** The [i]-th chunk (from 0) of the encoding of [msg]. *)
Definition chunkOf (msg : list Z) (id : nat) (ack : bool) (i : nat) : Chunk :=
  mkChunk id (chunkCount msg) (S i) ack (fragment msg i).

(** The entry of a message being received, with the chunks [acc] so far. *)
Definition collecting (msg : list Z) (id : nat) (ack : bool)
    (acc : gmap nat Chunk) : MessageState :=
  mkMessageState id (chunkCount msg) false ack acc [].

Definition fromMessage (msg : list Z) (id : nat) (ack : bool)
    (acc : gmap nat Chunk) : Prop :=
  ∀ k c, acc !! k = Some c →
    ∃ i, i < chunkCount msg ∧ k = S i ∧ c = chunkOf msg id ack i.

Definition tracking (msg : list Z) (id : nat) (ack : bool)
    (st : BleState) (acc : gmap nat Chunk) : Prop :=
  (id ∉ ownMessageIds st)
  ∧ (masterState st !! id = None ∧ acc = ∅
     ∨ masterState st !! id = Some (collecting msg id ack acc)).

(** The transmissions of one pass over a queue entry. *)
Definition sendsOf (kv : nat * list Chunk) : list Event := EvSend kv.1 <$> kv.2.

(** Number of chunks queued: the ticks of one full traversal. *)
Fixpoint chunkTotal (q : list (nat * list Chunk)) : nat :=
  match q with
  | [] => 0
  | (_, chunks) :: q' => length chunks + chunkTotal q'
  end.

Definition wrapIndex (n i : nat) : nat := if decide (n ≤ i) then 0 else i.

(** The cursor the next callback will use: stale indices fall back to 0. *)
Definition currentCursor (st : BleState) : nat * nat :=
  let a := wrapIndex (length (broadcastQueue st)) (broadcastCursor st).1 in
  match broadcastQueue st !! a with
  | Some (_, chunks) => (a, wrapIndex (length chunks) (broadcastCursor st).2)
  | None => (a, (broadcastCursor st).2)
  end.

(** The chunk would be dropped by [handleIncomingChunk]: it is a heartbeat,
    or carries one of the device's own ids, or its slot is taken (or the
    entry complete) and no request-to-ack switch is due. *)
Definition settled (c : Chunk) (st : BleState) : Prop :=
  isHeartbeat c = true
  ∨ ck_id c ∈ ownMessageIds st
  ∨ (ck_id c ∈ receivedMessageIds st
     ∧ ∃ e, masterState st !! ck_id c = Some e
            ∧ (ms_isComplete e = true
               ∨ is_Some (ms_chunks e !! ck_chunkNumber c))
            ∧ (ms_isAck e = true ∨ ck_isAck c = false)).

(** The handler runs in a closure whose [hasInternet] is false / true. *)
Definition inputEnv (i : Input) : option Env :=
  match i with
  | InChunk env _ | InRelayMessage env _ | InRelayQuery env _ _ _ _ _ _
  | InRelayResponse env _ _ => Some env
  | _ => None
  end.

Definition offlineInput (i : Input) : Prop :=
  match inputEnv i with Some env => hasInternet env = false | None => True end.

Definition onlineInput (i : Input) : Prop :=
  match inputEnv i with Some env => hasInternet env = true | None => True end.

(** An input that does not come through the scan listener: the handlers
    [handleIncomingChunk] and [handleRelayMessage] are reached from the
    listener only. *)
Definition localInput (i : Input) : Prop :=
  match i with
  | InChunk _ _ | InRelayMessage _ _ => False
  | _ => True
  end.

Definition localDeviceInput (i : DeviceInput) : Prop :=
  match i with
  | DevFrame _ _ _ => True
  | DevLocal i => localInput i
  end.

(** What a response hands to the callback (lines 414-416): its text, when a
    callback is registered and the text is not empty. *)
Definition deliveredTo (st : BleState) (m : RelayMessage) : list Event :=
  match relayResponseCallback st, truthy (response m) with
  | true, Some text => [EvCallback (query_id m) text]
  | _, _ => []
  end.

(** The text a gateway relays back: the response of a successful reply of
    the backend, when it is not empty. *)
Definition backendAnswer (reply : BackendReply) : option Text :=
  match reply with
  | HttpOk true result => truthy result
  | _ => None
  end.

(** A request to the backend. *)
Definition isFetch (ev : Event) : Prop :=
  match ev with
  | EvRelayFetch _ | EvStoreFetch _ => True
  | _ => False
  end.

Definition isEnqueue (ev : Event) : Prop :=
  match ev with
  | EvEnqueue _ _ => True
  | _ => False
  end.

(** Every queued entry has a chunk to send and a message state behind it. *)
Definition queueBacked (st : BleState) : Prop :=
  Forall (λ kv : nat * list Chunk,
            kv.2 ≠ [] ∧ is_Some (masterState st !! kv.1))
    (broadcastQueue st).

(** The status poll finds the query completed, with a text to show. *)
Definition resolved (check : string → option Text) (queryId : string) : Prop :=
  match check queryId with
  | Some (_ :: _) => True
  | _ => False
  end.

#[global] Instance resolved_dec check queryId : Decision (resolved check queryId).
Proof. unfold resolved. destruct (check queryId) as [[|c t]|]; apply _. Defined.

(** The chunks put on the air by a run of timer callbacks, in order. *)
Definition sentChunks (evs : list Event) : list Chunk :=
  omap (λ ev, match ev with EvSend _ c => Some c | _ => None end) evs.

(** The keys of the queue, a Map, are pairwise distinct. *)
Definition uniqueKeys (st : BleState) : Prop := NoDup (broadcastQueue st).*1.

(** The two query sets only grow, whatever happens short of a full reset. *)
Definition dedupGrows (st st' : BleState) : Prop :=
  processedRelayQueries st ⊆ processedRelayQueries st'
  ∧ rebroadcastedQueryIds st ⊆ rebroadcastedQueryIds st'.

(** ** Concrete inputs used below *)

Definition parseNothing : Text → Parsed := λ _, NotJson.

Definition stringifyId : RelayMessage → Text :=
  λ m, (λ a, Z.of_nat (Ascii.nat_of_ascii a))
         <$> String.list_ascii_of_string (query_id m).

Definition offlineEnv : Env :=
  mkEnv false 9 NetworkFailure StoreFetchRejects.

Definition onlineEnv (reply : BackendReply) : Env :=
  mkEnv true 9 reply StoreFetchRejects.

(** A completed foreign request with id 7 ("hi"), and the first fragment of
    a two-fragment acknowledgement carrying the same id. *)
Definition request7 : MessageState :=
  mkMessageState 7 1 true false
    {[1 := mkChunk 7 1 1 false [104; 105; 0; 0; 0; 0]%Z]} [104; 105]%Z.

Definition stateWithRequest7 : BleState :=
  (handleIncomingChunk parseNothing stringifyId offlineEnv
     (mkChunk 7 1 1 false [104; 105; 0; 0; 0; 0]%Z) initialState).1.

Definition ackFragment7 : Chunk := mkChunk 7 2 1 true [111; 107; 0; 0; 0; 0]%Z.

(** Two messages queued by this device: twenty bytes (four chunks) under
    id 7, then two bytes (one chunk) under id 8. *)
Definition twoQueued : BleState :=
  (broadcastMessage 8 [104; 105]%Z
     (broadcastMessage 7
        [80; 85; 76; 83; 69; 32; 109; 101; 115; 104; 32; 114; 101; 108;
         97; 121; 32; 111; 110; 33]%Z initialState).1).1.

(** A platform parser under which every text reads as the response "42"
    to query "q1". *)
Definition parseAsResponseQ1 : Text → Parsed :=
  λ _, Relay (responseMessage "q1" [52; 50]%Z).

(** A platform parser under which every text reads as an incident report
    whose incident is the text itself. *)
Definition parseAsIncident : Text → Parsed := λ t, IncidentReport t.

(** A query from device "d1" with id "q1", and a chat with that query
    pending behind the placeholder message "m0". *)
Definition queryQ1 : RelayMessage :=
  queryMessage "q1" [104; 105]%Z assistant None "d1" None.

Definition chatAwaitingQ1 : ChatState :=
  mkChatState [mkChatMessage "m0" [46; 46; 46]%Z 2]
    [mkPendingQuery "q1" "m0" [104; 105]%Z].

(** A stand-in for the platform JSON on the two messages of one exchange:
    the query [queryQ1] is written as "Qq1" and its response "42" as "Rq1",
    and read back as such. *)
Definition stringifyByTag : RelayMessage → Text :=
  λ m, (match rm_type m with RELAY_QUERY => 81 | RELAY_RESPONSE => 82 end)%Z
         :: stringifyId m.

Definition parseByTag : Text → Parsed :=
  λ t, match t with
       | 81%Z :: _ => Relay queryQ1
       | 82%Z :: _ => Relay (responseMessage "q1" [52; 50]%Z)
       | _ => NotJson
       end.

(** * Properties of the reassembly tracker *)

Lemma trimWith_length len fuel s : length (trimWith len fuel s) ≤ length s.
Proof.
  revert s. induction fuel as [|fuel IH]; intros s; simpl; [lia|].
  destruct (len s) as [|k]; [lia|].
  specialize (IH (drop (S k) s)). rewrite length_drop in IH. lia.
Qed.

Lemma trim_length s : length (trim s) ≤ length s.
Proof.
  unfold trim. rewrite length_rev.
  pose proof (trimWith_length wsLen (length s) s) as H1.
  pose proof (trimWith_length wsLenRev
                (length (trimWith wsLen (length s) s))
                (rev (trimWith wsLen (length s) s))) as H2.
  rewrite length_rev in H2. lia.
Qed.

Lemma startsWith_short p s : length s < length p → startsWith p s = false.
Proof.
  revert s. induction p as [|a p IH]; intros [|b s] Hl; simpl in *;
    try lia; try done.
  rewrite IH by lia. apply andb_false_r.
Qed.

(** A payload shorter than the ten bytes of the prefix is no heartbeat. *)
Lemma short_payload_not_heartbeat c :
  length (ck_data c) < 10 → isHeartbeat c = false.
Proof.
  intros Hl. apply startsWith_short. simpl.
  pose proof (trim_length (ck_data c)). lia.
Qed.

(** The tracker, when the chunk is accepted for processing. *)
Lemma trackChunk_accepted c st :
  isHeartbeat c = false →
  ck_id c ∉ ownMessageIds st →
  trackChunk c st =
    let id := ck_id c in
    let st1 := set_receivedMessageIds ({[id]} ∪ receivedMessageIds st) st in
    let entry := entryFor c (masterState st !! id) in
    let put e := set_masterState (<[id := e]> (masterState st)) st1 in
    if ms_isComplete entry
       || bool_decide (is_Some (ms_chunks entry !! ck_chunkNumber c))
    then (put entry, None)
    else
      let entry1 := storeChunk c entry in
      if decide (size (ms_chunks entry1) = ms_totalChunks entry1) then
        let entry2 := markComplete entry1 in
        match reassemble entry2 with
        | None => (put entry2, None)
        | Some fullMessage =>
            (put (setFullMessage fullMessage entry2),
             Some (mkCompletion id (ms_isAck entry2) fullMessage))
        end
      else (put entry1, None).
Proof.
  intros Hh Ho. unfold trackChunk. rewrite Hh.
  destruct (decide _); [done|reflexivity].
Qed.

Lemma trackChunk_complete_noop c st e :
  masterState st !! ck_id c = Some e →
  ms_isComplete e = true →
  ms_isAck e = true ∨ ck_isAck c = false →
  masterState (trackChunk c st).1 = masterState st
  ∧ (trackChunk c st).2 = None.
Proof.
  intros Hm Hc Hr. unfold trackChunk.
  destruct (isHeartbeat c); [done|].
  destruct (decide _); [done|].
  rewrite Hm. simpl.
  assert (He : (if negb (ms_isAck e) && ck_isAck c
                then resetForAck e (ck_totalChunks c) else e) = e).
  { destruct Hr as [-> | ->]; [done | by rewrite andb_false_r]. }
  rewrite He, Hc. simpl. split; [|done]. by apply insert_id.
Qed.

(** C4, as stated, fails: a completed request is reset by a fragment with
    the ack flag set. *)
Lemma complete_request_reset_by_ack :
  masterState stateWithRequest7 !! ck_id ackFragment7 = Some request7
  ∧ ms_isComplete request7 = true
  ∧ masterState
      (handleIncomingChunk parseNothing stringifyId offlineEnv
         ackFragment7 stateWithRequest7).1 !! ck_id ackFragment7
    = Some (mkMessageState 7 2 false true {[1 := ackFragment7]} [])
  ∧ mkMessageState 7 2 false true {[1 := ackFragment7]} [] ≠ request7.
Proof. repeat split; [reflexivity..|discriminate]. Qed.

(** A fragment with the ack flag set that meets a stored request of another
    device: the entry is reset in place and the fragment stored in it. *)
Lemma ack_resets_request c st e :
  isHeartbeat c = false →
  ck_id c ∉ ownMessageIds st →
  masterState st !! ck_id c = Some e →
  ms_isAck e = false →
  ck_isAck c = true →
  entryFor c (Some e)
    = mkMessageState (ms_id e) (ck_totalChunks c) false true ∅ []
  ∧ ∃ final,
      masterState (trackChunk c st).1
        = <[ck_id c := final]> (masterState st)
      ∧ ms_id final = ms_id e
      ∧ ms_isAck final = true
      ∧ ms_totalChunks final = ck_totalChunks c
      ∧ ms_chunks final = {[ck_chunkNumber c := c]}
      ∧ ms_isComplete final = bool_decide (ck_totalChunks c = 1)
      ∧ (ck_totalChunks c ≠ 1 → ms_fullMessage final = [])
      ∧ ∀ d, (trackChunk c st).2 = Some d → done_isAck d = true.
Proof.
  intros Hh Ho Hm He Hc.
  assert (Hentry : entryFor c (Some e)
            = mkMessageState (ms_id e) (ck_totalChunks c) false true ∅ []).
  { unfold entryFor. by rewrite He, Hc. }
  split; [exact Hentry|].
  rewrite (trackChunk_accepted c st Hh Ho). cbv zeta.
  rewrite Hm, Hentry. simpl.
  rewrite lookup_empty, insert_empty, map_size_singleton.
  case_bool_decide as Hs; [by apply is_Some_None in Hs|].
  destruct (decide (1 = ck_totalChunks c)) as [H1|H1].
  - destruct (reassemble _) as [full|];
      (eexists; split; [reflexivity|]; simpl; repeat split; try done;
       try (by rewrite bool_decide_eq_true_2);
       try (by intros d [= <-])).
  - eexists. split; [reflexivity|]. simpl. repeat split; try done.
    by rewrite bool_decide_eq_false_2.
Qed.

(** C4 (amended): once the entry of a message id is complete, a further
    fragment with that id changes no reassembly state and triggers nothing,
    whatever its declared total and sequence number, provided the entry is
    already in the ack role or the fragment's ack flag is clear.  A
    fragment with the ack flag set that meets a completed request, is not a
    heartbeat frame and carries an id that is not one of the device's own,
    resets the entry in place (fragments and text cleared, total replaced
    by the declared total, completion flag cleared, role ack) and is stored
    in it, which completes the entry again when the declared total is 1;
    it triggers nothing. *)
Theorem complete_entry_no_resurrection JSON_parse JSON_stringify env c st e :
  masterState st !! ck_id c = Some e →
  ms_isComplete e = true →
  (ms_isAck e = true ∨ ck_isAck c = false →
   masterState (handleIncomingChunk JSON_parse JSON_stringify env c st).1
     = masterState st
   ∧ (handleIncomingChunk JSON_parse JSON_stringify env c st).2 = [])
  ∧ (ms_isAck e = false → ck_isAck c = true →
     isHeartbeat c = false → ck_id c ∉ ownMessageIds st →
     entryFor c (Some e)
       = mkMessageState (ms_id e) (ck_totalChunks c) false true ∅ []
     ∧ (handleIncomingChunk JSON_parse JSON_stringify env c st).2 = []
     ∧ ∃ final,
         masterState (handleIncomingChunk JSON_parse JSON_stringify env c st).1
           = <[ck_id c := final]> (masterState st)
         ∧ ms_id final = ms_id e
         ∧ ms_isAck final = true
         ∧ ms_totalChunks final = ck_totalChunks c
         ∧ ms_chunks final = {[ck_chunkNumber c := c]}
         ∧ ms_isComplete final = bool_decide (ck_totalChunks c = 1)
         ∧ (ck_totalChunks c ≠ 1 → ms_fullMessage final = [])).
Proof.
  intros Hm Hc. split.
  - intros Hr.
    destruct (trackChunk_complete_noop c st e Hm Hc Hr) as [H1 H2].
    unfold handleIncomingChunk.
    destruct (trackChunk c st) as [st1 [d|]]; simpl in *; [done|].
    by split.
  - intros He Hack Hh Ho.
    destruct (ack_resets_request c st e Hh Ho Hm He Hack)
      as (Hentry & final & Hms & H1 & H2 & H3 & H4 & H5 & H6 & Hd).
    split; [exact Hentry|].
    assert (Hsame : handleIncomingChunk JSON_parse JSON_stringify env c st
              = ((trackChunk c st).1, [])).
    { unfold handleIncomingChunk.
      destruct (trackChunk c st) as [st1 [d|]]; [|done].
      unfold dispatchComplete. by rewrite (Hd d eq_refl). }
    rewrite Hsame. split; [done|]. by exists final.
Qed.

Lemma complete_entry_no_resurrection_witness :
  (masterState
     (handleIncomingChunk parseNothing stringifyId offlineEnv
        (mkChunk 7 5 3 false [1; 2; 3]%Z) stateWithRequest7).1
     = masterState stateWithRequest7
   ∧ (handleIncomingChunk parseNothing stringifyId offlineEnv
        (mkChunk 7 5 3 false [1; 2; 3]%Z) stateWithRequest7).2 = [])
  ∧ ∃ final,
      masterState
        (handleIncomingChunk parseNothing stringifyId offlineEnv
           ackFragment7 stateWithRequest7).1
        = <[7 := final]> (masterState stateWithRequest7)
      ∧ ms_isAck final = true
      ∧ ms_chunks final = {[1 := ackFragment7]}.
Proof.
  split.
  - apply (proj1 (complete_entry_no_resurrection parseNothing stringifyId
                    offlineEnv (mkChunk 7 5 3 false [1; 2; 3]%Z)
                    stateWithRequest7 request7 eq_refl eq_refl)).
    right. reflexivity.
  - destruct (proj2 (complete_entry_no_resurrection parseNothing stringifyId
                       offlineEnv ackFragment7 stateWithRequest7 request7
                       eq_refl eq_refl))
      as (_ & _ & final & H1 & _ & H3 & _ & H5 & _).
    + reflexivity.
    + reflexivity.
    + reflexivity.
    + apply (bool_decide_unpack _). vm_compute. exact I.
    + exists final. by repeat split.
Defined.

Lemma stripNul_app s t : stripNul (s ++ t) = stripNul s ++ stripNul t.
Proof. apply filter_app. Qed.

Lemma stripNul_zeros n : stripNul (replicate n 0%Z) = [].
Proof.
  induction n as [|n IH]; [done|]. simpl. unfold stripNul in *.
  rewrite filter_cons_False; [done|]. intros H. by apply H.
Qed.

Lemma stripNul_padded s n : stripNul (s ++ replicate n 0%Z) = stripNul s.
Proof. by rewrite stripNul_app, stripNul_zeros, app_nil_r. Qed.

(** C5: the code misses the case the transition is written for.  A device
    queues an incident report under id 7; a device whose receive handler
    runs online stores it and, as lines 288-299 have it, queues the
    acknowledgement under the same id with the ack flag set; back at the
    first device every fragment of that acknowledgement is dropped by the
    own-id guard of lines 146-150, before the transition of lines 162-170,
    and the stored request stays a request. *)
Lemma own_request_not_transitioned :
  let report := [123; 125]%Z in
  let sender := (broadcastMessage 7 report initialState).1 in
  let env := mkEnv true 9 NetworkFailure (StoreReturns [111; 107]%Z) in
  let gateway :=
    deliver parseAsIncident stringifyId
      ((λ c, (env, c)) <$> encodeMessageToChunks report 7 false)
      initialState in
  let acks := encodeMessageToChunks [111; 107]%Z 7 true in
  gateway.2 = [EvStoreFetch report; EvEnqueue 7 acks]
  ∧ (∃ e, masterState sender !! 7 = Some e ∧ ms_isAck e = false)
  ∧ Forall (λ c, ck_id c = 7 ∧ ck_isAck c = true
                 ∧ handleIncomingChunk parseNothing stringifyId offlineEnv
                     c sender = (sender, []))
      acks.
Proof.
  intros report sender env gateway acks. split; [reflexivity|]. split.
  - eexists. split; reflexivity.
  - repeat constructor.
Qed.

(** ** The modelled encoder *)

Lemma zeroPad_length n d : length d ≤ n → length (zeroPad n d) = n.
Proof. intros H. unfold zeroPad. rewrite length_app, length_replicate. lia. Qed.

Lemma fragment_length msg i : length (fragment msg i) = DATA_PER_CHUNK.
Proof.
  unfold fragment. apply zeroPad_length. rewrite length_take. lia.
Qed.

Lemma chunkCount_covers msg : length msg ≤ DATA_PER_CHUNK * chunkCount msg.
Proof.
  unfold chunkCount, DATA_PER_CHUNK.
  change (6 - 1) with 5.
  pose proof (Nat.div_mod (length msg + 5) 6 ltac:(lia)) as Hd.
  pose proof (Nat.mod_upper_bound (length msg + 5) 6 ltac:(lia)) as Hm.
  remember ((length msg + 5) / 6) as q. remember ((length msg + 5) mod 6) as r.
  lia.
Qed.

Lemma stripNul_clean s : (0%Z ∉ s) → stripNul s = s.
Proof.
  induction s as [|b s IH]; intros Hn; [done|].
  unfold stripNul in *. rewrite filter_cons_True.
  - f_equal. apply IH. intros Hin. apply Hn. by right.
  - intros ->. apply Hn. by left.
Qed.

Lemma stripNul_fragments msg n j :
  stripNul (concat (fragment msg <$> seq j n))
  = stripNul (take (DATA_PER_CHUNK * n) (drop (DATA_PER_CHUNK * j) msg)).
Proof.
  revert j. induction n as [|n IH]; intros j.
  - rewrite Nat.mul_0_r. reflexivity.
  - simpl seq. rewrite fmap_cons. simpl concat.
    rewrite stripNul_app, IH. unfold fragment, zeroPad.
    rewrite stripNul_padded, <- stripNul_app. f_equal.
    replace (DATA_PER_CHUNK * S n) with (DATA_PER_CHUNK + DATA_PER_CHUNK * n) by lia.
    rewrite <- take_take_drop. f_equal. f_equal.
    rewrite drop_drop. f_equal. lia.
Qed.

Lemma fragments_length msg n j :
  length (concat (fragment msg <$> seq j n)) = n * DATA_PER_CHUNK.
Proof.
  revert j. induction n as [|n IH]; intros j; [done|].
  simpl seq. rewrite fmap_cons. simpl concat.
  rewrite length_app, fragment_length, IH. lia.
Qed.

(** ** The decoder on well-formed text *)

Lemma utf8Scan_app t u : utf8Scan t = t → utf8Scan (t ++ u) = t ++ utf8Scan u.
Proof.
  remember (length t) as n eqn:Hn. revert t Hn.
  induction n as [n IH] using lt_wf_ind. intros t Hn Hfix.
  destruct t as [|b rest]; [done|].
  cbn [utf8Scan] in Hfix. cbn [app utf8Scan].
  assert (Hbad : ∀ x y, REPLACEMENT ++ x = b :: y →
            between 224 239 b = true ∧ lowerBoundary b = 128%Z
            ∧ upperBoundary b = 191%Z
            ∧ ∃ y', y = 191%Z :: 189%Z :: y').
  { intros x y [= <- <-]. repeat split. by eexists. }
  destruct (between 0 127 b).
  { injection Hfix as Hfix. f_equal. apply (IH (length rest)); [simpl in Hn; lia|done..]. }
  destruct (between 194 223 b) eqn:H2.
  { destruct rest as [|c1 rest1]; [discriminate|].
    cbn [app]. destruct (between 128 191 c1) eqn:Hc1.
    - injection Hfix as Hfix. do 2 f_equal.
      apply (IH (length rest1)); [simpl in Hn; lia|done..].
    - destruct (Hbad _ _ Hfix) as (_ & _ & _ & y' & [= -> _]).
      by vm_compute in Hc1. }
  destruct (between 224 239 b) eqn:H3.
  { destruct rest as [|c1 rest1]; [discriminate|].
    cbn [app].
    destruct (between (lowerBoundary b) (upperBoundary b) c1) eqn:Hc1.
    - destruct rest1 as [|c2 rest2]; [discriminate|]. cbn [app].
      destruct (between 128 191 c2) eqn:Hc2.
      + injection Hfix as Hfix. do 3 f_equal.
        apply (IH (length rest2)); [simpl in Hn; lia|done..].
      + destruct (Hbad _ _ Hfix) as (_ & _ & _ & y' & [= _ -> _]).
        by vm_compute in Hc2.
    - destruct (Hbad _ _ Hfix) as (_ & Hl & Hu & y' & [= -> _]).
      rewrite Hl, Hu in Hc1. by vm_compute in Hc1. }
  assert (Hno : ∀ x y, REPLACEMENT ++ x = b :: y → False).
  { intros x y Hxy. destruct (Hbad _ _ Hxy) as (Hb & _). by rewrite Hb in H3. }
  destruct (between 240 244 b); [|by destruct (Hno _ _ Hfix)].
  destruct rest as [|c1 rest1]; [by destruct (Hno [] _ Hfix)|]. cbn [app].
  destruct (between (lowerBoundary b) (upperBoundary b) c1);
    [|by destruct (Hno _ _ Hfix)].
  destruct rest1 as [|c2 rest2]; [by destruct (Hno [] _ Hfix)|]. cbn [app].
  destruct (between 128 191 c2); [|by destruct (Hno _ _ Hfix)].
  destruct rest2 as [|c3 rest3]; [by destruct (Hno [] _ Hfix)|]. cbn [app].
  destruct (between 128 191 c3); [|by destruct (Hno _ _ Hfix)].
  injection Hfix as Hfix. do 4 f_equal.
  apply (IH (length rest3)); [simpl in Hn; lia|done..].
Qed.

Lemma startsWith_BOM_padded t n :
  startsWith BOM (t ++ replicate n 0%Z) = startsWith BOM t.
Proof.
  destruct t as [|a [|b [|c t]]]; destruct n as [|[|[|n]]]; simpl;
    rewrite ?andb_false_r, ?andb_true_r; try done.
Qed.

Lemma utf8Scan_zeros n : utf8Scan (replicate n 0%Z) = replicate n 0%Z.
Proof. induction n as [|n IH]; [done|]. simpl. by rewrite IH. Qed.

(** A clean text followed by padding comes through as it is, padding
    removed. *)
Lemma cleanText_decoded t n :
  cleanText t → stripNul (utf8Decode (t ++ replicate n 0%Z)) = t.
Proof.
  intros (Hfix & Hbom & Hz). unfold utf8Decode.
  rewrite (utf8Scan_app _ _ Hfix), utf8Scan_zeros, startsWith_BOM_padded, Hbom.
  by rewrite stripNul_padded, stripNul_clean.
Qed.

(** The fragments of a message, one after the other, are the message and
    its padding. *)
Lemma fragments_concat msg n j :
  ∃ k, concat (fragment msg <$> seq j n)
       = take (DATA_PER_CHUNK * n) (drop (DATA_PER_CHUNK * j) msg)
         ++ replicate k 0%Z.
Proof.
  revert j. induction n as [|n IH]; intros j.
  - exists 0. by rewrite Nat.mul_0_r.
  - simpl seq. rewrite fmap_cons. simpl concat.
    destruct (IH (S j)) as [k ->]. unfold fragment, zeroPad.
    set (d := drop (DATA_PER_CHUNK * j) msg).
    replace (drop (DATA_PER_CHUNK * S j) msg) with (drop DATA_PER_CHUNK d).
    2:{ unfold d. rewrite drop_drop. f_equal. lia. }
    replace (DATA_PER_CHUNK * S n) with (DATA_PER_CHUNK + DATA_PER_CHUNK * n)
      by lia.
    rewrite <- take_take_drop.
    destruct (decide (DATA_PER_CHUNK ≤ length d)) as [Hfull|Hshort].
    + rewrite length_take, Nat.min_l by done.
      rewrite Nat.sub_diag. simpl replicate. rewrite app_nil_r.
      exists k. by rewrite app_assoc.
    + rewrite (drop_ge d) by lia. rewrite take_nil, app_nil_r. simpl app.
      eexists. by rewrite <- app_assoc, <- replicate_add.
Qed.

(** ** Round trip through the encoder and the tracker *)

Section Roundtrip.

Variable msg : list Z.
Variable id : nat.
Variable ack : bool.

Local Abbreviation chunkOf := (chunkOf msg id ack).
Local Abbreviation collecting := (collecting msg id ack).
Local Abbreviation fromMessage := (fromMessage msg id ack).
Local Abbreviation tracking := (tracking msg id ack).

Lemma encode_chunkOf : encodeMessageToChunks msg id ack = chunkOf <$> seq 0 (chunkCount msg).
Proof. reflexivity. Qed.

#[local] Instance chunkOf_inj : Inj (=) (=) chunkOf.
Proof. intros i j H. by injection H. Qed.

Lemma encode_NoDup : NoDup (encodeMessageToChunks msg id ack).
Proof. rewrite encode_chunkOf. apply NoDup_fmap_2; [apply _|apply NoDup_seq]. Qed.

Lemma chunkOf_not_heartbeat i : isHeartbeat (chunkOf i) = false.
Proof.
  apply short_payload_not_heartbeat. simpl. rewrite fragment_length.
  unfold DATA_PER_CHUNK. lia.
Qed.

Lemma tracking_entryFor st acc i :
  tracking st acc → entryFor (chunkOf i) (masterState st !! id) = collecting acc.
Proof.
  intros [_ [[-> ->] | ->]]; [reflexivity|].
  unfold entryFor. simpl. by destruct ack.
Qed.

Lemma fromMessage_insert acc i :
  fromMessage acc → i < chunkCount msg → fromMessage (<[S i := chunkOf i]> acc).
Proof.
  intros Hg Hi k c. rewrite lookup_insert. case_decide as Hk.
  - intros [= <-]. subst k. eauto.
  - apply Hg.
Qed.

(** A fragment that does not complete the message is stored. *)
Lemma track_collecting st acc i :
  tracking st acc → i < chunkCount msg → acc !! S i = None →
  S (size acc) ≠ chunkCount msg →
  ∃ st', trackChunk (chunkOf i) st = (st', None)
         ∧ tracking st' (<[S i := chunkOf i]> acc).
Proof.
  intros Ht Hi Hnone Hsz.
  pose proof Ht as [Hown _].
  rewrite (trackChunk_accepted _ _ (chunkOf_not_heartbeat i) Hown). cbv zeta.
  change (ck_id (chunkOf i)) with id.
  rewrite (tracking_entryFor st acc i Ht). simpl.
  rewrite Hnone.
  case_bool_decide as Hs; [by apply is_Some_None in Hs|].
  rewrite map_size_insert_None by done.
  destruct (decide _) as [Heq|_]; [done|].
  eexists. split; [reflexivity|].
  split; [done|]. right. simpl. apply lookup_insert_eq.
Qed.

Lemma complete_lookup acc i :
  fromMessage acc → size acc = chunkCount msg → i < chunkCount msg →
  acc !! S i = Some (chunkOf i).
Proof.
  intros Hg Hsz Hi.
  assert (Hsub : dom acc ⊆ (set_seq 1 (chunkCount msg) : gset nat)).
  { intros k Hk. apply elem_of_dom in Hk as [c Hc].
    destruct (Hg k c Hc) as (j & Hj & -> & _).
    apply elem_of_set_seq. lia. }
  apply set_subseteq_size_eq in Hsub.
  2:{ rewrite size_set_seq, size_dom. lia. }
  assert (Hin : S i ∈ dom acc).
  { rewrite Hsub. apply elem_of_set_seq. lia. }
  apply elem_of_dom in Hin as [c Hc].
  destruct (Hg _ c Hc) as (j & Hj & Heq & ->). by injection Heq as ->.
Qed.

Lemma collectParts_complete acc j k :
  (∀ i, j ≤ i < j + k → acc !! S i = Some (chunkOf i)) →
  collectParts acc (S j) k = Some (concat (fragment msg <$> seq j k)).
Proof.
  revert j. induction k as [|k IH]; intros j Hall; [done|].
  simpl. rewrite (Hall j) by lia. rewrite (IH (S j)); [done|].
  intros i Hi. apply Hall. lia.
Qed.

Lemma reassemble_complete acc :
  cleanText msg →
  (∀ i, i < chunkCount msg → acc !! S i = Some (chunkOf i)) →
  reassemble (mkMessageState id (chunkCount msg) true ack acc []) = Some msg.
Proof.
  intros Hz Hall. unfold reassemble. simpl.
  rewrite (collectParts_complete acc 0 (chunkCount msg)).
  2:{ intros i Hi. apply Hall. lia. }
  rewrite fragments_length.
  destruct (decide _) as [_|Hn]; [|by destruct Hn].
  rewrite Nat.sub_diag. simpl. rewrite app_nil_r.
  destruct (fragments_concat msg (chunkCount msg) 0) as [k ->].
  simpl drop. rewrite drop_0, take_ge by apply chunkCount_covers.
  by rewrite cleanText_decoded.
Qed.

(** The fragment that completes the message. *)
Lemma track_completing st acc i :
  cleanText msg →
  tracking st acc → fromMessage acc → i < chunkCount msg → acc !! S i = None →
  S (size acc) = chunkCount msg →
  ∃ st', trackChunk (chunkOf i) st = (st', Some (mkCompletion id ack msg))
         ∧ ownMessageIds st' = ownMessageIds st
         ∧ masterState st' !! id
           = Some (mkMessageState id (chunkCount msg) true ack
                     (<[S i := chunkOf i]> acc) msg).
Proof.
  intros Hz Ht Hg Hi Hnone Hsz.
  pose proof Ht as [Hown _].
  rewrite (trackChunk_accepted _ _ (chunkOf_not_heartbeat i) Hown). cbv zeta.
  change (ck_id (chunkOf i)) with id.
  rewrite (tracking_entryFor st acc i Ht). simpl.
  rewrite Hnone.
  case_bool_decide as Hs; [by apply is_Some_None in Hs|].
  rewrite map_size_insert_None by done.
  destruct (decide _) as [_|Hne]; [|done].
  unfold markComplete, storeChunk. simpl.
  rewrite reassemble_complete; [| done |].
  - eexists. split; [reflexivity|]. split; [done|].
    simpl. apply lookup_insert_eq.
  - intros j Hj. apply complete_lookup; [|by rewrite map_size_insert_None|done].
    by apply fromMessage_insert.
Qed.

Variable JSON_parse : Text → Parsed.
Variable JSON_stringify : RelayMessage → Text.

Lemma deliver_until_complete (l : list (Env * Chunk)) st acc :
  cleanText msg →
  l ≠ [] →
  tracking st acc → fromMessage acc →
  (∀ c, c ∈ l.*2 → ∃ i, i < chunkCount msg ∧ c = chunkOf i ∧ acc !! S i = None) →
  NoDup (l.*2) →
  size acc + length l = chunkCount msg →
  ∃ pre env last st1 st2 chunks,
    l = pre ++ [(env, last)]
    ∧ deliver JSON_parse JSON_stringify pre st = (st1, [])
    ∧ trackChunk last st1 = (st2, Some (mkCompletion id ack msg))
    ∧ masterState st2 !! id
      = Some (mkMessageState id (chunkCount msg) true ack chunks msg).
Proof.
  intros Hz. revert st acc.
  induction l as [|[env c] l IH]; intros st acc Hne Ht Hg Hall Hnd Hsz; [done|].
  destruct (Hall c) as (i & Hi & -> & Hnone); [by left|].
  destruct l as [|y l].
  - destruct (track_completing st acc i Hz Ht Hg Hi Hnone) as (st2 & Hrun & _ & Hm).
    { simpl in Hsz. lia. }
    exists [], env, (chunkOf i), st, st2. eexists. repeat split; eauto.
  - destruct (track_collecting st acc i Ht Hi Hnone) as (st' & Hrun & Ht').
    { simpl in Hsz. lia. }
    rewrite fmap_cons in Hnd. apply NoDup_cons in Hnd as [Hnin Hnd].
    destruct (IH st' (<[S i := chunkOf i]> acc))
      as (pre & env' & last & st1 & st2 & chunks & Hl & Hpre & Hlast & Hm);
      [done | done | by apply fromMessage_insert | | done | | ].
    + intros c' Hc'. destruct (Hall c') as (j & Hj & -> & Hjn); [by right|].
      exists j. repeat split; [done|].
      rewrite lookup_insert_ne; [done|].
      intros [= ->]. by apply Hnin.
    + rewrite map_size_insert_None by done. simpl in *. lia.
    + exists ((env, chunkOf i) :: pre), env', last, st1, st2, chunks.
      rewrite Hl. repeat split; [| done | done].
      cbn [deliver]. unfold handleIncomingChunk at 1. rewrite Hrun.
      by rewrite Hpre.
Qed.

End Roundtrip.

(** C1 (amended): for every byte message that is well-formed UTF-8, does
    not begin with a byte order mark and contains no zero byte, every id
    that is neither stored nor one of the device's own, and every order in
    which the encoded fragments are handed to the receive callback, the
    fragments before the last are stored without further effect and the
    last one completes the entry: the text handed on, and stored in the
    entry, is exactly the message. *)
Theorem reassembly_roundtrip JSON_parse JSON_stringify
    (msg : list Z) id ack (frames : list (Env * Chunk)) env last st :
  cleanText msg →
  masterState st !! id = None →
  id ∉ ownMessageIds st →
  (frames ++ [(env, last)]).*2 ≡ₚ encodeMessageToChunks msg id ack →
  ∃ st1 st2 chunks,
    deliver JSON_parse JSON_stringify frames st = (st1, [])
    ∧ trackChunk last st1 = (st2, Some (mkCompletion id ack msg))
    ∧ masterState st2 !! id
      = Some (mkMessageState id (chunkCount msg) true ack chunks msg)
    ∧ handleIncomingChunk JSON_parse JSON_stringify env last st1
      = dispatchComplete JSON_parse JSON_stringify env
          (mkCompletion id ack msg) st2.
Proof.
  intros Hz Hm Hown Hperm.
  pose proof (encode_NoDup msg id ack) as Hnd.
  destruct (deliver_until_complete msg id ack JSON_parse JSON_stringify
              (frames ++ [(env, last)]) st ∅)
    as (pre & env' & last' & st1 & st2 & chunks & Hl & Hpre & Hlast & Hfin).
  - done.
  - by destruct frames.
  - split; [done|]. by left.
  - intros k c. by rewrite lookup_empty.
  - intros c Hc. rewrite Hperm, encode_chunkOf in Hc.
    apply list_elem_of_fmap in Hc as (i & -> & Hi).
    apply elem_of_seq in Hi. exists i.
    split; [lia|]. split; [done|apply lookup_empty].
  - by rewrite Hperm.
  - rewrite map_size_empty. simpl.
    rewrite <- (length_fmap snd), Hperm.
    unfold encodeMessageToChunks. by rewrite length_fmap, length_seq.
  - apply app_inj_tail in Hl as [<- [= <- <-]].
    exists st1, st2, chunks. repeat split; [done..|].
    unfold handleIncomingChunk. by rewrite Hlast.
Qed.


(** The scenario of the specification: twenty bytes, four fragments,
    delivered in the order 4, 2, 1, 3. *)
Lemma reassembly_roundtrip_witness :
  let msg := [80; 85; 76; 83; 69; 32; 109; 101; 115; 104; 32; 114; 101; 108;
              97; 121; 32; 111; 110; 33]%Z in
  let c k := mkChunk 7 4 k false (fragment msg (k - 1)) in
  ∃ st1 st2 chunks,
    deliver parseNothing stringifyId
      [(offlineEnv, c 4); (offlineEnv, c 2); (offlineEnv, c 1)] initialState
      = (st1, [])
    ∧ trackChunk (c 3) st1 = (st2, Some (mkCompletion 7 false msg))
    ∧ masterState st2 !! 7 = Some (mkMessageState 7 4 true false chunks msg)
    ∧ handleIncomingChunk parseNothing stringifyId offlineEnv (c 3) st1
      = dispatchComplete parseNothing stringifyId offlineEnv
          (mkCompletion 7 false msg) st2.
Proof.
  intros msg c.
  apply (reassembly_roundtrip parseNothing stringifyId msg 7 false
           [(offlineEnv, c 4); (offlineEnv, c 2); (offlineEnv, c 1)]
           offlineEnv (c 3) initialState).
  - apply (bool_decide_unpack _). vm_compute. exact I.
  - reflexivity.
  - apply (bool_decide_unpack _). vm_compute. exact I.
  - apply (bool_decide_unpack _). vm_compute. exact I.
Defined.

(** The other two conditions are needed as well: a byte order mark in front
    is dropped by the decoder, and bytes that are not well-formed UTF-8 come
    out as U+FFFD. *)
Lemma leading_bom_lost :
  let msg := [239; 187; 191; 104; 105]%Z in
  ∃ c st2,
    encodeMessageToChunks msg 7 false = [c]
    ∧ trackChunk c initialState
      = (st2, Some (mkCompletion 7 false [104; 105]%Z)).
Proof. intros msg. eexists. eexists. split; reflexivity. Qed.

Lemma ill_formed_byte_replaced :
  let msg := [104; 255; 105]%Z in
  ∃ c st2,
    encodeMessageToChunks msg 7 false = [c]
    ∧ trackChunk c initialState
      = (st2, Some (mkCompletion 7 false [104; 239; 191; 189; 105]%Z)).
Proof. intros msg. eexists. eexists. split; reflexivity. Qed.

(** C1, as stated, fails: a zero byte inside the message is removed along
    with the padding. *)
Lemma interior_zero_byte_lost :
  let msg := [97; 0; 98]%Z in
  ∃ c st2,
    encodeMessageToChunks msg 7 false = [c]
    ∧ trackChunk c initialState
      = (st2, Some (mkCompletion 7 false [97; 98]%Z))
    ∧ [97; 98]%Z ≠ msg.
Proof.
  intros msg. eexists. eexists. split; [reflexivity|].
  split; [reflexivity|discriminate].
Qed.

(** * Properties of the scheduler *)

Lemma ticks_add m n st :
  ticks (m + n) st =
    let '(st1, ev1) := ticks m st in
    let '(st2, ev2) := ticks n st1 in
    (st2, ev1 ++ ev2).
Proof.
  revert st. induction m as [|m IH]; intros st; simpl.
  - by destruct (ticks n st).
  - destruct (tick st) as [st1 ev1]. rewrite IH.
    destruct (ticks m st1) as [st2 ev2]. destruct (ticks n st2) as [st3 ev3].
    by rewrite app_assoc.
Qed.

(** One timer callback with the cursor inside an entry. *)
Lemma tick_sends st a ci id chunks c :
  broadcastQueue st !! a = Some (id, chunks) →
  chunks !! ci = Some c →
  tick (set_broadcastCursor (a, ci) st)
  = (set_broadcastCursor
       (if decide (length chunks ≤ S ci)
        then (wrapIndex (length (broadcastQueue st)) (S a), 0)
        else (a, S ci)) st,
     [EvSend id c]).
Proof.
  intros Ha Hc. unfold tick, wrapIndex. simpl.
  pose proof (lookup_lt_Some _ _ _ Ha) as Hlt.
  pose proof (lookup_lt_Some _ _ _ Hc) as Hlc.
  destruct (broadcastQueue st) as [|e q] eqn:Hq; [done|].
  destruct (decide (length (e :: q) ≤ a)) as [Hbad|_]; [lia|].
  rewrite Ha.
  destruct chunks as [|c0 chunks]; [done|].
  destruct (decide (length (c0 :: chunks) ≤ ci)) as [Hbad|_]; [lia|].
  rewrite Hc. by destruct (decide _).
Qed.

(** [m] callbacks that stay within one entry, or just leave it. *)
Lemma ticks_within st a id chunks m ci :
  broadcastQueue st !! a = Some (id, chunks) →
  ci < length chunks →
  ci + m ≤ length chunks →
  ticks m (set_broadcastCursor (a, ci) st)
  = (set_broadcastCursor
       (if decide (length chunks ≤ ci + m)
        then (wrapIndex (length (broadcastQueue st)) (S a), 0)
        else (a, ci + m)) st,
     EvSend id <$> take m (drop ci chunks)).
Proof.
  intros Ha. revert ci. induction m as [|m IH]; intros ci Hci Hm.
  - simpl. rewrite decide_False by lia. by rewrite Nat.add_0_r.
  - destruct (lookup_lt_is_Some_2 chunks ci Hci) as [c Hc].
    cbn [ticks]. rewrite (tick_sends st a ci id chunks c Ha Hc).
    rewrite (drop_S _ _ _ Hc). cbn [take fmap list_fmap].
    destruct (decide (length chunks ≤ S ci)) as [Hle|Hgt].
    + assert (m = 0) as -> by lia. simpl.
      by rewrite decide_True by lia.
    + rewrite (IH (S ci)) by lia.
      replace (S ci + m) with (ci + S m) by lia. done.
Qed.

(** A run of whole entries, from the start of entry [a]. *)
Lemma ticks_span st k a :
  Forall (λ kv, kv.2 ≠ []) (broadcastQueue st) →
  a + k ≤ length (broadcastQueue st) →
  a < length (broadcastQueue st) →
  ticks (chunkTotal (take k (drop a (broadcastQueue st))))
    (set_broadcastCursor (a, 0) st)
  = (set_broadcastCursor (wrapIndex (length (broadcastQueue st)) (a + k), 0) st,
     take k (drop a (broadcastQueue st)) ≫= sendsOf).
Proof.
  intros Hne. revert a. induction k as [|k IH]; intros a Hk Ha.
  - simpl. unfold wrapIndex. rewrite decide_False by lia.
    by rewrite Nat.add_0_r.
  - destruct (lookup_lt_is_Some_2 _ a Ha) as [[id chunks] He].
    rewrite (drop_S _ _ _ He). cbn [take chunkTotal].
    rewrite ticks_add.
    assert (Hnz : chunks ≠ []).
    { rewrite Forall_forall in Hne. apply (Hne (id, chunks)).
      eapply list_elem_of_lookup_2, He. }
    assert (0 < length chunks) by (destruct chunks; [done|simpl; lia]).
    rewrite (ticks_within st a id chunks (length chunks) 0 He) by lia.
    rewrite decide_True by lia. rewrite drop_0, firstn_all.
    destruct (decide (S a < length (broadcastQueue st))) as [Hlt|Hge].
    + unfold wrapIndex at 1. rewrite decide_False by lia.
      rewrite (IH (S a)) by lia.
      replace (S a + k) with (a + S k) by lia. by rewrite bind_cons.
    + assert (k = 0) as -> by lia.
      rewrite take_0, bind_cons. simpl. 
      unfold wrapIndex. rewrite !decide_True by lia. done.
Qed.

Lemma chunkTotal_app q1 q2 :
  chunkTotal (q1 ++ q2) = chunkTotal q1 + chunkTotal q2.
Proof.
  induction q1 as [|[id chunks] q1 IH]; simpl; [done|]. rewrite IH. lia.
Qed.

Lemma tick_currentCursor st :
  broadcastQueue st ≠ [] →
  tick st = tick (set_broadcastCursor (currentCursor st) st).
Proof.
  intros Hq. unfold tick, currentCursor, wrapIndex. simpl.
  destruct (broadcastQueue st) as [|e q] eqn:Hqe; [done|].
  destruct (broadcastCursor st) as [qi ci]. simpl.
  destruct (decide (S (length q) ≤ qi)) as [Hqi|Hqi].
  - simpl. destruct e as [id chunks]. simpl.
    destruct chunks as [|c0 chunks]; [done|].
    destruct (decide (length (c0 :: chunks) ≤ ci)) as [Hci|Hci];
      simpl in *; repeat (case_decide; simpl in *; try lia); done.
  - destruct ((e :: q) !! qi) as [[id chunks]|] eqn:He.
    2:{ apply lookup_ge_None in He. simpl in He. lia. }
    simpl. destruct (decide (S (length q) ≤ qi)) as [?|_]; [lia|].
    rewrite He.
    destruct chunks as [|c0 chunks]; [done|].
    destruct (decide (length (c0 :: chunks) ≤ ci)) as [Hci|Hci];
      simpl in *; repeat (case_decide; simpl in *; try lia); done.
Qed.

Lemma ticks_currentCursor n st :
  broadcastQueue st ≠ [] → 0 < n →
  ticks n st = ticks n (set_broadcastCursor (currentCursor st) st).
Proof.
  intros Hq Hn. destruct n as [|n]; [lia|]. simpl.
  by rewrite <- tick_currentCursor.
Qed.

(** One full traversal from a cursor inside entry [a]. *)
Lemma traversal_from st a c id chunks :
  Forall (λ kv, kv.2 ≠ []) (broadcastQueue st) →
  broadcastQueue st !! a = Some (id, chunks) →
  c < length chunks →
  ticks (chunkTotal (broadcastQueue st)) (set_broadcastCursor (a, c) st)
  = (set_broadcastCursor (a, c) st,
     (EvSend id <$> drop c chunks)
     ++ (drop (S a) (broadcastQueue st) ≫= sendsOf)
     ++ (take a (broadcastQueue st) ≫= sendsOf)
     ++ (EvSend id <$> take c chunks)).
Proof.
  intros Hne Ha Hc.
  pose proof (lookup_lt_Some _ _ _ Ha) as HaN.
  set (q := broadcastQueue st) in *.
  assert (Hsplit : chunkTotal q
            = (length chunks - c) + (chunkTotal (drop (S a) q)
               + (chunkTotal (take a q) + c))).
  { rewrite <- (take_drop_middle q a (id, chunks) Ha) at 1.
    rewrite chunkTotal_app. simpl. lia. }
  rewrite Hsplit. clear Hsplit.
  (* the rest of entry a *)
  rewrite ticks_add.
  rewrite (ticks_within st a id chunks (length chunks - c) c Ha) by lia.
  rewrite decide_True by lia.
  rewrite (take_ge (drop c chunks)) by (rewrite length_drop; lia).
  (* the entries after a *)
  rewrite ticks_add.
  assert (Hafter :
    ticks (chunkTotal (drop (S a) q))
      (set_broadcastCursor (wrapIndex (length (broadcastQueue st)) (S a), 0) st)
    = (set_broadcastCursor (0, 0) st, drop (S a) q ≫= sendsOf)).
  { fold q. destruct (decide (S a < length q)) as [Hlt|Hge].
    - pose proof (ticks_span st (length q - S a) (S a) Hne) as Hs.
      fold q in Hs. rewrite take_ge in Hs by (rewrite length_drop; lia).
      unfold wrapIndex at 1. rewrite decide_False by lia.
      rewrite Hs by lia. unfold wrapIndex. by rewrite decide_True by lia.
    - rewrite drop_ge by lia. simpl.
      unfold wrapIndex. by rewrite decide_True by lia. }
  rewrite Hafter.
  (* the entries before a *)
  rewrite ticks_add.
  pose proof (ticks_span st a 0 Hne) as Hbefore. fold q in Hbefore.
  rewrite drop_0 in Hbefore. rewrite Hbefore by lia.
  unfold wrapIndex. rewrite decide_False by (simpl; lia). simpl "+".
  (* the start of entry a *)
  rewrite (ticks_within st a id chunks c 0 Ha) by lia.
  rewrite decide_False by lia. by rewrite drop_0.
Qed.

Lemma currentCursor_valid st :
  broadcastQueue st ≠ [] →
  Forall (λ kv, kv.2 ≠ []) (broadcastQueue st) →
  ∃ id chunks,
    broadcastQueue st !! (currentCursor st).1 = Some (id, chunks)
    ∧ (currentCursor st).2 < length chunks.
Proof.
  intros Hq Hne. unfold currentCursor.
  set (a := wrapIndex _ _).
  assert (Ha : a < length (broadcastQueue st)).
  { unfold a, wrapIndex. destruct (broadcastQueue st); [done|].
    case_decide; simpl in *; lia. }
  destruct (lookup_lt_is_Some_2 _ a Ha) as [[id chunks] He].
  rewrite He. exists id, chunks. split; [done|]. simpl.
  assert (chunks ≠ []) as Hc.
  { rewrite Forall_forall in Hne. apply (Hne (id, chunks)).
    eapply list_elem_of_lookup_2, He. }
  unfold wrapIndex. destruct chunks; [done|].
  case_decide; simpl in *; lia.
Qed.

Lemma sendsOf_length q : length (q ≫= sendsOf) = chunkTotal q.
Proof.
  induction q as [|[id chunks] q IH]; [done|].
  rewrite bind_cons, length_app, IH. unfold sendsOf. simpl.
  by rewrite length_fmap.
Qed.

Lemma sendsOf_elem (q : list (nat * list Chunk)) id chunks c :
  (id, chunks) ∈ q → c ∈ chunks → EvSend id c ∈ q ≫= sendsOf.
Proof.
  intros Hq Hc. apply list_elem_of_bind. exists (id, chunks).
  split; [|done]. unfold sendsOf. simpl. by apply list_elem_of_fmap_2.
Qed.

(** C6: with every queue entry holding at least one chunk and nothing but
    the timer touching the queue, the callbacks of one full traversal (as
    many as there are chunks queued) bring the cursor back to where it was,
    leave the queue as it is, and send at least one fragment of every entry;
    and a callback that finds the queue empty stops the scheduler. *)
Theorem scheduler_fairness st :
  (broadcastQueue st = [] →
   tick st
   = (set_broadcastCursor (0, 0) (set_masterInterval false st), [EvStopBle]))
  ∧ (broadcastQueue st ≠ [] →
     Forall (λ kv, kv.2 ≠ []) (broadcastQueue st) →
     ∃ evs,
       ticks (chunkTotal (broadcastQueue st)) st
         = (set_broadcastCursor (currentCursor st) st, evs)
       ∧ length evs = chunkTotal (broadcastQueue st)
       ∧ ∀ id chunks, (id, chunks) ∈ broadcastQueue st →
           ∃ c, c ∈ chunks ∧ EvSend id c ∈ evs).
Proof.
  split.
  - intros Hq. unfold tick. by rewrite Hq.
  - intros Hq Hne.
    destruct (currentCursor_valid st Hq Hne) as (ida & cha & Ha & Hc).
    destruct (currentCursor st) as [a c] eqn:Hcur. simpl in Ha, Hc.
    assert (Hpos : 0 < chunkTotal (broadcastQueue st)).
    { rewrite <- (take_drop_middle _ a _ Ha), chunkTotal_app. simpl. lia. }
    rewrite (ticks_currentCursor _ st Hq Hpos), Hcur.
    rewrite (traversal_from st a c ida cha Hne Ha Hc).
    eexists. split; [reflexivity|]. split.
    + rewrite !length_app, !length_fmap, !sendsOf_length,
        length_drop, length_take.
      rewrite <- (take_drop_middle _ a _ Ha) at 3.
      rewrite chunkTotal_app. simpl. lia.
    + intros id chunks Hin.
      apply list_elem_of_lookup_1 in Hin as [j Hj].
      assert (chunks ≠ []) as Hnz.
      { rewrite Forall_forall in Hne. apply (Hne (id, chunks)).
        eapply list_elem_of_lookup_2, Hj. }
      destruct (Nat.lt_total j a) as [Hlt|[->|Hgt]].
      * destruct chunks as [|c0 chunks]; [done|]. exists c0.
        split; [by left|]. rewrite !elem_of_app. right. right. left.
        apply (sendsOf_elem _ id (c0 :: chunks)); [|by left].
        apply elem_of_take. eauto.
      * rewrite Ha in Hj. injection Hj as -> ->.
        destruct (lookup_lt_is_Some_2 chunks c Hc) as [ch Hch].
        exists ch. split; [by eapply list_elem_of_lookup_2|].
        rewrite !elem_of_app. left. apply list_elem_of_fmap_2.
        rewrite (drop_S _ _ _ Hch). by left.
      * destruct chunks as [|c0 chunks]; [done|]. exists c0.
        split; [by left|]. rewrite !elem_of_app. right. left.
        apply (sendsOf_elem _ id (c0 :: chunks)); [|by left].
        apply list_elem_of_lookup. exists (j - S a).
        rewrite lookup_drop. rewrite <- Hj. f_equal. lia.
Qed.

(** Keys of a Map are unique. *)
Lemma unique_key (q : list (nat * list Chunk)) id v1 v2 :
  NoDup q.*1 → (id, v1) ∈ q → (id, v2) ∈ q → v1 = v2.
Proof.
  induction q as [|[k v] q IH]; intros Hnd H1 H2.
  - by apply elem_of_nil in H1.
  - rewrite fmap_cons in Hnd. apply NoDup_cons in Hnd as [Hnin Hnd].
    apply elem_of_cons in H1 as [[= -> ->]|H1];
      apply elem_of_cons in H2 as [[= ?]|H2]; subst; try done.
    + exfalso. apply Hnin. by apply (list_elem_of_fmap_2 fst _ (k, v2)).
    + exfalso. apply Hnin. by apply (list_elem_of_fmap_2 fst _ (k, v1)).
    + by apply IH.
Qed.

Lemma queueSet_key id chunks q k :
  k ∈ (queueSet id chunks q).*1 → k = id ∨ k ∈ q.*1.
Proof.
  induction q as [|[k2 v2] q IH]; simpl.
  - intros Hin. left. by apply list_elem_of_singleton in Hin.
  - case_decide as Hk; csimpl; rewrite !elem_of_cons.
    + intros [->|Hin]; [by left|by right; right].
    + intros [->|Hin]; [by right; left|].
      destruct (IH Hin); [by left|by right; right].
Qed.

Lemma queueSet_keys id chunks q :
  NoDup q.*1 → NoDup (queueSet id chunks q).*1.
Proof.
  induction q as [|[k v] q IH]; csimpl; intros Hnd.
  - apply NoDup_singleton.
  - apply NoDup_cons in Hnd as [Hnin Hnd].
    case_decide; csimpl; apply NoDup_cons; [done|].
    split; [|by apply IH].
    intros Hin. apply queueSet_key in Hin as [->|Hin]; done.
Qed.

Lemma queueSet_elem id chunks q : (id, chunks) ∈ queueSet id chunks q.
Proof.
  induction q as [|[k v] q IH]; simpl; [by left|].
  case_decide as Hk; [subst; by left|by right].
Qed.

Lemma queueSet_other id chunks q kv :
  kv ∈ q → kv.1 ≠ id → kv ∈ queueSet id chunks q.
Proof.
  induction q as [|[k v] q IH]; simpl; intros Hin Hne.
  - by apply elem_of_nil in Hin.
  - apply elem_of_cons in Hin as [->|Hin].
    + simpl in Hne. rewrite decide_False by done. by left.
    + case_decide; right; [done|by apply IH].
Qed.

Lemma queueSet_fresh id chunks (q : list (nat * list Chunk)) :
  id ∉ q.*1 → queueSet id chunks q = q ++ [(id, chunks)].
Proof.
  induction q as [|[k v] q IH]; csimpl; intros Hnin; [done|].
  rewrite decide_False.
  - f_equal. apply IH. intros Hin. apply Hnin. by right.
  - intros ->. apply Hnin. by left.
Qed.

Lemma currentCursor_set st a c id chunks :
  broadcastQueue st !! a = Some (id, chunks) → c < length chunks →
  currentCursor (set_broadcastCursor (a, c) st) = (a, c).
Proof.
  intros Ha Hc. pose proof (lookup_lt_Some _ _ _ Ha) as HaN.
  unfold currentCursor, wrapIndex. simpl.
  rewrite decide_False by lia. rewrite Ha.
  by rewrite decide_False by lia.
Qed.

(** C7, as stated, fails: the tick that sends the only chunk of an entry
    leaves the entry queued, and the next tick sends the chunk again. *)
Lemma sent_entry_still_queued :
  let st := (broadcastMessage 7 [104; 105]%Z initialState).1 in
  ∃ c,
    broadcastQueue st = [(7, [c])]
    ∧ tick st = (st, [EvSend 7 c])
    ∧ ticks 2 st = (st, [EvSend 7 c; EvSend 7 c]).
Proof. intros st. eexists. repeat split. Qed.

(** C7 (amended): the scheduler removes an entry only when its chunk list
    is empty.  An entry with at least one chunk is still queued after every
    tick, in particular after the tick that sends its last chunk (a tick
    that sends anything leaves the queue as it is), and when every entry has
    a chunk each further traversal transmits all chunks of all entries
    again. *)
Theorem sent_entry_stays_queued st :
  uniqueKeys st →
  (∀ entry, entry ∈ broadcastQueue st → entry.2 ≠ [] →
     entry ∈ broadcastQueue (tick st).1)
  ∧ ((tick st).2 ≠ [] → broadcastQueue (tick st).1 = broadcastQueue st)
  ∧ (broadcastQueue st ≠ [] →
     Forall (λ kv, kv.2 ≠ []) (broadcastQueue st) →
     ∃ st' evs,
       ticks (chunkTotal (broadcastQueue st)) st = (st', evs)
       ∧ ticks (chunkTotal (broadcastQueue st)) st' = (st', evs)
       ∧ broadcastQueue st' = broadcastQueue st
       ∧ ∀ id chunks c, (id, chunks) ∈ broadcastQueue st → c ∈ chunks →
           EvSend id c ∈ evs).
Proof.
  unfold uniqueKeys. intros Hnd. split; [|split].
  - intros [id chunks] Hin Hne. unfold tick.
    destruct (broadcastQueue st) as [|e q] eqn:Hq; [by apply elem_of_nil in Hin|].
    destruct (broadcastCursor st) as [qi ci].
    destruct ((e :: q) !! _) as [[cur [|c0 cs]]|] eqn:He; simpl;
      rewrite ?Hq; try done.
    apply list_elem_of_filter. split; [|done]. simpl. intros ->.
    apply list_elem_of_lookup_2 in He.
    by rewrite (unique_key _ _ _ _ Hnd Hin He) in Hne.
  - unfold tick.
    destruct (broadcastQueue st) as [|e q] eqn:Hq; [by simpl; rewrite Hq|].
    destruct (broadcastCursor st) as [qi ci].
    destruct ((e :: q) !! _) as [[cur [|c0 cs]]|] eqn:He; simpl;
      rewrite ?Hq; done.
  - intros Hq Hne.
    destruct (currentCursor_valid st Hq Hne) as (ida & cha & Ha & Hc).
    destruct (currentCursor st) as [a c] eqn:Hcur. simpl in Ha, Hc.
    assert (Hpos : 0 < chunkTotal (broadcastQueue st)).
    { rewrite <- (take_drop_middle _ a _ Ha), chunkTotal_app. simpl. lia. }
    rewrite (ticks_currentCursor _ st Hq Hpos), Hcur.
    rewrite (traversal_from st a c ida cha Hne Ha Hc).
    eexists _, _. split; [reflexivity|]. split; [|split; [done|]].
    + change (broadcastQueue st)
        with (broadcastQueue (set_broadcastCursor (a, c) st)) at 1.
      rewrite (ticks_currentCursor _ (set_broadcastCursor (a, c) st)) by done.
      rewrite (currentCursor_set st a c ida cha Ha Hc).
      apply (traversal_from st a c ida cha Hne Ha Hc).
    + intros id chunks ch Hin Hch.
      apply list_elem_of_lookup_1 in Hin as [j Hj].
      rewrite !elem_of_app.
      destruct (Nat.lt_total j a) as [Hlt|[->|Hgt]].
      * right. right. left. apply (sendsOf_elem _ id chunks); [|done].
        apply elem_of_take. eauto.
      * rewrite Ha in Hj. injection Hj as -> ->.
        rewrite <- (take_drop c chunks) in Hch.
        apply elem_of_app in Hch as [Hch|Hch].
        -- right. right. right. by apply list_elem_of_fmap_2.
        -- left. by apply list_elem_of_fmap_2.
      * right. left. apply (sendsOf_elem _ id chunks); [|done].
        apply list_elem_of_lookup. exists (j - S a).
        rewrite lookup_drop. rewrite <- Hj. f_equal. lia.
Qed.

Lemma scheduler_fairness_witness :
  tick initialState
    = (set_broadcastCursor (0, 0) (set_masterInterval false initialState),
       [EvStopBle])
  ∧ ∃ evs,
      ticks (chunkTotal (broadcastQueue twoQueued)) twoQueued
        = (set_broadcastCursor (currentCursor twoQueued) twoQueued, evs)
      ∧ length evs = chunkTotal (broadcastQueue twoQueued)
      ∧ ∀ id chunks, (id, chunks) ∈ broadcastQueue twoQueued →
          ∃ c, c ∈ chunks ∧ EvSend id c ∈ evs.
Proof.
  split.
  - apply (proj1 (scheduler_fairness initialState)). reflexivity.
  - apply (proj2 (scheduler_fairness twoQueued)).
    + discriminate.
    + apply (bool_decide_unpack _). vm_compute. exact I.
Defined.

Lemma sent_entry_stays_queued_witness :
  (∀ entry, entry ∈ broadcastQueue twoQueued → entry.2 ≠ [] →
     entry ∈ broadcastQueue (tick twoQueued).1)
  ∧ ((tick twoQueued).2 ≠ [] →
     broadcastQueue (tick twoQueued).1 = broadcastQueue twoQueued)
  ∧ ∃ st' evs,
      ticks (chunkTotal (broadcastQueue twoQueued)) twoQueued = (st', evs)
      ∧ ticks (chunkTotal (broadcastQueue twoQueued)) st' = (st', evs)
      ∧ broadcastQueue st' = broadcastQueue twoQueued
      ∧ ∀ id chunks c, (id, chunks) ∈ broadcastQueue twoQueued → c ∈ chunks →
          EvSend id c ∈ evs.
Proof.
  destruct (sent_entry_stays_queued twoQueued) as (H1 & H2 & H3).
  - unfold uniqueKeys. apply (bool_decide_unpack _). vm_compute. exact I.
  - split; [exact H1|]. split; [exact H2|]. apply H3.
    + discriminate.
    + apply (bool_decide_unpack _). vm_compute. exact I.
Defined.

(** * Properties of the relay layer *)

Lemma broadcastMessage_spec newId message st :
  let chunks := encodeMessageToChunks message newId false in
  let st' := (broadcastMessage newId message st).1 in
  (broadcastMessage newId message st).2 = [EvEnqueue newId chunks]
  ∧ broadcastQueue st' = queueSet newId chunks (broadcastQueue st)
  ∧ ownMessageIds st' = {[newId]} ∪ ownMessageIds st
  ∧ masterState st'
    = <[newId := ownState newId chunks message]> (masterState st)
  ∧ masterInterval st' = true
  ∧ processedRelayQueries st' = processedRelayQueries st
  ∧ rebroadcastedQueryIds st' = rebroadcastedQueryIds st
  ∧ querySenderMap st' = querySenderMap st
  ∧ relayResponseCallback st' = relayResponseCallback st
  ∧ receivedMessageIds st' = receivedMessageIds st.
Proof.
  unfold broadcastMessage, addToBroadcastQueue. simpl.
  destruct (masterInterval st) eqn:Hm; simpl; rewrite ?Hm; repeat split.
Qed.

(** What [broadcastMessage] leaves in the queue, and the timer. *)
Lemma broadcastMessage_queued newId message st :
  let chunks := encodeMessageToChunks message newId false in
  let st' := (broadcastMessage newId message st).1 in
  (newId, chunks) ∈ broadcastQueue st'
  ∧ (∀ kv, kv ∈ broadcastQueue st → kv.1 ≠ newId → kv ∈ broadcastQueue st')
  ∧ (newId ∉ (broadcastQueue st).*1 →
     broadcastQueue st' = broadcastQueue st ++ [(newId, chunks)])
  ∧ masterInterval st' = true
  ∧ broadcastCursor st'
    = (if masterInterval st then broadcastCursor st else (0, 0)).
Proof.
  intros chunks st'.
  destruct (broadcastMessage_spec newId message st)
    as (_ & Hq & _ & _ & Hi & _).
  fold st' chunks in Hq, Hi. rewrite Hq.
  split; [apply queueSet_elem|].
  split; [intros kv; apply queueSet_other|].
  split; [apply queueSet_fresh|]. split; [done|].
  unfold st', broadcastMessage, addToBroadcastQueue. simpl.
  by destruct (masterInterval st).
Qed.

(** A query whose id is already in one of the two sets is dropped. *)
Lemma known_query_dropped JSON_stringify env m st :
  rm_type m = RELAY_QUERY →
  query_id m ∈ processedRelayQueries st
  ∨ query_id m ∈ rebroadcastedQueryIds st →
  handleRelayMessage JSON_stringify env m st = (st, []).
Proof.
  intros Ht Hin. unfold handleRelayMessage. rewrite Ht.
  destruct (decide _) as [|Hn]; [done|].
  destruct (decide _) as [|Hn']; [done|]. by destruct Hin.
Qed.

Lemma dedupGrows_refl st : dedupGrows st st.
Proof. by split. Qed.

Lemma dedupGrows_trans st1 st2 st3 :
  dedupGrows st1 st2 → dedupGrows st2 st3 → dedupGrows st1 st3.
Proof. intros [? ?] [? ?]. split; set_solver. Qed.

Lemma dedupGrows_same st st' :
  processedRelayQueries st' = processedRelayQueries st →
  rebroadcastedQueryIds st' = rebroadcastedQueryIds st →
  dedupGrows st st'.
Proof. intros H1 H2. unfold dedupGrows. by rewrite H1, H2. Qed.

Lemma broadcastMessage_dedup newId message st :
  dedupGrows st (broadcastMessage newId message st).1.
Proof.
  destruct (broadcastMessage_spec newId message st)
    as (_ & _ & _ & _ & _ & Hp & Hr & _).
  by apply dedupGrows_same.
Qed.

Lemma addToBroadcastQueue_dedup id chunks st :
  dedupGrows st (addToBroadcastQueue id chunks st).1.
Proof.
  unfold addToBroadcastQueue. simpl.
  destruct (masterInterval st); by apply dedupGrows_same.
Qed.

Lemma handleRelayMessage_dedup JSON_stringify env m st :
  dedupGrows st (handleRelayMessage JSON_stringify env m st).1.
Proof.
  unfold handleRelayMessage.
  destruct (rm_type m).
  - destruct (decide _); [apply dedupGrows_refl|].
    destruct (decide _); [apply dedupGrows_refl|].
    destruct (hasInternet env).
    + assert (Hs : dedupGrows st
                (set_processedRelayQueries
                   ({[query_id m]} ∪ processedRelayQueries st) st)).
      { split; simpl; set_solver. }
      destruct (backend env) as [| |success result]; try exact Hs.
      destruct (if success then truthy result else None); [|exact Hs].
      unfold relayResponse.
      destruct (broadcastMessage _ _ _) as [st2 ev] eqn:Hb. simpl.
      eapply dedupGrows_trans; [exact Hs|].
      replace st2 with (broadcastMessage (freshId env)
         (JSON_stringify (responseMessage (query_id m) l))
         (set_processedRelayQueries
            ({[query_id m]} ∪ processedRelayQueries st) st)).1
        by (by rewrite Hb).
      apply broadcastMessage_dedup.
    + eapply dedupGrows_trans; [|apply broadcastMessage_dedup].
      destruct (truthyString _); split; simpl; set_solver.
  - destruct (negb _ && negb _); [|apply dedupGrows_refl].
    destruct (broadcastMessage _ _ _) as [st2 ev] eqn:Hb. simpl.
    replace st2 with (broadcastMessage (freshId env) (JSON_stringify m)
       (set_rebroadcastedQueryIds
          ({[responseKey (query_id m)]} ∪ rebroadcastedQueryIds st) st)).1
      by (by rewrite Hb).
    eapply dedupGrows_trans; [|apply broadcastMessage_dedup].
    split; simpl; set_solver.
Qed.

Lemma trackChunk_dedup c st : dedupGrows st (trackChunk c st).1.
Proof.
  unfold trackChunk.
  repeat (case_match; simpl; try apply dedupGrows_refl);
    by apply dedupGrows_same.
Qed.

Lemma handleApiResponse_dedup JSON_parse JSON_stringify env id text st :
  dedupGrows st
    (handleApiResponse JSON_parse JSON_stringify env id text st).1.
Proof.
  unfold handleApiResponse.
  destruct (JSON_parse text); try apply dedupGrows_refl.
  - apply handleRelayMessage_dedup.
  - destruct (incidentStore env) as [| |l]; [apply dedupGrows_refl..|].
    destruct (addToBroadcastQueue _ _ _) as [st2 ev] eqn:Ha. simpl.
    pose proof (addToBroadcastQueue_dedup id
      (encodeMessageToChunks l id true)
      (set_masterState
         (<[id:=ackState id (encodeMessageToChunks l id true) l]>
            (masterState st)) st)) as Hd.
    rewrite Ha in Hd. exact Hd.
Qed.

Lemma handleIncomingChunk_dedup JSON_parse JSON_stringify env c st :
  dedupGrows st (handleIncomingChunk JSON_parse JSON_stringify env c st).1.
Proof.
  unfold handleIncomingChunk.
  pose proof (trackChunk_dedup c st) as Ht.
  destruct (trackChunk c st) as [st1 [done|]]; [|exact Ht].
  eapply dedupGrows_trans; [exact Ht|]. unfold dispatchComplete.
  destruct (done_isAck done); [apply dedupGrows_refl|].
  destruct (hasInternet env); [apply handleApiResponse_dedup|].
  destruct (JSON_parse _); try apply dedupGrows_refl.
  apply handleRelayMessage_dedup.
Qed.

Lemma tick_dedup st : dedupGrows st (tick st).1.
Proof.
  unfold tick.
  repeat (case_match; simpl; try apply dedupGrows_refl);
    by apply dedupGrows_same.
Qed.

Lemma step_dedup JSON_parse JSON_stringify i st :
  dedupGrows st (step JSON_parse JSON_stringify i st).1.
Proof.
  destruct i; simpl.
  - apply handleIncomingChunk_dedup.
  - apply handleRelayMessage_dedup.
  - unfold timerFires. destruct (masterInterval st);
      [apply tick_dedup|apply dedupGrows_refl].
  - by apply dedupGrows_same.
  - by apply dedupGrows_same.
  - apply broadcastMessage_dedup.
  - unfold relayQuery. destruct (hasInternet env);
      [apply dedupGrows_refl|apply broadcastMessage_dedup].
  - apply broadcastMessage_dedup.
  - by apply dedupGrows_same.
  - unfold onConnectivityChange. destruct online; [|apply dedupGrows_refl].
    destruct (_ && _); by apply dedupGrows_same.
Qed.

Lemma run_dedup JSON_parse JSON_stringify inputs st :
  dedupGrows st (run JSON_parse JSON_stringify inputs st).1.
Proof.
  revert st. induction inputs as [|i inputs IH]; intros st; simpl.
  - apply dedupGrows_refl.
  - pose proof (step_dedup JSON_parse JSON_stringify i st) as Hs.
    destruct (step _ _ i st) as [st1 ev1].
    specialize (IH st1). destruct (run _ _ inputs st1) as [st2 ev2].
    simpl in *. by eapply dedupGrows_trans.
Qed.

(** ** The queue is a Map in every reachable state *)

Lemma filter_keys (P : nat * list Chunk → Prop) `{∀ kv, Decision (P kv)}
    (q : list (nat * list Chunk)) :
  NoDup q.*1 → NoDup (filter P q).*1.
Proof.
  induction q as [|kv q IH]; csimpl; intros Hnd; [done|].
  apply NoDup_cons in Hnd as [Hnin Hnd].
  destruct (decide (P kv)).
  - rewrite filter_cons_True by done. csimpl. apply NoDup_cons.
    split; [|by apply IH]. intros Hin. apply Hnin.
    apply list_elem_of_fmap in Hin as (kv' & -> & Hin).
    apply list_elem_of_filter in Hin as [_ Hin].
    by apply list_elem_of_fmap_2.
  - rewrite filter_cons_False by done. by apply IH.
Qed.

Lemma uniqueKeys_same st st' :
  broadcastQueue st' = broadcastQueue st → uniqueKeys st → uniqueKeys st'.
Proof. unfold uniqueKeys. by intros ->. Qed.

Lemma addToBroadcastQueue_keys id chunks st :
  uniqueKeys st → uniqueKeys (addToBroadcastQueue id chunks st).1.
Proof.
  unfold uniqueKeys, addToBroadcastQueue. simpl. intros Hnd.
  destruct (masterInterval st); simpl; by apply queueSet_keys.
Qed.

Lemma broadcastMessage_keys newId message st :
  uniqueKeys st → uniqueKeys (broadcastMessage newId message st).1.
Proof.
  intros Hnd. unfold uniqueKeys.
  destruct (broadcastMessage_spec newId message st) as (_ & -> & _).
  by apply queueSet_keys.
Qed.

Lemma handleRelayMessage_keys JSON_stringify env m st :
  uniqueKeys st → uniqueKeys (handleRelayMessage JSON_stringify env m st).1.
Proof.
  intros Hnd. unfold handleRelayMessage.
  destruct (rm_type m).
  - destruct (decide _); [done|]. destruct (decide _); [done|].
    destruct (hasInternet env).
    + destruct (backend env) as [| |success result]; try done.
      destruct (if success then truthy result else None); [|done].
      unfold relayResponse.
      destruct (broadcastMessage _ _ _) as [st2 ev] eqn:Hb. simpl.
      change st2 with (st2, ev).1. rewrite <- Hb.
      by apply broadcastMessage_keys.
    + apply broadcastMessage_keys. by destruct (truthyString _).
  - destruct (negb _ && negb _); [|done].
    destruct (broadcastMessage _ _ _) as [st2 ev] eqn:Hb. simpl.
    change st2 with (st2, ev).1. rewrite <- Hb.
    by apply broadcastMessage_keys.
Qed.

Lemma trackChunk_queue c st :
  broadcastQueue (trackChunk c st).1 = broadcastQueue st.
Proof. unfold trackChunk. repeat (case_match; simpl; try done). Qed.

Lemma handleIncomingChunk_keys JSON_parse JSON_stringify env c st :
  uniqueKeys st →
  uniqueKeys (handleIncomingChunk JSON_parse JSON_stringify env c st).1.
Proof.
  intros Hnd. unfold handleIncomingChunk.
  pose proof (trackChunk_queue c st) as Hq.
  destruct (trackChunk c st) as [st1 [done|]]; simpl in Hq;
    [|by apply (uniqueKeys_same st)].
  assert (Hnd1 : uniqueKeys st1) by by apply (uniqueKeys_same st).
  unfold dispatchComplete.
  destruct (done_isAck done); [done|].
  destruct (hasInternet env).
  - unfold handleApiResponse. destruct (JSON_parse _); try done.
    + by apply handleRelayMessage_keys.
    + destruct (incidentStore env); [done..|].
      destruct (addToBroadcastQueue _ _ _) as [st2 ev] eqn:Ha. simpl.
      change st2 with (st2, ev).1. rewrite <- Ha.
      by apply addToBroadcastQueue_keys.
  - destruct (JSON_parse _); try done. by apply handleRelayMessage_keys.
Qed.

Lemma tick_keys st : uniqueKeys st → uniqueKeys (tick st).1.
Proof.
  intros Hnd. unfold tick.
  destruct (broadcastQueue st) as [|e q] eqn:Hq; [by apply (uniqueKeys_same st)|].
  destruct (broadcastCursor st) as [qi ci].
  destruct ((e :: q) !! _) as [[cur [|c0 cs]]|]; simpl;
    try by apply (uniqueKeys_same st).
  unfold uniqueKeys in *. simpl. rewrite Hq in Hnd. by apply filter_keys.
Qed.

(** The queue keeps the unique keys of a Map in every reachable state. *)
Lemma step_keys JSON_parse JSON_stringify i st :
  uniqueKeys st → uniqueKeys (step JSON_parse JSON_stringify i st).1.
Proof.
  intros Hnd. destruct i; simpl.
  - by apply handleIncomingChunk_keys.
  - by apply handleRelayMessage_keys.
  - unfold timerFires. destruct (masterInterval st); [by apply tick_keys|done].
  - done.
  - done.
  - by apply broadcastMessage_keys.
  - unfold relayQuery. destruct (hasInternet env);
      [done|by apply broadcastMessage_keys].
  - by apply broadcastMessage_keys.
  - done.
  - unfold onConnectivityChange. destruct online; [|done].
    assert (uniqueKeys
              (set_broadcastQueue
                 (filter (λ kv, keepOnline (masterState st) kv = true)
                    (broadcastQueue st)) st))
      by (by apply filter_keys).
    by destruct (_ && _).
Qed.

Lemma run_keys JSON_parse JSON_stringify inputs st :
  uniqueKeys st → uniqueKeys (run JSON_parse JSON_stringify inputs st).1.
Proof.
  revert st. induction inputs as [|i inputs IH]; intros st Hnd; simpl; [done|].
  pose proof (step_keys JSON_parse JSON_stringify i st Hnd) as Hs.
  destruct (step _ _ i st) as [st1 ev1].
  specialize (IH st1 Hs). by destruct (run _ _ inputs st1).
Qed.

Lemma reachable_keys JSON_parse JSON_stringify inputs :
  uniqueKeys (run JSON_parse JSON_stringify inputs initialState).1.
Proof. apply run_keys. apply NoDup_nil_2. Qed.

(** C2, as stated, fails: the full reset empties both sets, and the next
    receipt of the same query id is rebroadcast again. *)
Lemma query_rebroadcast_again_after_reset :
  let chunks := encodeMessageToChunks (stringifyId queryQ1) 9 false in
  let st1 :=
    (handleRelayMessage stringifyId offlineEnv queryQ1 initialState).1 in
  let st2 := (clearAllAndStop st1).1 in
  (handleRelayMessage stringifyId offlineEnv queryQ1 initialState).2
    = [EvEnqueue 9 chunks]
  ∧ (handleRelayMessage stringifyId offlineEnv queryQ1 st2).2
    = [EvEnqueue 9 chunks]
  ∧ broadcastQueue (handleRelayMessage stringifyId offlineEnv queryQ1 st2).1
    = [(9, chunks)].
Proof. repeat split. Qed.

(** C2 (amended): while the handler reads the device as offline, the first
    receipt of a query whose id is in neither set adds the id to the
    rebroadcast set and enqueues exactly one rebroadcast of the query: the
    query's text, encoded anew under a fresh message id, is put in the
    queue behind the entries already there (all of which stay) and the
    scheduler runs.  From then on, whatever else the provider does short of
    a full reset, a receipt of a query with that id changes nothing and
    enqueues nothing. *)
Theorem offline_query_rebroadcast_once JSON_parse JSON_stringify env m st :
  rm_type m = RELAY_QUERY →
  hasInternet env = false →
  query_id m ∉ processedRelayQueries st →
  query_id m ∉ rebroadcastedQueryIds st →
  let chunks :=
    encodeMessageToChunks (JSON_stringify m) (freshId env) false in
  let st1 := (handleRelayMessage JSON_stringify env m st).1 in
  (handleRelayMessage JSON_stringify env m st).2
    = [EvEnqueue (freshId env) chunks]
  ∧ rebroadcastedQueryIds st1 = {[query_id m]} ∪ rebroadcastedQueryIds st
  ∧ processedRelayQueries st1 = processedRelayQueries st
  ∧ broadcastQueue st1 = queueSet (freshId env) chunks (broadcastQueue st)
  ∧ (freshId env, chunks) ∈ broadcastQueue st1
  ∧ (∀ kv, kv ∈ broadcastQueue st → kv.1 ≠ freshId env →
       kv ∈ broadcastQueue st1)
  ∧ (freshId env ∉ (broadcastQueue st).*1 →
     broadcastQueue st1 = broadcastQueue st ++ [(freshId env, chunks)])
  ∧ masterInterval st1 = true
  ∧ ∀ inputs env' m',
      rm_type m' = RELAY_QUERY → query_id m' = query_id m →
      let st2 := (run JSON_parse JSON_stringify inputs st1).1 in
      handleRelayMessage JSON_stringify env' m' st2 = (st2, []).
Proof.
  intros Ht Hoff Hp Hr chunks st1.
  assert (Hrun : ∃ s0,
            handleRelayMessage JSON_stringify env m st
              = broadcastMessage (freshId env) (JSON_stringify m) s0
            ∧ rebroadcastedQueryIds s0
              = {[query_id m]} ∪ rebroadcastedQueryIds st
            ∧ processedRelayQueries s0 = processedRelayQueries st
            ∧ broadcastQueue s0 = broadcastQueue st).
  { unfold handleRelayMessage. rewrite Ht, Hoff. cbv zeta.
    rewrite decide_False by done. rewrite decide_False by done.
    eexists. split; [reflexivity|]. by destruct (truthyString _). }
  destruct Hrun as (s0 & Hrun & Hs0r & Hs0p & Hs0q).
  unfold st1, chunks. rewrite Hrun.
  destruct (broadcastMessage_spec (freshId env) (JSON_stringify m) s0)
    as (Hev & Hq & _ & _ & _ & Hproc & Hreb & _).
  destruct (broadcastMessage_queued (freshId env) (JSON_stringify m) s0)
    as (Q1 & Q2 & Q3 & Q4 & _).
  cbv zeta in Q1, Q2, Q3, Q4. rewrite Hq, Hs0q in Q1, Q2, Q3.
  rewrite Hev, Hq, Hproc, Hreb, Hs0r, Hs0p, Hs0q.
  split; [done|]. split; [done|]. split; [done|]. split; [done|].
  split; [exact Q1|]. split; [exact Q2|]. split; [exact Q3|].
  split; [exact Q4|].
  intros inputs env' m' Ht' Hid.
  apply known_query_dropped; [done|]. right. rewrite Hid.
  destruct (run_dedup JSON_parse JSON_stringify inputs
              (broadcastMessage (freshId env) (JSON_stringify m) s0).1)
    as [_ Hsub].
  apply Hsub. rewrite Hreb, Hs0r.
  by apply elem_of_union_l, elem_of_singleton.
Qed.

(** C8: when an online device's backend call for a received query fails,
    nothing of the offline relay path happens: the rebroadcast set and the
    queue are untouched and nothing is enqueued; the id stays in the
    processed set, where it was put before the call, so that a later receipt
    of the same query id is dropped. *)
Theorem backend_failure_no_relay JSON_parse JSON_stringify env m st :
  rm_type m = RELAY_QUERY →
  hasInternet env = true →
  query_id m ∉ processedRelayQueries st →
  query_id m ∉ rebroadcastedQueryIds st →
  backend env = NetworkFailure ∨ (∃ s t, backend env = HttpError s t) →
  let st1 :=
    set_processedRelayQueries
      ({[query_id m]} ∪ processedRelayQueries st) st in
  handleRelayMessage JSON_stringify env m st
    = (st1, [EvRelayFetch (query_id m)])
  ∧ rebroadcastedQueryIds st1 = rebroadcastedQueryIds st
  ∧ broadcastQueue st1 = broadcastQueue st
  ∧ query_id m ∈ processedRelayQueries st1
  ∧ ∀ inputs env' m',
      rm_type m' = RELAY_QUERY → query_id m' = query_id m →
      let st2 := (run JSON_parse JSON_stringify inputs st1).1 in
      handleRelayMessage JSON_stringify env' m' st2 = (st2, []).
Proof.
  intros Ht Hon Hp Hr Hfail st1. split; [|repeat split].
  - unfold handleRelayMessage. rewrite Ht, Hon.
    rewrite decide_False by done. rewrite decide_False by done.
    by destruct Hfail as [-> | (s & t & ->)].
  - simpl. by apply elem_of_union_l, elem_of_singleton.
  - intros inputs env' m' Ht' Hid st2.
    apply known_query_dropped; [done|]. left. rewrite Hid.
    destruct (run_dedup JSON_parse JSON_stringify inputs st1) as [Hsub _].
    apply Hsub. simpl. by apply elem_of_union_l, elem_of_singleton.
Qed.

(** C9: with connectivity [relayQuery] returns without touching anything;
    without it the query is encoded under a fresh message id, which becomes
    one of the device's own, its state is stored complete, its chunks are
    put in the queue behind the entries already there (all of which stay),
    and the scheduler runs: started with the cursor at the first entry when
    it was not running, left as it is when it was. *)
Theorem relayQuery_only_offline JSON_stringify env q t ty loc dev sosd st :
  (hasInternet env = true →
   relayQuery JSON_stringify env q t ty loc dev sosd st = (st, []))
  ∧ (hasInternet env = false →
     let text := JSON_stringify (queryMessage q t ty loc dev sosd) in
     let chunks := encodeMessageToChunks text (freshId env) false in
     let st' := (relayQuery JSON_stringify env q t ty loc dev sosd st).1 in
     (relayQuery JSON_stringify env q t ty loc dev sosd st).2
       = [EvEnqueue (freshId env) chunks]
     ∧ broadcastQueue st' = queueSet (freshId env) chunks (broadcastQueue st)
     ∧ ownMessageIds st' = {[freshId env]} ∪ ownMessageIds st
     ∧ masterState st'
       = <[freshId env := ownState (freshId env) chunks text]> (masterState st)
     ∧ (freshId env, chunks) ∈ broadcastQueue st'
     ∧ (∀ kv, kv ∈ broadcastQueue st → kv.1 ≠ freshId env →
          kv ∈ broadcastQueue st')
     ∧ (freshId env ∉ (broadcastQueue st).*1 →
        broadcastQueue st' = broadcastQueue st ++ [(freshId env, chunks)])
     ∧ masterInterval st' = true
     ∧ broadcastCursor st'
       = (if masterInterval st then broadcastCursor st else (0, 0))
     ∧ length chunks = chunkCount text).
Proof.
  unfold relayQuery. split; intros ->; [done|]. cbv zeta.
  destruct (broadcastMessage_spec (freshId env)
              (JSON_stringify (queryMessage q t ty loc dev sosd)) st)
    as (Hev & Hq & Hown & Hms & _).
  destruct (broadcastMessage_queued (freshId env)
              (JSON_stringify (queryMessage q t ty loc dev sosd)) st)
    as (Q1 & Q2 & Q3 & Q4 & Q5).
  repeat split; try done.
  unfold encodeMessageToChunks. by rewrite length_fmap, length_seq.
Qed.

Lemma keepOnline_spec m (kv : nat * list Chunk) :
  keepOnline m kv = true
  ↔ ∃ state, m !! kv.1 = Some state ∧ ms_isAck state = true.
Proof.
  unfold keepOnline. destruct (m !! kv.1) as [state|]; split.
  - intros H. by exists state.
  - by intros (s & [= <-] & H).
  - done.
  - by intros (s & Hs & _).
Qed.

(** C10: when the device comes online, the queue keeps exactly the entries
    whose stored message state has the ack flag set, in their order; all
    others go, among them a relay response just queued through
    [broadcastMessage], whose state is stored with the flag cleared; and the
    scheduler is stopped when the queue has become empty. *)
Theorem online_keeps_only_acks JSON_stringify st :
  let st' := (onConnectivityChange true st).1 in
  broadcastQueue st'
    = filter (λ kv, keepOnline (masterState st) kv = true) (broadcastQueue st)
  ∧ (∀ id chunks,
       (id, chunks) ∈ broadcastQueue st'
       ↔ (id, chunks) ∈ broadcastQueue st
         ∧ ∃ state, masterState st !! id = Some state
                    ∧ ms_isAck state = true)
  ∧ masterState st' = masterState st
  ∧ (broadcastQueue st' = [] → masterInterval st' = false)
  ∧ (broadcastQueue st' = [] → masterInterval st = true →
     (onConnectivityChange true st).2 = [EvStopBle]
     ∧ broadcastCursor st' = (0, 0))
  ∧ (broadcastQueue st' ≠ [] →
     masterInterval st' = masterInterval st
     ∧ (onConnectivityChange true st).2 = [])
  ∧ (∀ env queryId text st0,
       st = (relayResponse JSON_stringify env queryId text st0).1 →
       ∀ chunks, (freshId env, chunks) ∉ broadcastQueue st').
Proof.
  intros st'.
  assert (Hq : broadcastQueue st'
            = filter (λ kv, keepOnline (masterState st) kv = true)
                (broadcastQueue st)).
  { unfold st', onConnectivityChange. by destruct (_ && _). }
  assert (Hmem : ∀ id chunks,
            (id, chunks) ∈ broadcastQueue st'
            ↔ (id, chunks) ∈ broadcastQueue st
              ∧ ∃ state, masterState st !! id = Some state
                         ∧ ms_isAck state = true).
  { intros id chunks. rewrite Hq, list_elem_of_filter, keepOnline_spec.
    simpl. tauto. }
  assert (Hresp : ∀ env queryId text st0,
            st = (relayResponse JSON_stringify env queryId text st0).1 →
            ∀ chunks, (freshId env, chunks) ∉ broadcastQueue st').
  { intros env queryId text st0 Hst chunks Hin.
    apply Hmem in Hin as [_ (state & Hs & Hack)].
    rewrite Hst in Hs. unfold relayResponse in Hs.
    destruct (broadcastMessage_spec (freshId env)
                (JSON_stringify (responseMessage queryId text)) st0)
      as (_ & _ & _ & Hms & _).
    rewrite Hms, lookup_insert_eq in Hs. by injection Hs as <-. }
  split; [exact Hq|]. split; [exact Hmem|].
  split; [|split; [|split; [|split; [|exact Hresp]]]];
    clear Hmem Hresp; rewrite ?Hq; clear Hq;
    unfold st', onConnectivityChange; simpl;
    destruct (filter _ (broadcastQueue st)) as [|e kept];
    destruct (masterInterval st) eqn:Hi; simpl; rewrite ?Hi; done.
Qed.

(** * The response path *)

Section ChatProperties.

Variable extractResponseText : Text → Text.

Lemma find_pending_None (queryId : string) (pq : list PendingQuery) :
  (∀ p, p ∈ pq → pq_queryId p ≠ queryId) ↔
  find (λ q, bool_decide (pq_queryId q = queryId)) pq = None.
Proof.
  induction pq as [|p pq IH]; simpl.
  - split; [done|]. intros _ p Hp. by apply elem_of_nil in Hp.
  - case_bool_decide as Hp; split.
    + intros H. exfalso. apply (H p); [by left|done].
    + done.
    + intros H. apply IH. intros p' Hp'. apply H. by right.
    + intros H p' Hp'. apply elem_of_cons in Hp' as [->|Hp']; [done|].
      by apply IH.
Qed.

Lemma find_pending_Some (queryId : string) (pq : list PendingQuery) p :
  find (λ q, bool_decide (pq_queryId q = queryId)) pq = Some p →
  p ∈ pq ∧ pq_queryId p = queryId.
Proof.
  induction pq as [|p' pq IH]; simpl; [done|].
  case_bool_decide as Hp.
  - intros [= <-]. split; [by left|done].
  - intros H. destruct (IH H). split; [by right|done].
Qed.

Lemma handler_without_pending newId queryId resp cs :
  (∀ p, p ∈ pendingQueries cs → pq_queryId p ≠ queryId) →
  relayResponseHandler extractResponseText newId queryId resp cs = cs.
Proof.
  intros H. unfold relayResponseHandler.
  by rewrite (proj1 (find_pending_None queryId (pendingQueries cs)) H).
Qed.

Lemma handler_purges newId queryId resp cs p :
  p ∈ pendingQueries
        (relayResponseHandler extractResponseText newId queryId resp cs) →
  (∀ p', p' ∈ pendingQueries cs → pq_queryId p' ≠ queryId) ∨
  pq_queryId p ≠ queryId.
Proof.
  unfold relayResponseHandler.
  destruct (find _ _) as [pending|] eqn:Hf; simpl.
  - intros Hp. apply list_elem_of_filter in Hp as [Hp _]. by right.
  - intros _. left. by apply find_pending_None.
Qed.

(** C3 (amended): a response with a non-empty text invokes the registered
    callback on every receipt, whether or not a query is pending; the
    callback delivers the response to the chat only when a pending query
    with that id exists, and purges the pending entry in doing so, so that
    a later duplicate response, which invokes the callback again, delivers
    nothing and changes nothing. *)
Theorem response_delivered_once JSON_stringify env m st :
  rm_type m = RELAY_RESPONSE →
  let queryId := query_id m in
  let evs := (handleRelayMessage JSON_stringify env m st).2 in
  (∀ text, relayResponseCallback st = true →
     truthy (response m) = Some text →
     ∃ rest, evs = EvCallback queryId text :: rest
             ∧ ∀ q t, EvCallback q t ∉ rest)
  ∧ (relayResponseCallback st = false ∨ truthy (response m) = None →
     ∀ q t, EvCallback q t ∉ evs)
  ∧ ∀ newId resp cs,
      let cs' :=
        relayResponseHandler extractResponseText newId queryId resp cs in
      ((∀ p, p ∈ pendingQueries cs → pq_queryId p ≠ queryId) → cs' = cs)
      ∧ ((∃ p, p ∈ pendingQueries cs ∧ pq_queryId p = queryId) →
         (∃ pending,
            pending ∈ pendingQueries cs ∧ pq_queryId pending = queryId
            ∧ messages cs'
              = mkChatMessage newId (extractResponseText resp) 2
                  :: filter (λ msg, cm_id msg ≠ pq_messageId pending)
                       (messages cs))
         ∧ pendingQueries cs'
           = filter (λ q, pq_queryId q ≠ queryId) (pendingQueries cs)
         ∧ (∀ p, p ∈ pendingQueries cs' → pq_queryId p ≠ queryId)
         ∧ ∀ newId' resp',
             relayResponseHandler extractResponseText newId' queryId resp' cs'
             = cs').
Proof.
  intros Ht queryId evs.
  assert (Hevs : ∃ rest,
            evs = match relayResponseCallback st, truthy (response m) with
                  | true, Some text => [EvCallback queryId text]
                  | _, _ => []
                  end ++ rest
            ∧ ∀ q t, EvCallback q t ∉ rest).
  { unfold evs, handleRelayMessage. rewrite Ht. cbv zeta.
    destruct (negb (hasInternet env) && _).
    - destruct (broadcastMessage _ _ _) as [st2 ev] eqn:Hb. simpl.
      exists ev. split; [done|].
      match type of Hb with broadcastMessage ?i ?t ?s = _ =>
        destruct (broadcastMessage_spec i t s) as (Hev & _) end.
      rewrite Hb in Hev. simpl in Hev. rewrite Hev.
      intros q t Hin. by apply list_elem_of_singleton in Hin.
    - simpl. exists []. rewrite app_nil_r. split; [done|].
      intros q t Hin. by apply elem_of_nil in Hin. }
  destruct Hevs as (rest & Hevs & Hrest).
  split; [|split].
  - intros text Hcb Htext. rewrite Hcb, Htext in Hevs. by exists rest.
  - intros Hno q t Hin. rewrite Hevs in Hin.
    destruct Hno as [Hno|Hno]; rewrite Hno in Hin.
    + by apply (Hrest q t).
    + destruct (relayResponseCallback st); by apply (Hrest q t).
  - intros newId resp cs cs'. split.
    + apply handler_without_pending.
    + intros (p & Hp & Hpid).
      assert (Hpurged : ∀ p', p' ∈ pendingQueries cs' →
                pq_queryId p' ≠ queryId).
      { intros p' Hp'.
        destruct (handler_purges newId queryId resp cs p' Hp') as [Hnone|Hne];
          [|done].
        exfalso. by apply (Hnone p). }
      unfold cs', relayResponseHandler in *.
      destruct (find _ (pendingQueries cs)) as [pending|] eqn:Hf.
      * apply find_pending_Some in Hf as [Hin Hid]. simpl.
        split; [by exists pending|]. split; [done|]. split; [exact Hpurged|].
        intros newId' resp'.
        by apply (handler_without_pending newId' queryId resp'
                    (mkChatState _ _)).
      * exfalso.
        by apply (proj2 (find_pending_None queryId (pendingQueries cs)) Hf p).
Qed.

End ChatProperties.

(** C3, as stated, fails: with a callback registered and no query pending
    anywhere, a response invokes the callback, and a duplicate of it (here
    arriving under another message id, as a neighbour's rebroadcast does)
    invokes the callback again. *)
Lemma callback_invoked_without_pending :
  let st := onRelayResponse initialState in
  let m := responseMessage "q1" [52; 50]%Z in
  let env := onlineEnv NetworkFailure in
  handleRelayMessage stringifyId env m st = (st, [EvCallback "q1" [52; 50]%Z])
  ∧ (run parseAsResponseQ1 stringifyId
       [InChunk env (mkChunk 7 1 1 false [114; 0; 0; 0; 0; 0]%Z);
        InChunk env (mkChunk 8 1 1 false [114; 0; 0; 0; 0; 0]%Z)] st).2
    = [EvCallback "q1" [52; 50]%Z; EvCallback "q1" [52; 50]%Z].
Proof. split; reflexivity. Qed.

(** * The claims at concrete inputs *)

Lemma offline_query_rebroadcast_once_witness :
  let chunks := encodeMessageToChunks (stringifyId queryQ1) 9 false in
  let st1 :=
    (handleRelayMessage stringifyId offlineEnv queryQ1 twoQueued).1 in
  (handleRelayMessage stringifyId offlineEnv queryQ1 twoQueued).2
    = [EvEnqueue 9 chunks]
  ∧ rebroadcastedQueryIds st1 = {["q1"]} ∪ ∅
  ∧ broadcastQueue st1 = broadcastQueue twoQueued ++ [(9, chunks)]
  ∧ masterInterval st1 = true
  ∧ handleRelayMessage stringifyId offlineEnv queryQ1 st1 = (st1, []).
Proof.
  intros chunks st1.
  destruct (offline_query_rebroadcast_once parseNothing stringifyId
              offlineEnv queryQ1 twoQueued)
    as (H1 & H2 & _ & _ & _ & _ & H7 & H8 & H9).
  - reflexivity.
  - reflexivity.
  - apply (bool_decide_unpack _). vm_compute. exact I.
  - apply (bool_decide_unpack _). vm_compute. exact I.
  - split; [exact H1|]. split; [exact H2|]. split.
    { apply H7. apply (bool_decide_unpack _). vm_compute. exact I. }
    split; [exact H8|].
    exact (H9 [] offlineEnv queryQ1 eq_refl eq_refl).
Defined.

Lemma backend_failure_no_relay_witness :
  let st1 := set_processedRelayQueries ({["q1"]} ∪ ∅) initialState in
  handleRelayMessage stringifyId (onlineEnv NetworkFailure) queryQ1 initialState
    = (st1, [EvRelayFetch "q1"])
  ∧ rebroadcastedQueryIds st1 = ∅
  ∧ broadcastQueue st1 = []
  ∧ handleRelayMessage stringifyId offlineEnv queryQ1 st1 = (st1, []).
Proof.
  destruct (backend_failure_no_relay parseNothing stringifyId
              (onlineEnv NetworkFailure) queryQ1 initialState)
    as (H1 & H2 & H3 & _ & H5).
  - reflexivity.
  - reflexivity.
  - apply (bool_decide_unpack _). vm_compute. exact I.
  - apply (bool_decide_unpack _). vm_compute. exact I.
  - left. reflexivity.
  - split; [exact H1|]. split; [exact H2|]. split; [exact H3|].
    exact (H5 [] offlineEnv queryQ1 eq_refl eq_refl).
Defined.

Lemma relayQuery_only_offline_witness :
  let chunks := encodeMessageToChunks (stringifyId queryQ1) 9 false in
  let st' :=
    (relayQuery stringifyId offlineEnv "q1" [104; 105]%Z
       assistant None "d1" None twoQueued).1 in
  relayQuery stringifyId (onlineEnv NetworkFailure) "q1" [104; 105]%Z
    assistant None "d1" None twoQueued = (twoQueued, [])
  ∧ broadcastQueue st' = broadcastQueue twoQueued ++ [(9, chunks)]
  ∧ masterInterval st' = true.
Proof.
  intros chunks st'. split.
  - apply (proj1 (relayQuery_only_offline stringifyId
                    (onlineEnv NetworkFailure) "q1" [104; 105]%Z
                    assistant None "d1" None twoQueued)).
    reflexivity.
  - destruct (proj2 (relayQuery_only_offline stringifyId offlineEnv "q1"
                       [104; 105]%Z assistant None "d1" None twoQueued)
                eq_refl)
      as (_ & _ & _ & _ & _ & _ & H7 & H8 & _).
    split; [|exact H8].
    apply H7. apply (bool_decide_unpack _). vm_compute. exact I.
Defined.

Lemma online_keeps_only_acks_witness :
  let st := (relayResponse stringifyId offlineEnv "q1" [52; 50]%Z
               initialState).1 in
  let st' := (onConnectivityChange true st).1 in
  masterInterval st = true
  ∧ (∀ chunks, (9, chunks) ∉ broadcastQueue st')
  ∧ masterInterval st' = false
  ∧ (onConnectivityChange true st).2 = [EvStopBle].
Proof.
  intros st st'.
  destruct (online_keeps_only_acks stringifyId st)
    as (_ & _ & _ & Hoff & Hstop & _ & Hresp).
  split; [reflexivity|].
  split; [exact (Hresp offlineEnv "q1" [52; 50]%Z initialState eq_refl)|].
  split; [apply Hoff; reflexivity|].
  apply Hstop; reflexivity.
Defined.

Lemma response_delivered_once_witness :
  let m := responseMessage "q1" [52; 50]%Z in
  let st := onRelayResponse initialState in
  let cs' := relayResponseHandler (λ t, t) "m1" "q1" [52; 50]%Z chatAwaitingQ1 in
  (∃ rest,
     (handleRelayMessage stringifyId offlineEnv m st).2
       = EvCallback "q1" [52; 50]%Z :: rest
     ∧ ∀ q t, EvCallback q t ∉ rest)
  ∧ relayResponseHandler (λ t, t) "m1" "q1" [52; 50]%Z (mkChatState [] []) 
    = mkChatState [] []
  ∧ pendingQueries cs' = []
  ∧ relayResponseHandler (λ t, t) "m2" "q1" [52; 50]%Z cs' = cs'.
Proof.
  intros m st cs'.
  destruct (response_delivered_once (λ t, t) stringifyId offlineEnv m st)
    as (Hcall & _ & Hchat); [reflexivity|].
  split; [exact (Hcall [52; 50]%Z eq_refl eq_refl)|].
  split.
  - apply (proj1 (Hchat "m1" [52; 50]%Z (mkChatState [] []))).
    intros p Hp. by apply elem_of_nil in Hp.
  - destruct (proj2 (Hchat "m1" [52; 50]%Z chatAwaitingQ1))
      as (_ & Hpend & _ & Hdup).
    + exists (mkPendingQuery "q1" "m0" [104; 105]%Z).
      split; [by left|reflexivity].
    + split; [exact Hpend|]. exact (Hdup "m2" [52; 50]%Z).
Defined.

(** * Further properties of the reassembly tracker *)

Lemma BleState_eq st m r :
  m = masterState st → r = receivedMessageIds st →
  set_masterState m (set_receivedMessageIds r st) = st.
Proof. intros -> ->. by destruct st. Qed.

Lemma settled_noop JSON_parse JSON_stringify env c st :
  settled c st →
  handleIncomingChunk JSON_parse JSON_stringify env c st = (st, []).
Proof.
  unfold handleIncomingChunk, trackChunk.
  intros [Hh | [Ho | (Hr & e & Hm & Hstuck & Hrole)]].
  - by rewrite Hh.
  - destruct (isHeartbeat c); [done|]. by rewrite decide_True.
  - destruct (isHeartbeat c); [done|].
    destruct (decide _); [done|].
    rewrite Hm. simpl.
    assert (He : (if negb (ms_isAck e) && ck_isAck c
                  then resetForAck e (ck_totalChunks c) else e) = e).
    { destruct Hrole as [-> | ->]; [done | by rewrite andb_false_r]. }
    rewrite He.
    assert (Hb : ms_isComplete e
                 || bool_decide (is_Some (ms_chunks e !! ck_chunkNumber c))
                 = true).
    { destruct Hstuck as [-> | Hs]; [done|].
      rewrite (bool_decide_eq_true_2 _ Hs). apply orb_true_r. }
    rewrite Hb. f_equal. apply BleState_eq.
    + by apply insert_id.
    + apply subseteq_union_1_L. by apply singleton_subseteq_l.
Qed.

Lemma trackChunk_settled c st : settled c (trackChunk c st).1.
Proof.
  unfold settled.
  destruct (isHeartbeat c) eqn:Hh; [by left|].
  destruct (decide (ck_id c ∈ ownMessageIds st)) as [Ho|Ho].
  { right. left. unfold trackChunk. rewrite Hh. by rewrite decide_True. }
  right. right.
  rewrite (trackChunk_accepted c st Hh Ho). cbv zeta.
  set (entry := entryFor c (masterState st !! ck_id c)).
  assert (Hrole : ms_isAck entry = true ∨ ck_isAck c = false).
  { unfold entry, entryFor, newEntry.
    destruct (masterState st !! ck_id c) as [e|]; simpl.
    - destruct (ms_isAck e) eqn:He; simpl; [by left|].
      destruct (ck_isAck c); [by left|by right].
    - destruct (ck_isAck c); [by left|by right]. }
  assert (Hin : ck_id c ∈ ({[ck_id c]} ∪ receivedMessageIds st : gset nat))
    by (by apply elem_of_union_l, elem_of_singleton).
  destruct (ms_isComplete entry
            || bool_decide (is_Some (ms_chunks entry !! ck_chunkNumber c)))
    eqn:Hb.
  - simpl. split; [done|]. exists entry. rewrite lookup_insert_eq.
    split; [done|]. split; [|done].
    apply orb_true_iff in Hb as [Hb|Hb]; [by left|right].
    by apply bool_decide_eq_true in Hb.
  - assert (Hst : is_Some (ms_chunks (storeChunk c entry) !! ck_chunkNumber c)).
    { simpl. rewrite lookup_insert_eq. by eexists. }
    destruct (decide _).
    + destruct (reassemble _); simpl; (split; [done|]);
        eexists; rewrite lookup_insert_eq; (split; [done|]);
        (split; [by left|done]).
    + simpl. split; [done|]. eexists. rewrite lookup_insert_eq.
      split; [done|]. split; [by right|done].
Qed.

Lemma broadcastMessage_settled c newId message st :
  settled c st → settled c (broadcastMessage newId message st).1.
Proof.
  destruct (broadcastMessage_spec newId message st)
    as (_ & _ & Hown & Hms & _ & _ & _ & _ & _ & Hrec).
  unfold settled. rewrite Hown, Hms, Hrec.
  intros [Hh | [Ho | (Hr & e & Hm & Hrest)]]; [by left| |].
  - right. left. by apply elem_of_union_r.
  - destruct (decide (newId = ck_id c)) as [->|Hne].
    + right. left. by apply elem_of_union_l, elem_of_singleton.
    + right. right. split; [done|]. exists e.
      by rewrite lookup_insert_ne.
Qed.

Lemma handleRelayMessage_settled JSON_stringify c env m st :
  settled c st → settled c (handleRelayMessage JSON_stringify env m st).1.
Proof.
  intros Hs. unfold handleRelayMessage.
  destruct (rm_type m).
  - destruct (decide _); [done|]. destruct (decide _); [done|].
    destruct (hasInternet env).
    + destruct (backend env) as [| |success result]; try done.
      destruct (if success then truthy result else None); [|done].
      unfold relayResponse.
      destruct (broadcastMessage _ _ _) as [st2 ev] eqn:Hb. simpl.
      change st2 with (st2, ev).1. rewrite <- Hb.
      by apply broadcastMessage_settled.
    + apply broadcastMessage_settled. by destruct (truthyString _).
  - destruct (negb _ && negb _); [|done].
    destruct (broadcastMessage _ _ _) as [st2 ev] eqn:Hb. simpl.
    change st2 with (st2, ev).1. rewrite <- Hb.
    by apply broadcastMessage_settled.
Qed.

Lemma dispatchComplete_settled JSON_parse JSON_stringify c env done st :
  settled c st →
  settled c (dispatchComplete JSON_parse JSON_stringify env done st).1.
Proof.
  intros Hs. unfold dispatchComplete.
  destruct (done_isAck done); [done|].
  destruct (hasInternet env).
  - unfold handleApiResponse. destruct (JSON_parse _); try done.
    + by apply handleRelayMessage_settled.
    + destruct (incidentStore env) as [| |t]; [done..|].
      unfold addToBroadcastQueue. simpl.
      destruct Hs as [Hh | [Ho | (Hr & e & Hm & Hrest)]];
        [by left| right; left; by destruct (masterInterval st) |].
      right. right.
      destruct (decide (done_id done = ck_id c)) as [Heq|Hne].
      * destruct (masterInterval st); simpl; (split; [done|]);
          eexists; rewrite Heq, lookup_insert_eq; (split; [done|]);
          (split; by left).
      * destruct (masterInterval st); simpl; (split; [done|]);
          exists e; by rewrite lookup_insert_ne.
  - destruct (JSON_parse _); try done. by apply handleRelayMessage_settled.
Qed.

(** X2: completion is decided by the number of fragments held, not by which
    ones: a lone fragment that declares a total of 1 but is not fragment 1,
    or whose payload overruns the 6 bytes allotted to it, marks the entry
    complete with an empty text and hands nothing on (the reassembly
    throws); every later fragment of that message in the same role is then
    dropped. *)
Theorem unreassemblable_fragment_blocks_id
    JSON_parse JSON_stringify env env' c c' st :
  isHeartbeat c = false →
  ck_id c ∉ ownMessageIds st →
  masterState st !! ck_id c = None →
  ck_totalChunks c = 1 →
  ck_chunkNumber c ≠ 1 ∨ DATA_PER_CHUNK < length (ck_data c) →
  ck_id c' = ck_id c →
  ck_isAck c' = ck_isAck c →
  let st1 := (handleIncomingChunk JSON_parse JSON_stringify env c st).1 in
  (handleIncomingChunk JSON_parse JSON_stringify env c st).2 = []
  ∧ masterState st1 !! ck_id c
    = Some (mkMessageState (ck_id c) 1 true (ck_isAck c)
              {[ck_chunkNumber c := c]} [])
  ∧ masterState (handleIncomingChunk JSON_parse JSON_stringify env' c' st1).1
    = masterState st1
  ∧ (handleIncomingChunk JSON_parse JSON_stringify env' c' st1).2 = [].
Proof.
  intros Hh Ho Hm Ht Hbad Hid Hack st1.
  assert (Hrun : handleIncomingChunk JSON_parse JSON_stringify env c st
            = (set_masterState
                 (<[ck_id c := mkMessageState (ck_id c) 1 true (ck_isAck c)
                                 {[ck_chunkNumber c := c]} []]>
                    (masterState st))
                 (set_receivedMessageIds
                    ({[ck_id c]} ∪ receivedMessageIds st) st), [])).
  { unfold handleIncomingChunk.
    rewrite (trackChunk_accepted c st Hh Ho). cbv zeta.
    rewrite Hm. unfold entryFor, newEntry, reassemble. simpl.
    rewrite lookup_empty, insert_empty, map_size_singleton, Ht.
    case_bool_decide as Hs; [by apply is_Some_None in Hs|]. simpl.
    destruct (decide (ck_chunkNumber c = 1)) as [Hn|Hn].
    - destruct Hbad as [Hbad|Hbad]; [done|].
      rewrite Hn, lookup_singleton_eq, app_nil_r.
      destruct (decide (length (ck_data c) ≤ 6)) as [Hl|Hl].
      { unfold DATA_PER_CHUNK in Hbad. lia. }
      unfold markComplete, storeChunk. simpl. by rewrite Hn.
    - by rewrite lookup_singleton_ne. }
  unfold st1. rewrite Hrun. simpl.
  split; [done|]. split; [apply lookup_insert_eq|].
  pose proof (trackChunk_complete_noop c'
    (set_masterState
       (<[ck_id c := mkMessageState (ck_id c) 1 true (ck_isAck c)
                       {[ck_chunkNumber c := c]} []]> (masterState st))
       (set_receivedMessageIds ({[ck_id c]} ∪ receivedMessageIds st) st))
    (mkMessageState (ck_id c) 1 true (ck_isAck c)
       {[ck_chunkNumber c := c]} [])) as Hnoop.
  destruct Hnoop as [H1 H2].
  - simpl. rewrite Hid. apply lookup_insert_eq.
  - done.
  - simpl. rewrite Hack. destruct (ck_isAck c); [by left|by right].
  - unfold handleIncomingChunk.
    destruct (trackChunk c' _) as [st2 [d|]]; simpl in *; [done|].
    by split.
Qed.

Lemma unreassemblable_fragment_blocks_id_witness :
  let c := mkChunk 7 1 2 false [104; 105; 0; 0; 0; 0]%Z in
  let c' := mkChunk 7 1 1 false [104; 105; 0; 0; 0; 0]%Z in
  let st1 :=
    (handleIncomingChunk parseNothing stringifyId offlineEnv c initialState).1 in
  (handleIncomingChunk parseNothing stringifyId offlineEnv c initialState).2 = []
  ∧ masterState st1 !! 7
    = Some (mkMessageState 7 1 true false {[2 := c]} [])
  ∧ masterState
      (handleIncomingChunk parseNothing stringifyId offlineEnv c' st1).1
    = masterState st1
  ∧ (handleIncomingChunk parseNothing stringifyId offlineEnv c' st1).2 = [].
Proof.
  intros c c' st1.
  apply (unreassemblable_fragment_blocks_id parseNothing stringifyId
           offlineEnv offlineEnv c c' initialState).
  - reflexivity.
  - apply (bool_decide_unpack _). vm_compute. exact I.
  - reflexivity.
  - reflexivity.
  - left. discriminate.
  - reflexivity.
  - reflexivity.
Defined.

Lemma zero_total_step JSON_parse JSON_stringify env c st e :
  masterState st !! ck_id c = Some e →
  ms_totalChunks e = 0 → ms_isComplete e = false →
  ms_chunks e ≠ ∅ →
  ck_isAck c = ms_isAck e →
  ∃ e',
    masterState (handleIncomingChunk JSON_parse JSON_stringify env c st).1
      !! ck_id c = Some e'
    ∧ ms_totalChunks e' = 0 ∧ ms_isComplete e' = false
    ∧ ms_chunks e' ≠ ∅ ∧ ms_isAck e' = ms_isAck e
    ∧ (handleIncomingChunk JSON_parse JSON_stringify env c st).2 = [].
Proof.
  intros Hm Ht Hc Hne Ha. unfold handleIncomingChunk, trackChunk.
  destruct (isHeartbeat c); [by exists e|].
  destruct (decide _); [by exists e|].
  rewrite Hm. simpl. rewrite Ha.
  replace (negb (ms_isAck e) && ms_isAck e) with false
    by (by destruct (ms_isAck e)).
  rewrite Hc. simpl.
  case_bool_decide as Hs.
  { simpl. exists e. by rewrite lookup_insert_eq. }
  destruct (decide _) as [Hsz|Hsz].
  { exfalso. simpl in Hsz. rewrite Ht in Hsz.
    apply map_size_empty_iff in Hsz.
    by apply insert_non_empty in Hsz. }
  simpl. eexists. rewrite lookup_insert_eq. split; [done|].
  simpl. repeat split; try done. apply insert_non_empty.
Qed.

Lemma zero_total_deliver JSON_parse JSON_stringify id frames st e :
  masterState st !! id = Some e →
  ms_totalChunks e = 0 → ms_isComplete e = false →
  ms_chunks e ≠ ∅ →
  Forall (λ f : Env * Chunk, ck_id f.2 = id ∧ ck_isAck f.2 = ms_isAck e)
    frames →
  ∃ e',
    masterState (deliver JSON_parse JSON_stringify frames st).1 !! id
      = Some e'
    ∧ ms_isComplete e' = false
    ∧ (deliver JSON_parse JSON_stringify frames st).2 = [].
Proof.
  revert st e. induction frames as [|[env c] frames IH];
    intros st e Hm Ht Hc Hne Hall.
  - exists e. by simpl.
  - apply Forall_cons in Hall as [[Hid Hack] Hall]. simpl in Hid, Hack.
    subst id.
    destruct (zero_total_step JSON_parse JSON_stringify env c st e
                Hm Ht Hc Hne Hack) as (e1 & Hm1 & Ht1 & Hc1 & Hne1 & Ha1 & Hev).
    cbn [deliver].
    destruct (handleIncomingChunk _ _ env c st) as [st1 ev1]. simpl in *.
    rewrite <- Ha1 in Hall.
    destruct (IH st1 e1 Hm1 Ht1 Hc1 Hne1 Hall) as (e2 & Hm2 & Hc2 & Hev2).
    destruct (deliver _ _ frames st1) as [st2 ev2]. simpl in *.
    exists e2. by rewrite Hev, Hev2.
Qed.

(** X3: a fragment that declares a total of 0 opens an entry that never
    completes: however many fragments of that message follow in the same
    role, nothing is handed on and the entry stays incomplete. *)
Theorem zero_total_never_completes JSON_parse JSON_stringify env c frames st :
  isHeartbeat c = false →
  ck_id c ∉ ownMessageIds st →
  masterState st !! ck_id c = None →
  ck_totalChunks c = 0 →
  Forall (λ f : Env * Chunk, ck_id f.2 = ck_id c ∧ ck_isAck f.2 = ck_isAck c)
    frames →
  ∃ e,
    masterState
      (deliver JSON_parse JSON_stringify ((env, c) :: frames) st).1
      !! ck_id c = Some e
    ∧ ms_isComplete e = false
    ∧ (deliver JSON_parse JSON_stringify ((env, c) :: frames) st).2 = [].
Proof.
  intros Hh Ho Hm Ht Hall.
  assert (Hrun : handleIncomingChunk JSON_parse JSON_stringify env c st
            = (set_masterState
                 (<[ck_id c := mkMessageState (ck_id c) 0 false (ck_isAck c)
                                 {[ck_chunkNumber c := c]} []]>
                    (masterState st))
                 (set_receivedMessageIds
                    ({[ck_id c]} ∪ receivedMessageIds st) st), [])).
  { unfold handleIncomingChunk.
    rewrite (trackChunk_accepted c st Hh Ho). cbv zeta.
    rewrite Hm. unfold entryFor, newEntry. simpl.
    rewrite lookup_empty, insert_empty, map_size_singleton, Ht.
    case_bool_decide as Hs; [by apply is_Some_None in Hs|]. simpl.
    by destruct (decide (1 = 0)). }
  cbn [deliver]. rewrite Hrun.
  set (st1 := set_masterState _ _).
  destruct (zero_total_deliver JSON_parse JSON_stringify (ck_id c) frames st1
              (mkMessageState (ck_id c) 0 false (ck_isAck c)
                 {[ck_chunkNumber c := c]} []))
    as (e & Hm' & Hc' & Hev').
  { apply lookup_insert_eq. }
  { done. }
  { done. }
  { apply insert_non_empty. }
  { exact Hall. }
  destruct (deliver _ _ frames st1) as [st2 ev2]. simpl in *.
  exists e. by rewrite Hev'.
Qed.

Lemma zero_total_never_completes_witness :
  let c k := mkChunk 7 0 k false [104; 105; 0; 0; 0; 0]%Z in
  ∃ e,
    masterState
      (deliver parseNothing stringifyId
         [(offlineEnv, c 1); (offlineEnv, c 2); (offlineEnv, c 1)]
         initialState).1 !! 7 = Some e
    ∧ ms_isComplete e = false
    ∧ (deliver parseNothing stringifyId
         [(offlineEnv, c 1); (offlineEnv, c 2); (offlineEnv, c 1)]
         initialState).2 = [].
Proof.
  intros c.
  apply (zero_total_never_completes parseNothing stringifyId offlineEnv
           (c 1) [(offlineEnv, c 2); (offlineEnv, c 1)] initialState).
  - reflexivity.
  - apply (bool_decide_unpack _). vm_compute. exact I.
  - reflexivity.
  - reflexivity.
  - repeat constructor.
Defined.

(** * Own message ids *)

Lemma broadcastMessage_own newId message st :
  ownMessageIds st ⊆ ownMessageIds (broadcastMessage newId message st).1.
Proof.
  destruct (broadcastMessage_spec newId message st) as (_ & _ & -> & _).
  apply union_subseteq_r.
Qed.

Lemma handleRelayMessage_own JSON_stringify env m st :
  ownMessageIds st
    ⊆ ownMessageIds (handleRelayMessage JSON_stringify env m st).1.
Proof.
  unfold handleRelayMessage.
  destruct (rm_type m).
  - destruct (decide _); [done|]. destruct (decide _); [done|].
    destruct (hasInternet env).
    + destruct (backend env) as [| |success result]; try done.
      destruct (if success then truthy result else None); [|done].
      unfold relayResponse.
      destruct (broadcastMessage _ _ _) as [st2 ev] eqn:Hb. simpl.
      change st2 with (st2, ev).1. rewrite <- Hb.
      etrans; [|apply broadcastMessage_own]. done.
    + etrans; [|apply broadcastMessage_own]. by destruct (truthyString _).
  - destruct (negb _ && negb _); [|done].
    destruct (broadcastMessage _ _ _) as [st2 ev] eqn:Hb. simpl.
    change st2 with (st2, ev).1. rewrite <- Hb.
    etrans; [|apply broadcastMessage_own]. done.
Qed.

Lemma trackChunk_own c st :
  ownMessageIds (trackChunk c st).1 = ownMessageIds st.
Proof. unfold trackChunk. repeat (case_match; simpl; try done). Qed.

Lemma handleIncomingChunk_own JSON_parse JSON_stringify env c st :
  ownMessageIds st
    ⊆ ownMessageIds (handleIncomingChunk JSON_parse JSON_stringify env c st).1.
Proof.
  unfold handleIncomingChunk.
  pose proof (trackChunk_own c st) as Ht.
  destruct (trackChunk c st) as [st1 [done|]]; simpl in Ht;
    [|simpl; by rewrite Ht].
  rewrite <- Ht. unfold dispatchComplete.
  destruct (done_isAck done); [done|].
  destruct (hasInternet env).
  - unfold handleApiResponse. destruct (JSON_parse _); try done.
    + apply handleRelayMessage_own.
    + destruct (incidentStore env); [done..|].
      unfold addToBroadcastQueue. simpl. by destruct (masterInterval st1).
  - destruct (JSON_parse _); try done. apply handleRelayMessage_own.
Qed.

Lemma tick_own st : ownMessageIds (tick st).1 = ownMessageIds st.
Proof. unfold tick. repeat (case_match; simpl; try done). Qed.

Lemma step_own JSON_parse JSON_stringify i st :
  ownMessageIds st ⊆ ownMessageIds (step JSON_parse JSON_stringify i st).1.
Proof.
  destruct i; simpl; try done.
  - apply handleIncomingChunk_own.
  - apply handleRelayMessage_own.
  - unfold timerFires. destruct (masterInterval st); [|done].
    by rewrite tick_own.
  - apply broadcastMessage_own.
  - unfold relayQuery. destruct (hasInternet env);
      [done|apply broadcastMessage_own].
  - apply broadcastMessage_own.
  - unfold onConnectivityChange. destruct online; [|done].
    by destruct (_ && _).
Qed.

Lemma run_own JSON_parse JSON_stringify inputs st :
  ownMessageIds st ⊆ ownMessageIds (run JSON_parse JSON_stringify inputs st).1.
Proof.
  revert st. induction inputs as [|i inputs IH]; intros st; simpl; [done|].
  pose proof (step_own JSON_parse JSON_stringify i st) as Hs.
  destruct (step _ _ i st) as [st1 ev1].
  specialize (IH st1). destruct (run _ _ inputs st1) as [st2 ev2].
  simpl in *. by etrans.
Qed.

(** * Further properties of the relay layer *)

Lemma broadcastMessage_events newId message st :
  (broadcastMessage newId message st).2
  = [EvEnqueue newId (encodeMessageToChunks message newId false)].
Proof. by destruct (broadcastMessage_spec newId message st) as (-> & _). Qed.

(** A response whose key is already in the rebroadcast set is delivered but
    not sent on. *)
Lemma known_response_not_rebroadcast JSON_stringify env m st :
  rm_type m = RELAY_RESPONSE →
  responseKey (query_id m) ∈ rebroadcastedQueryIds st →
  (handleRelayMessage JSON_stringify env m st).1 = st
  ∧ Forall (λ ev, ¬ isEnqueue ev) (handleRelayMessage JSON_stringify env m st).2.
Proof.
  intros Ht Hin. unfold handleRelayMessage. rewrite Ht.
  rewrite (bool_decide_eq_true_2 _ Hin). simpl. rewrite andb_false_r.
  split; [done|].
  destruct (relayResponseCallback st); [|constructor].
  destruct (truthy (response m)); repeat constructor. by intros [].
Qed.

(** X6: the rebroadcast set holds query ids and response keys side by side:
    an offline receipt of a query whose id is [response-<q>] uses up the one
    rebroadcast of the response to query [q]. *)
Theorem query_id_can_mask_response
    JSON_parse JSON_stringify env env' mq mr inputs st :
  rm_type mq = RELAY_QUERY →
  hasInternet env = false →
  query_id mq ∉ processedRelayQueries st →
  query_id mq ∉ rebroadcastedQueryIds st →
  rm_type mr = RELAY_RESPONSE →
  query_id mq = responseKey (query_id mr) →
  let st1 := (handleRelayMessage JSON_stringify env mq st).1 in
  let st2 := (run JSON_parse JSON_stringify inputs st1).1 in
  (handleRelayMessage JSON_stringify env' mr st2).1 = st2
  ∧ Forall (λ ev, ¬ isEnqueue ev)
      (handleRelayMessage JSON_stringify env' mr st2).2.
Proof.
  intros Htq Hoff Hp Hr Htr Hid st1 st2.
  apply known_response_not_rebroadcast; [done|]. rewrite <- Hid.
  destruct (run_dedup JSON_parse JSON_stringify inputs st1) as [_ Hsub].
  apply Hsub. unfold st1, handleRelayMessage. rewrite Htq, Hoff. cbv zeta.
  rewrite decide_False by done. rewrite decide_False by done.
  match goal with |- context [broadcastMessage ?i ?t ?s] =>
    destruct (broadcastMessage_spec i t s)
      as (_ & _ & _ & _ & _ & _ & -> & _)
  end.
  destruct (truthyString _); simpl;
    by apply elem_of_union_l, elem_of_singleton.
Qed.

Lemma query_id_can_mask_response_witness :
  let mq := queryMessage "response-q1" [104; 105]%Z assistant None "d1" None in
  let mr := responseMessage "q1" [52; 50]%Z in
  let st1 := (handleRelayMessage stringifyId offlineEnv mq initialState).1 in
  (handleRelayMessage stringifyId offlineEnv mr st1).1 = st1
  ∧ Forall (λ ev, ¬ isEnqueue ev)
      (handleRelayMessage stringifyId offlineEnv mr st1).2.
Proof.
  intros mq mr st1.
  apply (query_id_can_mask_response parseNothing stringifyId offlineEnv
           offlineEnv mq mr [] initialState).
  - reflexivity.
  - reflexivity.
  - apply (bool_decide_unpack _). vm_compute. exact I.
  - apply (bool_decide_unpack _). vm_compute. exact I.
  - reflexivity.
  - reflexivity.
Defined.

(** ** What connectivity rules out *)

Ltac plain_events :=
  repeat first [ apply List.Forall_nil
               | apply List.Forall_cons; [by intros []|] ].

Lemma tick_plain st :
  Forall (λ ev, ¬ isFetch ev) (tick st).2
  ∧ processedRelayQueries (tick st).1 = processedRelayQueries st.
Proof.
  unfold tick.
  destruct (broadcastQueue st) as [|e q]; [split; [plain_events|done]|].
  destruct (broadcastCursor st) as [qi ci].
  destruct ((e :: q) !! _) as [[cur [|c0 cs]]|]; simpl;
    try (split; [plain_events|done]).
  destruct (_ !! _); plain_events.
Qed.

Lemma handleRelayMessage_offline JSON_stringify env m st :
  hasInternet env = false →
  Forall (λ ev, ¬ isFetch ev) (handleRelayMessage JSON_stringify env m st).2
  ∧ processedRelayQueries (handleRelayMessage JSON_stringify env m st).1
    = processedRelayQueries st.
Proof.
  intros Hoff. unfold handleRelayMessage. rewrite Hoff. cbv zeta.
  destruct (rm_type m).
  - destruct (decide _); [by split|]. destruct (decide _); [by split|].
    match goal with |- context [broadcastMessage ?i ?t ?s] =>
      destruct (broadcastMessage_spec i t s)
        as (-> & _ & _ & _ & _ & -> & _)
    end.
    split; [plain_events|].
    by destruct (truthyString _).
  - destruct (negb false && _).
    + destruct (broadcastMessage _ _ _) as [st2 ev] eqn:Hb. simpl.
      match type of Hb with broadcastMessage ?i ?t ?s = _ =>
        destruct (broadcastMessage_spec i t s)
          as (Hev & _ & _ & _ & _ & Hp & _)
      end.
      rewrite Hb in Hev, Hp. simpl in Hev, Hp. rewrite Hev, Hp.
      split; [|done].
      destruct (relayResponseCallback st); [|plain_events].
      destruct (truthy (response m)); plain_events.
    + split; [|done].
      destruct (relayResponseCallback st); [|plain_events].
      destruct (truthy (response m)); plain_events.
Qed.

Lemma step_offline JSON_parse JSON_stringify i st :
  offlineInput i →
  Forall (λ ev, ¬ isFetch ev) (step JSON_parse JSON_stringify i st).2
  ∧ processedRelayQueries (step JSON_parse JSON_stringify i st).1
    = processedRelayQueries st.
Proof.
  destruct i; unfold offlineInput, inputEnv; cbn [step]; intros Hoff.
  - unfold handleIncomingChunk.
    assert (Ht : processedRelayQueries (trackChunk c st).1
                 = processedRelayQueries st)
      by (unfold trackChunk; repeat (case_match; simpl; try done)).
    destruct (trackChunk c st) as [st1 [d|]]; simpl in Ht; [|by split].
    rewrite <- Ht. unfold dispatchComplete. rewrite Hoff.
    destruct (done_isAck d); [by split|].
    destruct (JSON_parse _); try by split.
    by apply handleRelayMessage_offline.
  - by apply handleRelayMessage_offline.
  - unfold timerFires. destruct (masterInterval st); [|by split].
    apply tick_plain.
  - by split.
  - split; [plain_events|done].
  - destruct (broadcastMessage_spec newId message st)
      as (-> & _ & _ & _ & _ & -> & _).
    split; [plain_events|done].
  - unfold relayQuery. rewrite Hoff.
    match goal with |- context [broadcastMessage ?i ?t ?s] =>
      destruct (broadcastMessage_spec i t s)
        as (-> & _ & _ & _ & _ & -> & _)
    end.
    split; [plain_events|done].
  - unfold relayResponse.
    match goal with |- context [broadcastMessage ?i ?t ?s] =>
      destruct (broadcastMessage_spec i t s)
        as (-> & _ & _ & _ & _ & -> & _)
    end.
    split; [plain_events|done].
  - by split.
  - unfold onConnectivityChange. destruct online; [|by split].
    destruct (_ && _); simpl; (split; [plain_events|done]).
Qed.

Lemma handleRelayMessage_online JSON_stringify env m st :
  hasInternet env = true →
  rebroadcastedQueryIds (handleRelayMessage JSON_stringify env m st).1
    = rebroadcastedQueryIds st
  ∧ querySenderMap (handleRelayMessage JSON_stringify env m st).1
    = querySenderMap st.
Proof.
  intros Hon. unfold handleRelayMessage. rewrite Hon. cbv zeta.
  destruct (rm_type m); [|by split].
  destruct (decide _); [by split|]. destruct (decide _); [by split|].
  destruct (backend env) as [| |success result]; try by split.
  destruct (if success then truthy result else None); [|by split].
  unfold relayResponse.
  destruct (broadcastMessage _ _ _) as [st2 ev] eqn:Hb. simpl.
  match type of Hb with broadcastMessage ?i ?t ?s = _ =>
    destruct (broadcastMessage_spec i t s)
      as (_ & _ & _ & _ & _ & _ & Hr & Hs & _)
  end.
  rewrite Hb in Hr, Hs. simpl in Hr, Hs. by rewrite Hr, Hs.
Qed.

Lemma step_online JSON_parse JSON_stringify i st :
  onlineInput i →
  rebroadcastedQueryIds (step JSON_parse JSON_stringify i st).1
    = rebroadcastedQueryIds st
  ∧ querySenderMap (step JSON_parse JSON_stringify i st).1
    = querySenderMap st.
Proof.
  destruct i; unfold onlineInput, inputEnv; cbn [step]; intros Hon.
  - unfold handleIncomingChunk.
    assert (Ht : rebroadcastedQueryIds (trackChunk c st).1
                   = rebroadcastedQueryIds st
                 ∧ querySenderMap (trackChunk c st).1 = querySenderMap st)
      by (unfold trackChunk; repeat (case_match; simpl; try done)).
    destruct (trackChunk c st) as [st1 [d|]]; simpl in Ht; [|done].
    destruct Ht as [<- <-]. unfold dispatchComplete. rewrite Hon.
    destruct (done_isAck d); [done|].
    unfold handleApiResponse. destruct (JSON_parse _); try done.
    + by apply handleRelayMessage_online.
    + destruct (incidentStore env); [done..|].
      unfold addToBroadcastQueue. simpl. by destruct (masterInterval st1).
  - by apply handleRelayMessage_online.
  - unfold timerFires. destruct (masterInterval st); [|done].
    unfold tick. repeat (case_match; simpl; try done).
  - done.
  - done.
  - by destruct (broadcastMessage_spec newId message st)
      as (_ & _ & _ & _ & _ & _ & -> & -> & _).
  - unfold relayQuery. by rewrite Hon.
  - unfold relayResponse.
    match goal with |- context [broadcastMessage ?i ?t ?s] =>
      by destruct (broadcastMessage_spec i t s)
        as (_ & _ & _ & _ & _ & _ & -> & -> & _)
    end.
  - done.
  - unfold onConnectivityChange. destruct online; [|done].
    by destruct (_ && _).
Qed.

(** ** The gateway's incident path *)

Lemma online_queue_elem st (kv : nat * list Chunk) :
  kv ∈ broadcastQueue (onConnectivityChange true st).1
  ↔ kv ∈ broadcastQueue st
    ∧ ∃ state, masterState st !! kv.1 = Some state ∧ ms_isAck state = true.
Proof.
  assert (Hq : broadcastQueue (onConnectivityChange true st).1
            = filter (λ kv, keepOnline (masterState st) kv = true)
                (broadcastQueue st)).
  { unfold onConnectivityChange. by destruct (_ && _). }
  rewrite Hq, list_elem_of_filter, keepOnline_spec. tauto.
Qed.

(** What the listener does with a frame, in terms of the handler. *)
Lemma onFrame_listening JSON_parse JSON_stringify deviceId now env c d captured :
  dev_listener d = Some captured →
  onFrame JSON_parse JSON_stringify deviceId now env c d
  = (mkDevice
       (handleIncomingChunk JSON_parse JSON_stringify
          (listenerEnv captured env) c (dev_ble d)).1
       (noteHeartbeat deviceId now c (dev_peers d)) (Some captured),
     (handleIncomingChunk JSON_parse JSON_stringify
        (listenerEnv captured env) c (dev_ble d)).2).
Proof.
  intros Hl. unfold onFrame. rewrite Hl.
  by destruct (handleIncomingChunk _ _ _ c (dev_ble d)).
Qed.

(** X10: the frame that completes a message which is no acknowledgement and
    whose text parses as an incident report, on reaching a listener that
    was registered from an online render (whatever the device's
    connectivity when the frame arrives): if building the request to the
    store endpoint throws, no request is made and nothing else changes; if
    the request is made and rejects, nothing is queued; if it returns, the
    entry of the report's message id becomes a completed acknowledgement
    holding the response text, its chunks are queued under that same id,
    the scheduler runs, and the acknowledgement stays queued through the
    online clean-up.  A listener registered from an offline render ignores
    the report. *)
Theorem gateway_acknowledges_incident
    JSON_parse JSON_stringify deviceId now env c d captured st1 id message
    incident :
  dev_listener d = Some captured →
  trackChunk c (dev_ble d) = (st1, Some (mkCompletion id false message)) →
  JSON_parse message = IncidentReport incident →
  let r := onFrame JSON_parse JSON_stringify deviceId now env c d in
  (captured = false → r.2 = [] ∧ dev_ble r.1 = st1)
  ∧ (captured = true →
     (incidentStore env = StoreBodyThrows → r.2 = [] ∧ dev_ble r.1 = st1)
     ∧ (incidentStore env = StoreFetchRejects →
        r.2 = [EvStoreFetch incident] ∧ dev_ble r.1 = st1)
     ∧ (∀ apiResponse, incidentStore env = StoreReturns apiResponse →
        let ackChunks := encodeMessageToChunks apiResponse id true in
        r.2 = [EvStoreFetch incident; EvEnqueue id ackChunks]
        ∧ masterState (dev_ble r.1) !! id
          = Some (ackState id ackChunks apiResponse)
        ∧ masterInterval (dev_ble r.1) = true
        ∧ (id, ackChunks) ∈ broadcastQueue (dev_ble r.1)
        ∧ (id, ackChunks)
            ∈ broadcastQueue (onConnectivityChange true (dev_ble r.1)).1)).
Proof.
  intros Hl Ht Hp r. unfold r.
  rewrite (onFrame_listening _ _ _ _ _ _ _ _ Hl). cbn [fst snd dev_ble].
  unfold handleIncomingChunk. rewrite Ht.
  unfold dispatchComplete, handleApiResponse.
  cbn [done_isAck done_id done_message hasInternet listenerEnv incidentStore].
  rewrite Hp. split; [by intros ->|]. intros ->.
  split; [by intros ->|]. split; [by intros ->|].
  intros apiResponse ->. cbv zeta.
  set (ackChunks := encodeMessageToChunks apiResponse id true).
  set (s1 := set_masterState _ st1).
  assert (Hadd : (addToBroadcastQueue id ackChunks s1).2
                   = [EvEnqueue id ackChunks]
                 ∧ masterState (addToBroadcastQueue id ackChunks s1).1 !! id
                   = Some (ackState id ackChunks apiResponse)
                 ∧ masterInterval (addToBroadcastQueue id ackChunks s1).1
                   = true
                 ∧ (id, ackChunks)
                     ∈ broadcastQueue (addToBroadcastQueue id ackChunks s1).1).
  { unfold addToBroadcastQueue. simpl.
    destruct (masterInterval st1) eqn:Hi; simpl; rewrite ?Hi;
      (split; [done|]); (split; [apply lookup_insert_eq|]);
      (split; [done|]); apply queueSet_elem. }
  destruct (addToBroadcastQueue id ackChunks s1) as [s2 ev].
  cbn [fst snd] in *. destruct Hadd as (-> & Hm & Hi & Hin).
  split; [done|]. split; [done|]. split; [done|]. split; [done|].
  apply online_queue_elem. split; [done|]. eexists. split; [exact Hm|done].
Qed.

Lemma gateway_acknowledges_incident_witness :
  let c := mkChunk 7 1 1 false [123; 125; 0; 0; 0; 0]%Z in
  let env := mkEnv false 9 NetworkFailure (StoreReturns [111; 107]%Z) in
  let r := onFrame parseAsIncident stringifyId [100]%Z 0%Z env c
             (mountDevice true) in
  r.2 = [EvStoreFetch [123; 125]%Z;
         EvEnqueue 7 (encodeMessageToChunks [111; 107]%Z 7 true)]
  ∧ (7, encodeMessageToChunks [111; 107]%Z 7 true)
      ∈ broadcastQueue (onConnectivityChange true (dev_ble r.1)).1.
Proof.
  intros c env r.
  destruct (gateway_acknowledges_incident parseAsIncident stringifyId
              [100]%Z 0%Z env c (mountDevice true) true
              (trackChunk c initialState).1 7 [123; 125]%Z [123; 125]%Z
              eq_refl eq_refl eq_refl) as [_ H].
  destruct (H eq_refl) as (_ & _ & H3).
  destruct (H3 [111; 107]%Z eq_refl) as (H1 & _ & _ & _ & H5).
  split; [exact H1|exact H5].
Defined.


(** * Further properties of the scheduler *)

(** X11: with every entry holding a chunk, a timer callback sends exactly
    one chunk, that of the entry and position the cursor points at (a stale
    index counting as 0), whatever the cursor holds, and leaves the queue
    and the timer as they are. *)
Theorem tick_sends_one_chunk st :
  broadcastQueue st ≠ [] →
  Forall (λ kv, kv.2 ≠ []) (broadcastQueue st) →
  ∃ id chunks c,
    broadcastQueue st !! (currentCursor st).1 = Some (id, chunks)
    ∧ chunks !! (currentCursor st).2 = Some c
    ∧ (tick st).2 = [EvSend id c]
    ∧ broadcastQueue (tick st).1 = broadcastQueue st
    ∧ masterInterval (tick st).1 = masterInterval st
    ∧ masterState (tick st).1 = masterState st.
Proof.
  intros Hq Hne.
  destruct (currentCursor_valid st Hq Hne) as (id & chunks & Ha & Hc).
  destruct (lookup_lt_is_Some_2 chunks _ Hc) as [c Hch].
  exists id, chunks, c. split; [done|]. split; [done|].
  rewrite (tick_currentCursor st Hq).
  destruct (currentCursor st) as [a ci]. simpl in *.
  by rewrite (tick_sends st a ci id chunks c Ha Hch).
Qed.

Lemma tick_sends_one_chunk_witness :
  let st := set_broadcastCursor (5, 9) twoQueued in
  ∃ id chunks c,
    broadcastQueue st !! (currentCursor st).1 = Some (id, chunks)
    ∧ chunks !! (currentCursor st).2 = Some c
    ∧ (tick st).2 = [EvSend id c]
    ∧ broadcastQueue (tick st).1 = broadcastQueue st
    ∧ masterInterval (tick st).1 = masterInterval st
    ∧ masterState (tick st).1 = masterState st.
Proof.
  intros st. apply (tick_sends_one_chunk st).
  - discriminate.
  - apply (bool_decide_unpack _). vm_compute. exact I.
Defined.

(** ** Invariants of the queue *)

Lemma encode_nonempty message id isAck :
  encodeMessageToChunks message id isAck ≠ [].
Proof.
  intros H. apply (f_equal length) in H.
  unfold encodeMessageToChunks in H. rewrite length_fmap, length_seq in H.
  unfold chunkCount in H. simpl in H. lia.
Qed.

Lemma queueBacked_states st st' :
  broadcastQueue st' = broadcastQueue st →
  (∀ k, is_Some (masterState st !! k) → is_Some (masterState st' !! k)) →
  queueBacked st → queueBacked st'.
Proof.
  unfold queueBacked. intros -> Hm Hq. eapply Forall_impl; [exact Hq|].
  intros kv [H1 H2]. split; [done|by apply Hm].
Qed.

Lemma queueBacked_set st id chunks e :
  chunks ≠ [] → queueBacked st →
  Forall (λ kv : nat * list Chunk,
            kv.2 ≠ [] ∧ is_Some (<[id := e]> (masterState st) !! kv.1))
    (queueSet id chunks (broadcastQueue st)).
Proof.
  unfold queueBacked. intros Hc Hq.
  assert (Hin : is_Some (<[id := e]> (masterState st) !! id))
    by (rewrite lookup_insert_eq; by eexists).
  induction Hq as [|[k v] q [Hv Hk] Hq IH]; simpl.
  - repeat constructor; done.
  - case_decide as Hkid.
    + subst k. constructor; [done|].
      eapply Forall_impl; [exact Hq|]. intros kv [H1 H2]. split; [done|].
      rewrite lookup_insert. case_decide; [by eexists|done].
    + constructor; [|exact IH]. split; [done|].
      simpl. by rewrite lookup_insert_ne.
Qed.

Lemma addToBroadcastQueue_backed st id chunks e :
  chunks ≠ [] → queueBacked st →
  queueBacked
    (addToBroadcastQueue id chunks
       (set_masterState (<[id := e]> (masterState st)) st)).1.
Proof.
  intros Hc Hq. unfold queueBacked, addToBroadcastQueue. simpl.
  destruct (masterInterval st); simpl; by apply queueBacked_set.
Qed.

Lemma broadcastMessage_backed newId message st :
  queueBacked st → queueBacked (broadcastMessage newId message st).1.
Proof.
  intros Hq. unfold broadcastMessage.
  set (chunks := encodeMessageToChunks message newId false).
  pose proof (queueBacked_set st newId chunks
                (ownState newId chunks message)
                (encode_nonempty message newId false) Hq) as H.
  unfold queueBacked, addToBroadcastQueue. simpl.
  by destruct (masterInterval st).
Qed.

Lemma handleRelayMessage_backed JSON_stringify env m st :
  queueBacked st → queueBacked (handleRelayMessage JSON_stringify env m st).1.
Proof.
  intros Hq. unfold handleRelayMessage.
  destruct (rm_type m).
  - destruct (decide _); [done|]. destruct (decide _); [done|].
    destruct (hasInternet env).
    + destruct (backend env) as [| |success result]; try done.
      destruct (if success then truthy result else None); [|done].
      unfold relayResponse.
      destruct (broadcastMessage _ _ _) as [st2 ev] eqn:Hb. simpl.
      change st2 with (st2, ev).1. rewrite <- Hb.
      by apply broadcastMessage_backed.
    + apply broadcastMessage_backed. by destruct (truthyString _).
  - destruct (negb _ && negb _); [|done].
    destruct (broadcastMessage _ _ _) as [st2 ev] eqn:Hb. simpl.
    change st2 with (st2, ev).1. rewrite <- Hb.
    by apply broadcastMessage_backed.
Qed.

Lemma trackChunk_states c st k :
  is_Some (masterState st !! k) →
  is_Some (masterState (trackChunk c st).1 !! k).
Proof.
  intros Hk. unfold trackChunk.
  destruct (isHeartbeat c); [done|].
  destruct (decide _); [done|]. cbv zeta.
  assert (Hput : ∀ e,
            is_Some (masterState
                       (set_masterState (<[ck_id c := e]> (masterState st))
                          (set_receivedMessageIds
                             ({[ck_id c]} ∪ receivedMessageIds st) st)) !! k)).
  { intros e. simpl. rewrite lookup_insert.
    case_decide; [by eexists|done]. }
  destruct (_ || _); [apply Hput|].
  destruct (decide _); [|apply Hput].
  destruct (reassemble _); apply Hput.
Qed.

Lemma handleIncomingChunk_backed JSON_parse JSON_stringify env c st :
  queueBacked st →
  queueBacked (handleIncomingChunk JSON_parse JSON_stringify env c st).1.
Proof.
  intros Hq. unfold handleIncomingChunk.
  assert (Ht : queueBacked (trackChunk c st).1).
  { apply (queueBacked_states st); [apply trackChunk_queue| |done].
    intros k. apply trackChunk_states. }
  destruct (trackChunk c st) as [st1 [d|]]; [|exact Ht]. simpl in Ht.
  unfold dispatchComplete.
  destruct (done_isAck d); [done|].
  destruct (hasInternet env).
  - unfold handleApiResponse. destruct (JSON_parse _); try done.
    + by apply handleRelayMessage_backed.
    + destruct (incidentStore env) as [| |t]; [done..|].
      pose proof (addToBroadcastQueue_backed st1 (done_id d)
                    (encodeMessageToChunks t (done_id d) true)
                    (ackState (done_id d)
                       (encodeMessageToChunks t (done_id d) true) t)
                    (encode_nonempty t (done_id d) true) Ht) as H.
      by destruct (addToBroadcastQueue _ _ _).
  - destruct (JSON_parse _); try done. by apply handleRelayMessage_backed.
Qed.

Lemma filter_backed (P : nat * list Chunk → Prop) `{∀ kv, Decision (P kv)}
    st :
  queueBacked st →
  queueBacked (set_broadcastQueue (filter P (broadcastQueue st)) st).
Proof.
  unfold queueBacked. simpl. intros Hq.
  apply Forall_forall. intros kv Hin.
  apply list_elem_of_filter in Hin as [_ Hin].
  by apply (proj1 (Forall_forall _ _) Hq).
Qed.

Lemma tick_backed st : queueBacked st → queueBacked (tick st).1.
Proof.
  intros Hq. unfold tick.
  destruct (broadcastQueue st) as [|e q] eqn:Hqe.
  { unfold queueBacked. simpl. by rewrite Hqe. }
  destruct (broadcastCursor st) as [qi ci].
  destruct ((e :: q) !! _) as [[cur [|c0 cs]]|]; simpl; try done.
  rewrite <- Hqe. unfold queueDelete.
  by apply (filter_backed (λ kv, kv.1 ≠ cur) st).
Qed.

Lemma step_backed JSON_parse JSON_stringify i st :
  queueBacked st → queueBacked (step JSON_parse JSON_stringify i st).1.
Proof.
  intros Hq. destruct i; cbn [step]; try done.
  - by apply handleIncomingChunk_backed.
  - by apply handleRelayMessage_backed.
  - unfold timerFires. destruct (masterInterval st); [by apply tick_backed|done].
  - by apply broadcastMessage_backed.
  - unfold relayQuery. destruct (hasInternet env);
      [done|by apply broadcastMessage_backed].
  - by apply broadcastMessage_backed.
  - unfold onConnectivityChange. destruct online; [|done].
    pose proof (filter_backed
                  (λ kv, keepOnline (masterState st) kv = true) st Hq) as H.
    by destruct (_ && _).
Qed.

(** X12: in every state the provider can reach from its start without a full
    reset, the queue is a proper Map (distinct keys), every queued entry has
    at least one chunk and a message state stored under its id. *)
Theorem reachable_queue_sound JSON_parse JSON_stringify inputs :
  let st := (run JSON_parse JSON_stringify inputs initialState).1 in
  uniqueKeys st ∧ queueBacked st.
Proof.
  intros st. split; [apply reachable_keys|]. unfold st.
  assert (H : ∀ s, queueBacked s →
            queueBacked (run JSON_parse JSON_stringify inputs s).1).
  { induction inputs as [|i inputs IH]; intros s Hs; simpl; [done|].
    pose proof (step_backed JSON_parse JSON_stringify i s Hs) as H1.
    destruct (step _ _ i s) as [s1 ev1].
    specialize (IH s1 H1). by destruct (run _ _ inputs s1). }
  apply H. constructor.
Qed.

(** X13: stopping the scheduler sends nothing more and drops nothing: the
    queue stays as it is, timer callbacks no longer fire, and the next
    message queued restarts the traversal at the first entry with the
    earlier entries still queued. *)
Theorem stop_keeps_queue newId message st :
  let st1 := (stopMasterBroadcastLoop st).1 in
  let st2 := (broadcastMessage newId message st1).1 in
  broadcastQueue st1 = broadcastQueue st
  ∧ timerFires st1 = (st1, [])
  ∧ masterInterval st2 = true
  ∧ broadcastCursor st2 = (0, 0)
  ∧ ∀ kv, kv ∈ broadcastQueue st → kv.1 ≠ newId → kv ∈ broadcastQueue st2.
Proof.
  intros st1 st2. split; [done|]. split; [done|].
  split; [done|]. split; [done|].
  intros kv Hin Hne. unfold st2.
  destruct (broadcastMessage_spec newId message st1) as (_ & -> & _).
  by apply queueSet_other.
Qed.

Lemma stop_keeps_queue_witness :
  let st1 := (stopMasterBroadcastLoop twoQueued).1 in
  let st2 := (broadcastMessage 9 [104; 105]%Z st1).1 in
  broadcastQueue st1 = broadcastQueue twoQueued
  ∧ timerFires st1 = (st1, [])
  ∧ Forall (λ kv, kv ∈ broadcastQueue st2) (broadcastQueue twoQueued).
Proof.
  intros st1 st2.
  destruct (stop_keeps_queue 9 [104; 105]%Z twoQueued)
    as (H1 & H2 & _ & _ & H5).
  split; [exact H1|]. split; [exact H2|].
  apply Forall_forall. intros kv Hin. apply H5; [exact Hin|].
  revert kv Hin. apply Forall_forall.
  apply (bool_decide_unpack _). vm_compute. exact I.
Defined.


(** * The peer table *)

Lemma startsWith_length p s : startsWith p s = true → length p ≤ length s.
Proof.
  revert s. induction p as [|a p IH]; intros [|b s]; simpl; try lia;
    try done.
  intros H. apply andb_true_iff in H as [_ H]. apply IH in H. lia.
Qed.

(** X14: a frame is either a heartbeat or a message fragment, never both: a
    heartbeat needs a payload of at least ten bytes, more than the six bytes
    a fragment may carry, and leaves the reassembly, queue and relay state
    alone; any other frame leaves the peer table alone. *)
Theorem heartbeat_or_fragment (JSON_parse : Text → Parsed)
    (JSON_stringify : RelayMessage → Text) (env : Env) (deviceId : Text)
    (now : Z) (c : Chunk) (st : BleState) (peers : gmap Text Z) :
  (isHeartbeat c = true →
   handleIncomingChunk JSON_parse JSON_stringify env c st = (st, [])
   ∧ is_Some (heartbeatPeer c)
   ∧ DATA_PER_CHUNK < length (ck_data c))
  ∧ (isHeartbeat c = false →
     heartbeatPeer c = None
     ∧ noteHeartbeat deviceId now c peers = peers).
Proof.
  unfold isHeartbeat, heartbeatPeer, noteHeartbeat, heartbeatPeer. split.
  - intros Hh. split; [|split].
    + unfold handleIncomingChunk, trackChunk, isHeartbeat. by rewrite Hh.
    + rewrite Hh. by eexists.
    + apply startsWith_length in Hh.
      pose proof (trim_length (ck_data c)). simpl in Hh.
      unfold DATA_PER_CHUNK. lia.
  - intros Hh. by rewrite Hh.
Qed.

Lemma heartbeat_or_fragment_witness :
  let c := mkChunk 0 1 1 false
             ([32; 72; 69; 65; 82; 84; 66; 69; 65; 84; 58; 100; 49; 10]%Z) in
  handleIncomingChunk parseNothing stringifyId offlineEnv c twoQueued
    = (twoQueued, [])
  ∧ heartbeatPeer ackFragment7 = None.
Proof.
  intros c. split.
  - apply (proj1 (heartbeat_or_fragment parseNothing stringifyId offlineEnv
                    [] 0%Z c twoQueued ∅)). reflexivity.
  - apply (proj2 (heartbeat_or_fragment parseNothing stringifyId offlineEnv
                    [] 0%Z ackFragment7 twoQueued ∅)). reflexivity.
Defined.

Lemma alive_lookup (now : Z) (peers : gmap Text Z) (p : Text) (t : Z) :
  (getActivePeerCount now peers).1 !! p = Some t
  ↔ peers !! p = Some t ∧ (now - t ≤ HEARTBEAT_TIMEOUT_MS)%Z.
Proof.
  unfold getActivePeerCount. simpl. rewrite map_lookup_filter_Some. simpl.
  split; intros [H1 H2]; (split; [done|lia]).
Qed.

(** X15: [getActivePeerCount] keeps exactly the peers heard from within the
    last 15 seconds and returns their number; a second call at the same time
    finds nothing more to prune, and an earlier pruning does not change what
    a later call returns. *)
Theorem active_peers_window (now now' : Z) (peers : gmap Text Z) :
  let alive := (getActivePeerCount now peers).1 in
  (getActivePeerCount now peers).2 = size alive
  ∧ (∀ p t, alive !! p = Some t
            ↔ peers !! p = Some t ∧ (now - t ≤ HEARTBEAT_TIMEOUT_MS)%Z)
  ∧ size alive ≤ size peers
  ∧ getActivePeerCount now alive = getActivePeerCount now peers
  ∧ ((now ≤ now')%Z →
     getActivePeerCount now' alive = getActivePeerCount now' peers).
Proof.
  intros alive.
  assert (Hlater : ∀ n, (now ≤ n)%Z →
            (getActivePeerCount n alive).1 = (getActivePeerCount n peers).1).
  { intros n Hn. apply map_eq. intros p. apply option_eq. intros t.
    rewrite !alive_lookup. unfold alive. rewrite alive_lookup. 
    split; [tauto|]. intros [H1 H2]. repeat split; try done. lia. }
  assert (Heq : ∀ n, (now ≤ n)%Z →
            getActivePeerCount n alive = getActivePeerCount n peers).
  { intros n Hn. specialize (Hlater n Hn).
    unfold getActivePeerCount in *. simpl in *. by rewrite Hlater. }
  split; [done|]. split; [intros p t; apply alive_lookup|].
  split; [apply map_subseteq_size, map_filter_subseteq|].
  split; [apply Heq; lia|apply Heq].
Qed.

Lemma active_peers_window_witness :
  let peers : gmap Text Z := {[ [100; 49]%Z := 1000%Z; [100; 50]%Z := 40000%Z ]} in
  getActivePeerCount 50000 (getActivePeerCount 20000 peers).1
    = getActivePeerCount 50000 peers.
Proof.
  intros peers.
  apply (proj2 (proj2 (proj2 (proj2
           (active_peers_window 20000 50000 peers))))).
  lia.
Defined.

(** X16: a heartbeat from another device is counted for 15 seconds: received
    at time [t], its sender is among the active peers at time [now] exactly
    when [now - t] is at most 15000; heartbeats carrying this device's own
    id or no id are not recorded. *)
Theorem heartbeat_counted_until_timeout (deviceId : Text) (t now : Z)
    (c : Chunk) (peer : Text) (peers : gmap Text Z) :
  heartbeatPeer c = Some peer →
  (peer = [] ∨ peer = deviceId → noteHeartbeat deviceId t c peers = peers)
  ∧ (peer ≠ [] → peer ≠ deviceId →
     noteHeartbeat deviceId t c peers = <[peer := t]> peers
     ∧ (getActivePeerCount now (noteHeartbeat deviceId t c peers)).1 !! peer
       = (if decide (now - t ≤ HEARTBEAT_TIMEOUT_MS)%Z then Some t else None)).
Proof.
  intros Hp. unfold noteHeartbeat. rewrite Hp. split.
  - intros [-> | ->].
    + by rewrite bool_decide_eq_false_2 by (intros H; by apply H).
    + rewrite (bool_decide_eq_false_2 (deviceId ≠ deviceId))
        by (intros H; by apply H).
      by rewrite andb_false_r.
  - intros H1 H2. rewrite !bool_decide_eq_true_2 by done. cbn [andb].
    split; [done|]. apply option_eq. intros t'. rewrite alive_lookup.
    rewrite lookup_insert_eq. case_decide; split.
    + by intros [[= <-] _].
    + intros [= <-]. by split.
    + intros [[= <-] Hle]. lia.
    + done.
Qed.

Lemma heartbeat_counted_until_timeout_witness :
  let c := mkChunk 0 1 1 false
             ([72; 69; 65; 82; 84; 66; 69; 65; 84; 58; 100; 49]%Z) in
  (getActivePeerCount 16000 (noteHeartbeat [100; 48]%Z 1000 c ∅)).1
    !! [100; 49]%Z = Some 1000%Z.
Proof.
  intros c.
  destruct (heartbeat_counted_until_timeout [100; 48]%Z 1000 16000 c
              [100; 49]%Z ∅ eq_refl) as [_ H].
  destruct H as [_ H]; [discriminate|discriminate|].
  exact H.
Defined.


(** * The chat provider *)

Lemma filter_all {A} (P : A → Prop) `{∀ x, Decision (P x)} (l : list A) :
  Forall P l → filter P l = l.
Proof.
  induction 1 as [|x l Hx Hl IH]; [done|].
  by rewrite filter_cons_True, IH.
Qed.

Lemma find_appended (queryId : string) (l : list PendingQuery) p :
  Forall (λ q, pq_queryId q ≠ queryId) l → pq_queryId p = queryId →
  find (λ q, bool_decide (pq_queryId q = queryId)) (l ++ [p]) = Some p.
Proof.
  intros Hl Hp. induction Hl as [|q l Hq Hl IH]; simpl.
  - by rewrite bool_decide_eq_true_2.
  - by rewrite bool_decide_eq_false_2.
Qed.

(** X17: a question asked without connectivity is answered in place: the
    chat shows the question and a placeholder and registers the query as
    pending, the query goes out over BLE under the same query id, and when
    the response for that id comes back the placeholder is replaced by the
    answer and the pending entry is gone. *)
Theorem offline_question_answered
    (extractResponseText : Text → Text) (JSON_stringify : RelayMessage → Text)
    (senv : SendEnv) (text resp : Text) (answerId : string)
    (cs : ChatState) (st : BleState) :
  trim text ≠ [] →
  se_hasInternet senv = false →
  hasInternet (se_ble senv) = false →
  Forall (λ q, pq_queryId q ≠ se_queryId senv) (pendingQueries cs) →
  Forall (λ msg, cm_id msg ≠ se_replyMessageId senv) (messages cs) →
  se_userMessageId senv ≠ se_replyMessageId senv →
  let r := sendMessage JSON_stringify senv text cs st in
  let query :=
    queryMessage (se_queryId senv) text assistant (Some (se_location senv))
      (se_deviceId senv) None in
  let cs2 :=
    relayResponseHandler extractResponseText answerId (se_queryId senv) resp
      r.1.1 in
  messages r.1.1
    = mkChatMessage (se_replyMessageId senv) SEARCHING_TEXT 2
        :: mkChatMessage (se_userMessageId senv) text 1 :: messages cs
  ∧ pendingQueries r.1.1
    = pendingQueries cs
        ++ [mkPendingQuery (se_queryId senv) (se_replyMessageId senv) text]
  ∧ r.2 = [EvEnqueue (freshId (se_ble senv))
             (encodeMessageToChunks (JSON_stringify query)
                (freshId (se_ble senv)) false)]
  ∧ messages cs2
    = mkChatMessage answerId (extractResponseText resp) 2
        :: mkChatMessage (se_userMessageId senv) text 1 :: messages cs
  ∧ pendingQueries cs2 = pendingQueries cs.
Proof.
  intros Ht Hoff Hble Hfresh Hmsgs Hids r query cs2.
  assert (Hr : r = (mkChatState
                      (mkChatMessage (se_replyMessageId senv) SEARCHING_TEXT 2
                         :: mkChatMessage (se_userMessageId senv) text 1
                         :: messages cs)
                      (pendingQueries cs
                       ++ [mkPendingQuery (se_queryId senv)
                             (se_replyMessageId senv) text]),
                    (broadcastMessage (freshId (se_ble senv))
                       (JSON_stringify query) st).1,
                    (broadcastMessage (freshId (se_ble senv))
                       (JSON_stringify query) st).2)).
  { unfold r, sendMessage. destruct (trim text) as [|b l]; [done|].
    rewrite Hoff. unfold relayQuery. rewrite Hble. fold query.
    by destruct (broadcastMessage _ _ st). }
  unfold cs2. rewrite Hr. cbn [fst snd messages pendingQueries].
  split; [done|]. split; [done|].
  split; [by destruct (broadcastMessage_spec (freshId (se_ble senv))
                         (JSON_stringify query) st) as (-> & _)|].
  unfold relayResponseHandler. cbn [pendingQueries messages].
  rewrite (find_appended (se_queryId senv) (pendingQueries cs)
             (mkPendingQuery (se_queryId senv) (se_replyMessageId senv) text)
             Hfresh eq_refl).
 cbn [messages pendingQueries pq_messageId]. split.
  - f_equal. rewrite filter_cons_False by (simpl; intros H; by apply H).
    rewrite filter_cons_True by done. f_equal. by apply filter_all.
  - rewrite filter_app, (filter_all _ _ Hfresh).
    rewrite filter_cons_False by (simpl; intros H; by apply H).
    by rewrite filter_nil, app_nil_r.
Qed.

Lemma offline_question_answered_witness :
  let senv :=
    mkSendEnv false "u1" "q2" "p1" ApiOtherError [123; 125]%Z "d1" offlineEnv in
  let r := sendMessage stringifyId senv [104; 105]%Z chatAwaitingQ1 initialState in
  let cs2 := relayResponseHandler (λ t, t) "a1" "q2" [52; 50]%Z r.1.1 in
  messages cs2
    = mkChatMessage "a1" [52; 50]%Z 2
        :: mkChatMessage "u1" [104; 105]%Z 1 :: messages chatAwaitingQ1
  ∧ pendingQueries cs2 = pendingQueries chatAwaitingQ1.
Proof.
  intros senv r cs2.
  destruct (offline_question_answered (λ t, t) stringifyId senv
              [104; 105]%Z [52; 50]%Z "a1" chatAwaitingQ1 initialState)
    as (_ & _ & _ & H4 & H5).
  - discriminate.
  - reflexivity.
  - reflexivity.
  - repeat constructor; discriminate.
  - repeat constructor; discriminate.
  - discriminate.
  - split; [exact H4|exact H5].
Defined.

(** X18: with connectivity a question goes straight to the backend: nothing
    is queued for BLE, no query becomes pending, and the chat gains the
    question and one reply, which is the answer or, when the call fails, the
    error text chosen by the kind of failure. A blank question does nothing
    at all. *)
Theorem online_question_bypasses_mesh
    (JSON_stringify : RelayMessage → Text) (senv : SendEnv) (text : Text)
    (cs : ChatState) (st : BleState) :
  (trim text = [] → sendMessage JSON_stringify senv text cs st = (cs, st, []))
  ∧ (trim text ≠ [] → se_hasInternet senv = true →
     let r := sendMessage JSON_stringify senv text cs st in
     r.1.2 = st
     ∧ r.2 = [EvRelayFetch (se_queryId senv)]
     ∧ pendingQueries r.1.1 = pendingQueries cs
     ∧ ∃ reply,
         messages r.1.1
           = mkChatMessage (se_replyMessageId senv) reply 2
               :: mkChatMessage (se_userMessageId senv) text 1 :: messages cs
         ∧ (∀ t, se_api senv = ApiOk (Some t) → reply = t)
         ∧ (se_api senv = ApiOk None → reply = INVALID_RESPONSE_TEXT)
         ∧ (se_api senv = ApiAborted → reply = TIMED_OUT_TEXT)
         ∧ (se_api senv = ApiNetworkFailed → reply = CANNOT_CONNECT_TEXT)
         ∧ (se_api senv = ApiOtherError → reply = TROUBLE_TEXT)).
Proof.
  unfold sendMessage. split.
  - by intros ->.
  - intros Ht Hon. destruct (trim text) as [|b l]; [done|]. rewrite Hon.
    cbn [fst snd messages pendingQueries].
    split; [done|]. split; [done|]. split; [done|].
    eexists. split; [reflexivity|].
    destruct (se_api senv) as [| | |[t|]]; repeat split; try done.
    by intros t' [= ->].
Qed.

Lemma online_question_bypasses_mesh_witness :
  let senv :=
    mkSendEnv true "u1" "q2" "p1" ApiAborted [123; 125]%Z "d1"
      (onlineEnv NetworkFailure) in
  sendMessage stringifyId senv [32; 10]%Z chatAwaitingQ1 twoQueued
    = (chatAwaitingQ1, twoQueued, [])
  ∧ (sendMessage stringifyId senv [104; 105]%Z chatAwaitingQ1 twoQueued).1.2
    = twoQueued.
Proof.
  intros senv. split.
  - apply (proj1 (online_question_bypasses_mesh stringifyId senv [32; 10]%Z
                    chatAwaitingQ1 twoQueued)). reflexivity.
  - apply (proj2 (online_question_bypasses_mesh stringifyId senv [104; 105]%Z
                    chatAwaitingQ1 twoQueued)); [discriminate|reflexivity].
Defined.

Lemma filter_agree {A} (P Q : A → Prop)
    `{∀ x, Decision (P x)} `{∀ x, Decision (Q x)} (l : list A) :
  (∀ x, x ∈ l → P x ↔ Q x) → filter P l = filter Q l.
Proof.
  induction l as [|a l IH]; intros Hpq; [done|].
  assert (Hl : filter P l = filter Q l).
  { apply IH. intros x Hx. apply Hpq. by right. }
  destruct (decide (P a)) as [Hp|Hp].
  - rewrite !filter_cons_True; [by rewrite Hl | | done].
    apply Hpq; [by left|done].
  - rewrite !filter_cons_False; [done | | done].
    intros Hq. apply Hp. apply Hpq; [by left|done].
Qed.

Lemma pollPending_pending check newId snapshot cs :
  pendingQueries (pollPending check newId snapshot cs)
  = filter (λ q, ¬ (resolved check (pq_queryId q)
                    ∧ pq_queryId q ∈ pq_queryId <$> snapshot))
      (pendingQueries cs).
Proof.
  revert cs. induction snapshot as [|p snapshot IH]; intros cs; simpl.
  - symmetry. apply filter_all, Forall_forall. intros q _ [_ Hin].
    by apply elem_of_nil in Hin.
  - rewrite IH. 
    assert (Hskip : ¬ resolved check (pq_queryId p) →
              filter (λ q, ¬ (resolved check (pq_queryId q)
                              ∧ pq_queryId q ∈ pq_queryId <$> snapshot))
                (pendingQueries cs)
              = filter (λ q, ¬ (resolved check (pq_queryId q)
                                ∧ pq_queryId q
                                    ∈ pq_queryId p :: (pq_queryId <$> snapshot)))
                  (pendingQueries cs)).
    { intros Hn. apply list_filter_iff. intros q.
      split; intros H [Hr Hin]; apply H.
      - split; [done|]. apply elem_of_cons in Hin as [Heq|Hin]; [|done].
        by rewrite Heq in Hr.
      - split; [done|]. by right. }
    destruct (check (pq_queryId p)) as [[|b t]|] eqn:Hc;
      [apply Hskip; unfold resolved; rewrite Hc; by intros []
      | | apply Hskip; unfold resolved; rewrite Hc; by intros []].
    cbn [pollCompleted pendingQueries]. rewrite list_filter_filter.
    apply list_filter_iff. intros q. split.
    + intros [H1 H2] [Hr Hin].
      apply elem_of_cons in Hin as [Heq|Hin]; [done|].
      apply H1. by split.
    + intros H. split.
      * intros [Hr Hin]. apply H. split; [done|by right].
      * intros Heq. apply H. split.
        -- unfold resolved. by rewrite Heq, Hc.
        -- rewrite Heq. by left.
Qed.

(** X19: on reconnecting, the status poll resolves exactly the pending
    queries the backend reports completed: those leave the pending list and
    the others stay; a relay response that arrives afterwards for a resolved
    query shows nothing more. Without connectivity the poll does not run. *)
Theorem reconnect_poll_resolves
    (extractResponseText : Text → Text) (check : string → option Text)
    (newId : string → string) (cs : ChatState) :
  let cs1 := checkPendingQueries true check newId cs in
  pendingQueries cs1
    = filter (λ q, ¬ resolved check (pq_queryId q)) (pendingQueries cs)
  ∧ (∀ answerId queryId resp,
       resolved check queryId →
       relayResponseHandler extractResponseText answerId queryId resp cs1
       = cs1)
  ∧ checkPendingQueries false check newId cs = cs.
Proof.
  intros cs1.
  assert (Hp : pendingQueries cs1
            = filter (λ q, ¬ resolved check (pq_queryId q))
                (pendingQueries cs)).
  { unfold cs1, checkPendingQueries. rewrite pollPending_pending.
    apply filter_agree. intros q Hq. split.
    - intros H Hr. apply H. split; [done|].
      by apply (list_elem_of_fmap_2 pq_queryId).
    - intros H [Hr _]. by apply H. }
  split; [exact Hp|]. split; [|done].
  intros answerId queryId resp Hr.
  apply handler_without_pending. intros p Hin Heq.
  rewrite Hp in Hin. apply list_elem_of_filter in Hin as [Hn _].
  apply Hn. by rewrite Heq.
Qed.

Lemma reconnect_poll_resolves_witness :
  let check : string → option Text :=
    λ q, if bool_decide (q = "q1") then Some [52; 50]%Z else None in
  let cs1 := checkPendingQueries true check (λ q, q) chatAwaitingQ1 in
  pendingQueries cs1 = []
  ∧ relayResponseHandler (λ t, t) "a1" "q1" [52; 50]%Z cs1 = cs1.
Proof.
  intros check cs1.
  destruct (reconnect_poll_resolves (λ t, t) check (λ q, q) chatAwaitingQ1)
    as (H1 & H2 & _).
  split; [exact H1|]. apply H2. exact I.
Defined.


(** * One traversal, chunk by chunk *)

Lemma traversal_perm st :
  broadcastQueue st ≠ [] →
  Forall (λ kv, kv.2 ≠ []) (broadcastQueue st) →
  ticks (chunkTotal (broadcastQueue st)) st
    = (set_broadcastCursor (currentCursor st) st,
       (ticks (chunkTotal (broadcastQueue st)) st).2)
  ∧ (ticks (chunkTotal (broadcastQueue st)) st).2
      ≡ₚ broadcastQueue st ≫= sendsOf.
Proof.
  intros Hq Hne.
  destruct (currentCursor_valid st Hq Hne) as (ida & cha & Ha & Hc).
  destruct (currentCursor st) as [a c] eqn:Hcur. simpl in Ha, Hc.
  assert (Hpos : 0 < chunkTotal (broadcastQueue st)).
  { rewrite <- (take_drop_middle _ a _ Ha), chunkTotal_app. simpl. lia. }
  rewrite (ticks_currentCursor _ st Hq Hpos), Hcur.
  rewrite (traversal_from st a c ida cha Hne Ha Hc).
  split; [done|]. cbn [snd].
  rewrite <- (take_drop_middle _ a _ Ha) at 3.
  rewrite bind_app, bind_cons.
  change (sendsOf (ida, cha)) with (EvSend ida <$> cha).
  rewrite <- (take_drop c cha) at 3. rewrite fmap_app.
  set (x := EvSend ida <$> drop c cha).
  set (y := drop (S a) (broadcastQueue st) ≫= sendsOf).
  set (z := take a (broadcastQueue st) ≫= sendsOf).
  set (w := EvSend ida <$> take c cha).
  rewrite (Permutation_app_comm w x).
  rewrite <- !app_assoc.
  rewrite (Permutation_app_comm z (x ++ w ++ y)).
  rewrite <- !app_assoc.
  apply Permutation_app_head.
  rewrite (Permutation_app_comm w (y ++ z)).
  by rewrite <- !app_assoc.
Qed.

Lemma sentChunks_sendsOf (q : list (nat * list Chunk)) :
  sentChunks (q ≫= sendsOf) = q ≫= snd.
Proof.
  assert (Hone : ∀ id chunks, sentChunks (EvSend id <$> chunks) = chunks).
  { intros id chunks. induction chunks as [|c chunks IHc]; [done|].
    change (sentChunks (EvSend id <$> c :: chunks))
      with (c :: sentChunks (EvSend id <$> chunks)).
    by rewrite IHc. }
  induction q as [|[id chunks] q IH]; [done|].
  rewrite !bind_cons. unfold sentChunks in *. rewrite omap_app, IH.
  f_equal. apply Hone.
Qed.

(** X20: with every entry holding a chunk, the callbacks of one full
    traversal put every queued chunk on the air exactly once, whatever the
    cursor held when they started, and leave the queue as it was. *)
Theorem traversal_sends_each_chunk_once st :
  broadcastQueue st ≠ [] →
  Forall (λ kv, kv.2 ≠ []) (broadcastQueue st) →
  let out := ticks (chunkTotal (broadcastQueue st)) st in
  out.2 ≡ₚ broadcastQueue st ≫= sendsOf
  ∧ sentChunks out.2 ≡ₚ broadcastQueue st ≫= snd
  ∧ broadcastQueue out.1 = broadcastQueue st.
Proof.
  intros Hq Hne out.
  destruct (traversal_perm st Hq Hne) as [Hst Hperm].
  split; [exact Hperm|]. split.
  - rewrite <- sentChunks_sendsOf. unfold sentChunks.
    by apply omap_Permutation.
  - unfold out. by rewrite Hst.
Qed.

Lemma traversal_sends_each_chunk_once_witness :
  let st := set_broadcastCursor (1, 7) twoQueued in
  let out := ticks (chunkTotal (broadcastQueue st)) st in
  out.2 ≡ₚ broadcastQueue st ≫= sendsOf
  ∧ sentChunks out.2 ≡ₚ broadcastQueue st ≫= snd
  ∧ broadcastQueue out.1 = broadcastQueue st.
Proof.
  intros st. apply (traversal_sends_each_chunk_once st).
  - discriminate.
  - apply (bool_decide_unpack _). vm_compute. exact I.
Defined.

(** * A message across the mesh *)

(** The tracker touches the message table and the received set only. *)
Lemma trackChunk_frame c st :
  processedRelayQueries (trackChunk c st).1 = processedRelayQueries st
  ∧ rebroadcastedQueryIds (trackChunk c st).1 = rebroadcastedQueryIds st
  ∧ relayResponseCallback (trackChunk c st).1 = relayResponseCallback st
  ∧ masterInterval (trackChunk c st).1 = masterInterval st
  ∧ broadcastCursor (trackChunk c st).1 = broadcastCursor st
  ∧ ∀ k, k ≠ ck_id c →
      masterState (trackChunk c st).1 !! k = masterState st !! k.
Proof.
  unfold trackChunk.
  repeat (case_match; simpl; try done);
    repeat split; try done; intros k Hk; by rewrite lookup_insert_ne.
Qed.

Lemma handleRelayMessage_quiet JSON_stringify env m st st1 :
  handleRelayMessage JSON_stringify env m st = (st1, []) → st1 = st.
Proof.
  unfold handleRelayMessage. destruct (rm_type m).
  - destruct (decide _); [by intros [= <-]|].
    destruct (decide _); [by intros [= <-]|].
    destruct (hasInternet env).
    + destruct (backend env) as [| |success result]; try discriminate.
      destruct (if success then truthy result else None); [|discriminate].
      destruct (relayResponse _ _ _ _ _). discriminate.
    + intros H. apply (f_equal snd) in H.
      by rewrite broadcastMessage_events in H.
  - destruct (negb _ && negb _).
    + pose proof (broadcastMessage_events (freshId env) (JSON_stringify m)
                    (set_rebroadcastedQueryIds
                       ({[responseKey (query_id m)]}
                          ∪ rebroadcastedQueryIds st) st)) as Hev.
      destruct (broadcastMessage _ _ _) as [st2 ev]. simpl in Hev. subst ev.
      intros [= _ H]. by destruct (app_eq_nil _ _ H).
    + by intros [= <- _].
Qed.

Lemma dispatchComplete_quiet JSON_parse JSON_stringify env d st st1 :
  dispatchComplete JSON_parse JSON_stringify env d st = (st1, []) → st1 = st.
Proof.
  unfold dispatchComplete, handleApiResponse.
  destruct (done_isAck d); [by intros [= <-]|].
  destruct (hasInternet env).
  - destruct (JSON_parse _); try by intros [= <-].
    + apply handleRelayMessage_quiet.
    + destruct (incidentStore env); [by intros [= <-]|discriminate|].
      destruct (addToBroadcastQueue _ _ _). discriminate.
  - destruct (JSON_parse _); try by intros [= <-].
    apply handleRelayMessage_quiet.
Qed.

(** A receipt that causes no effect changes nothing but the tracker's
    tables. *)
Lemma handleIncomingChunk_quiet JSON_parse JSON_stringify env c st st1 :
  handleIncomingChunk JSON_parse JSON_stringify env c st = (st1, []) →
  st1 = (trackChunk c st).1.
Proof.
  unfold handleIncomingChunk.
  destruct (trackChunk c st) as [st' [d|]]; [|by intros [= <-]].
  apply dispatchComplete_quiet.
Qed.

Lemma deliver_quiet JSON_parse JSON_stringify frames st st1 :
  deliver JSON_parse JSON_stringify frames st = (st1, []) →
  processedRelayQueries st1 = processedRelayQueries st
  ∧ rebroadcastedQueryIds st1 = rebroadcastedQueryIds st
  ∧ relayResponseCallback st1 = relayResponseCallback st
  ∧ masterInterval st1 = masterInterval st
  ∧ broadcastCursor st1 = broadcastCursor st
  ∧ broadcastQueue st1 = broadcastQueue st
  ∧ ownMessageIds st1 = ownMessageIds st
  ∧ ∀ k, k ∉ ck_id <$> frames.*2 → masterState st1 !! k = masterState st !! k.
Proof.
  revert st. induction frames as [|[env c] frames IH]; intros st; simpl.
  { by intros [= <-]. }
  destruct (handleIncomingChunk _ _ env c st) as [s1 ev1] eqn:H1.
  destruct (deliver _ _ frames s1) as [s2 ev2] eqn:H2.
  intros [= -> Hev]. destruct (app_eq_nil _ _ Hev) as [-> ->].
  apply handleIncomingChunk_quiet in H1. subst s1.
  destruct (IH _ H2) as (I1 & I2 & I3 & I4 & I5 & I6 & I7 & I8).
  destruct (trackChunk_frame c st) as (T1 & T2 & T3 & T4 & T5 & T6).
  rewrite I1, I2, I3, I4, I5, I6, I7, T1, T2, T3, T4, T5,
    trackChunk_queue, trackChunk_own.
  repeat split; try done.
  intros k Hk. rewrite I8, T6; [done| |].
  - intros ->. apply Hk. by left.
  - intros Hin. apply Hk. by right.
Qed.

Lemma deliver_app JSON_parse JSON_stringify l1 l2 st :
  deliver JSON_parse JSON_stringify (l1 ++ l2) st
  = let '(st1, ev1) := deliver JSON_parse JSON_stringify l1 st in
    let '(st2, ev2) := deliver JSON_parse JSON_stringify l2 st1 in
    (st2, ev1 ++ ev2).
Proof.
  revert st. induction l1 as [|[env c] l1 IH]; intros st; simpl.
  - by destruct (deliver _ _ l2 st).
  - destruct (handleIncomingChunk _ _ env c st) as [s1 ev1]. rewrite IH.
    destruct (deliver _ _ l1 s1) as [s2 ev2].
    destruct (deliver _ _ l2 s2) as [s3 ev3]. by rewrite app_assoc.
Qed.

(** The fragments of a message, received in any order by a device that
    does not know its id, end in the dispatch of the whole text. *)
Lemma deliver_dispatch JSON_parse JSON_stringify msg id ack
    (frames : list (Env * Chunk)) st :
  cleanText msg →
  masterState st !! id = None →
  id ∉ ownMessageIds st →
  frames.*2 ≡ₚ encodeMessageToChunks msg id ack →
  ∃ env st2,
    env ∈ frames.*1
    ∧ deliver JSON_parse JSON_stringify frames st
      = dispatchComplete JSON_parse JSON_stringify env
          (mkCompletion id ack msg) st2
    ∧ processedRelayQueries st2 = processedRelayQueries st
    ∧ rebroadcastedQueryIds st2 = rebroadcastedQueryIds st
    ∧ relayResponseCallback st2 = relayResponseCallback st
    ∧ masterInterval st2 = masterInterval st
    ∧ broadcastCursor st2 = broadcastCursor st
    ∧ broadcastQueue st2 = broadcastQueue st
    ∧ ownMessageIds st2 = ownMessageIds st
    ∧ (∀ k, k ≠ id → masterState st2 !! k = masterState st !! k)
    ∧ ∃ chunks,
        masterState st2 !! id
        = Some (mkMessageState id (chunkCount msg) true ack chunks msg).
Proof.
  intros Hz Hm Hown Hperm.
  pose proof (encode_NoDup msg id ack) as Hnd.
  assert (Hlen : length frames = chunkCount msg).
  { rewrite <- (length_fmap snd), Hperm.
    unfold encodeMessageToChunks. by rewrite length_fmap, length_seq. }
  assert (Hids : ∀ c, c ∈ frames.*2 → ck_id c = id).
  { intros c Hc. rewrite Hperm, encode_chunkOf in Hc.
    by apply list_elem_of_fmap in Hc as (i & -> & _). }
  destruct (deliver_until_complete msg id ack JSON_parse JSON_stringify
              frames st ∅)
    as (pre & env & last & st1 & st2 & chunks & Hl & Hpre & Hlast & Hfin).
  - done.
  - intros ->. simpl in Hlen. unfold chunkCount in Hlen. simpl in Hlen. lia.
  - split; [done|]. by left.
  - intros k c. by rewrite lookup_empty.
  - intros c Hc. rewrite Hperm, encode_chunkOf in Hc.
    apply list_elem_of_fmap in Hc as (i & -> & Hi).
    apply elem_of_seq in Hi. exists i.
    split; [lia|]. split; [done|apply lookup_empty].
  - by rewrite Hperm.
  - by rewrite map_size_empty.
  - exists env, st2.
    destruct (deliver_quiet _ _ _ _ _ Hpre)
      as (I1 & I2 & I3 & I4 & I5 & I6 & I7 & I8).
    destruct (trackChunk_frame last st1) as (T1 & T2 & T3 & T4 & T5 & T6).
    pose proof (trackChunk_queue last st1) as T7.
    pose proof (trackChunk_own last st1) as T8.
    rewrite Hlast in T1, T2, T3, T4, T5, T6, T7, T8. simpl in *.
    assert (Hlastid : ck_id last = id).
    { apply Hids. rewrite Hl, fmap_app. apply elem_of_app. right. by left. }
    split. { rewrite Hl, fmap_app. apply elem_of_app. right. by left. }
    split.
    { rewrite Hl, deliver_app, Hpre. simpl.
      unfold handleIncomingChunk. rewrite Hlast.
      destruct (dispatchComplete _ _ _ _ _) as [s e]. by rewrite app_nil_r. }
    rewrite T1, T2, T3, T4, T5, T7, T8, I1, I2, I3, I4, I5, I6, I7.
    repeat split; try done; [|by exists chunks].
    intros k Hk. rewrite T6 by by rewrite Hlastid.
    apply I8. intros Hin.
    apply list_elem_of_fmap in Hin as (c & -> & Hc).
    apply Hk, Hids. rewrite Hl, fmap_app. apply elem_of_app. by left.
Qed.

(** * The sender map *)

Ltac senders_done := eexists; reflexivity.

Lemma handleRelayMessage_senders JSON_stringify env m q st :
  ∃ q',
    handleRelayMessage JSON_stringify env m (set_querySenderMap q st)
    = (set_querySenderMap q' (handleRelayMessage JSON_stringify env m st).1,
       (handleRelayMessage JSON_stringify env m st).2).
Proof.
  unfold handleRelayMessage, relayResponse, broadcastMessage,
    addToBroadcastQueue, startMasterBroadcastLoop.
  destruct st as [ms bq mi bc own rcv cb pr rb qs]. simpl.
  destruct (rm_type m).
  - destruct (decide _); [senders_done|].
    destruct (decide _); [senders_done|].
    destruct (hasInternet env).
    + destruct (backend env) as [| |success result]; [senders_done..|].
      destruct (if success then truthy result else None); [|senders_done].
      destruct mi; senders_done.
    + destruct (truthyString (original_device m)); destruct mi; senders_done.
  - destruct (negb _ && negb _); [|senders_done].
    destruct mi; senders_done.
Qed.

Lemma trackChunk_senders c q st :
  trackChunk c (set_querySenderMap q st)
  = (set_querySenderMap q (trackChunk c st).1, (trackChunk c st).2).
Proof.
  unfold trackChunk. destruct st as [ms bq mi bc own rcv cb pr rb qs].
  simpl. repeat (case_match; simpl; try done).
Qed.

Lemma handleIncomingChunk_senders JSON_parse JSON_stringify env c q st :
  ∃ q',
    handleIncomingChunk JSON_parse JSON_stringify env c
      (set_querySenderMap q st)
    = (set_querySenderMap q'
         (handleIncomingChunk JSON_parse JSON_stringify env c st).1,
       (handleIncomingChunk JSON_parse JSON_stringify env c st).2).
Proof.
  unfold handleIncomingChunk. rewrite trackChunk_senders.
  destruct (trackChunk c st) as [st1 [d|]]; [|senders_done].
  cbn [fst snd]. unfold dispatchComplete, handleApiResponse.
  destruct (done_isAck d); [senders_done|].
  destruct (hasInternet env).
  - destruct (JSON_parse _); try senders_done.
    + apply handleRelayMessage_senders.
    + destruct (incidentStore env); [senders_done..|].
      unfold addToBroadcastQueue, startMasterBroadcastLoop.
      destruct st1 as [ms bq mi bc own rcv cb pr rb qs]. simpl.
      destruct mi; senders_done.
  - destruct (JSON_parse _); try senders_done.
    apply handleRelayMessage_senders.
Qed.

Lemma tick_senders q st :
  tick (set_querySenderMap q st)
  = (set_querySenderMap q (tick st).1, (tick st).2).
Proof.
  unfold tick, stopMasterBroadcastLoop.
  destruct st as [ms bq mi bc own rcv cb pr rb qs]. simpl.
  repeat (case_match; simpl; try done).
Qed.

Lemma step_senders JSON_parse JSON_stringify i q st :
  ∃ q',
    step JSON_parse JSON_stringify i (set_querySenderMap q st)
    = (set_querySenderMap q' (step JSON_parse JSON_stringify i st).1,
       (step JSON_parse JSON_stringify i st).2).
Proof.
  destruct i; cbn [step].
  - apply handleIncomingChunk_senders.
  - apply handleRelayMessage_senders.
  - unfold timerFires.
    change (masterInterval (set_querySenderMap q st))
      with (masterInterval st).
    destruct (masterInterval st); [|senders_done].
    rewrite tick_senders. senders_done.
  - destruct st. senders_done.
  - destruct st. senders_done.
  - unfold broadcastMessage, addToBroadcastQueue, startMasterBroadcastLoop.
    destruct st as [ms bq mi bc own rcv cb pr rb qs]. simpl.
    destruct mi; senders_done.
  - unfold relayQuery. destruct (hasInternet env); [senders_done|].
    unfold broadcastMessage, addToBroadcastQueue, startMasterBroadcastLoop.
    destruct st as [ms bq mi bc own rcv cb pr rb qs]. simpl.
    destruct mi; senders_done.
  - unfold relayResponse, broadcastMessage, addToBroadcastQueue,
      startMasterBroadcastLoop.
    destruct st as [ms bq mi bc own rcv cb pr rb qs]. simpl.
    destruct mi; senders_done.
  - destruct st. senders_done.
  - unfold onConnectivityChange, stopMasterBroadcastLoop.
    destruct st as [ms bq mi bc own rcv cb pr rb qs]. simpl.
    destruct online; [|senders_done].
    destruct (_ && _); senders_done.
Qed.

(** X25: the sender map is written and never read: whatever it holds, the
    provider causes the same effects on the same inputs and ends with the
    same state apart from the map itself. In particular a query or a
    response is sent on to every device in range, the one it came from
    included. *)
Theorem sender_map_never_read JSON_parse JSON_stringify inputs q st :
  let r := run JSON_parse JSON_stringify inputs st in
  let r' := run JSON_parse JSON_stringify inputs (set_querySenderMap q st) in
  r'.2 = r.2 ∧ ∃ q', r'.1 = set_querySenderMap q' r.1.
Proof.
  revert q st. induction inputs as [|i inputs IH]; intros q st; simpl.
  { split; [done|]. by exists q. }
  destruct (step_senders JSON_parse JSON_stringify i q st) as [q1 ->].
  destruct (step _ _ i st) as [s1 ev1]. cbn [fst snd].
  destruct (IH q1 s1) as [Hev [q2 Hst]].
  destruct (run _ _ inputs (set_querySenderMap q1 s1)) as [s2' ev2'].
  destruct (run _ _ inputs s1) as [s2 ev2]. simpl in *.
  split; [by rewrite Hev|]. by exists q2.
Qed.


(** * The device: frames through the listener *)

Lemma noteHeartbeat_fragment (deviceId : Text) (now : Z) (c : Chunk)
    (peers : gmap Text Z) :
  isHeartbeat c = false → noteHeartbeat deviceId now c peers = peers.
Proof.
  unfold isHeartbeat, noteHeartbeat, heartbeatPeer. by intros ->.
Qed.

Lemma noteHeartbeat_other (deviceId : Text) (now : Z) (c : Chunk)
    (peers : gmap Text Z) (p : Text) :
  heartbeatPeer c ≠ Some p →
  noteHeartbeat deviceId now c peers !! p = peers !! p.
Proof.
  unfold noteHeartbeat. destruct (heartbeatPeer c) as [q|]; [|done].
  intros Hne. destruct (_ && _); [|done].
  rewrite lookup_insert_ne; [done|]. by intros ->.
Qed.

(** A frame that would be dropped by the handler, at the listener. *)
Lemma onFrame_settled JSON_parse JSON_stringify deviceId now env c d :
  (∀ captured, dev_listener d = Some captured → settled c (dev_ble d)) →
  let r := onFrame JSON_parse JSON_stringify deviceId now env c d in
  r.2 = []
  ∧ dev_ble r.1 = dev_ble d
  ∧ dev_listener r.1 = dev_listener d
  ∧ (∀ p, heartbeatPeer c ≠ Some p → dev_peers r.1 !! p = dev_peers d !! p)
  ∧ (isHeartbeat c = false → r.1 = d).
Proof.
  intros Hs r. unfold r, onFrame.
  destruct (dev_listener d) as [captured|] eqn:Hl; [|done].
  rewrite (settled_noop JSON_parse JSON_stringify _ c (dev_ble d)
             (Hs captured eq_refl)).
  cbn [fst snd dev_ble dev_peers dev_listener].
  split; [done|]. split; [done|]. split; [done|].
  split; [intros p; apply noteHeartbeat_other|].
  intros Hh. rewrite (noteHeartbeat_fragment _ _ _ _ Hh), <- Hl.
  by destruct d.
Qed.

(** X1: duplicate idempotence: a frame handed to the listener again right
    after it was handled changes nothing in the provider's refs and
    triggers no effect, whatever the frame, the connectivity and what the
    first receipt did.  When the frame is no heartbeat the peer table stays
    as it is as well; a heartbeat touches, at most, the time stamp of the
    peer it names. *)
Theorem duplicate_fragment_noop
    JSON_parse JSON_stringify deviceId now now' env env' c d :
  let d1 := (onFrame JSON_parse JSON_stringify deviceId now env c d).1 in
  let r := onFrame JSON_parse JSON_stringify deviceId now' env' c d1 in
  r.2 = []
  ∧ dev_ble r.1 = dev_ble d1
  ∧ dev_listener r.1 = dev_listener d1
  ∧ (∀ p, heartbeatPeer c ≠ Some p →
       dev_peers r.1 !! p = dev_peers d1 !! p)
  ∧ (isHeartbeat c = false → r.1 = d1).
Proof.
  intros d1. apply onFrame_settled. intros captured Hl.
  unfold d1, onFrame in *.
  destruct (dev_listener d) as [captured0|] eqn:Hcap;
    [|cbn [fst] in Hl; congruence].
  unfold handleIncomingChunk.
  pose proof (trackChunk_settled c (dev_ble d)) as Ht.
  destruct (trackChunk c (dev_ble d)) as [st' [done|]]; [|exact Ht].
  pose proof (dispatchComplete_settled JSON_parse JSON_stringify c
                (listenerEnv captured0 env) done st' Ht) as Hd.
  by destruct (dispatchComplete _ _ _ done st').
Qed.

Lemma duplicate_fragment_noop_witness :
  let c := mkChunk 7 1 1 false [104; 105; 0; 0; 0; 0]%Z in
  let d1 := (onFrame parseNothing stringifyId [100]%Z 5%Z offlineEnv c
               (mountDevice false)).1 in
  masterState (dev_ble d1) !! 7
    = Some (mkMessageState 7 1 true false {[1 := c]} [104; 105]%Z)
  ∧ onFrame parseNothing stringifyId [100]%Z 9%Z offlineEnv c d1 = (d1, []).
Proof.
  intros c d1. split; [reflexivity|].
  pose proof (duplicate_fragment_noop parseNothing stringifyId [100]%Z 5%Z
                9%Z offlineEnv offlineEnv c (mountDevice false)) as H.
  cbv zeta in H. destruct H as (H1 & _ & _ & _ & H5).
  specialize (H5 eq_refl). unfold d1.
  destruct (onFrame parseNothing stringifyId [100]%Z 9%Z offlineEnv c _)
    as [x y].
  cbn [fst snd] in H1, H5. by rewrite H1, H5.
Defined.

(** A device run is a run of the provider: a frame is a call of the handler
    with the listener's flag. *)
Lemma devRun_run JSON_parse JSON_stringify deviceId inputs d :
  ∃ inputs' peers',
    devRun JSON_parse JSON_stringify deviceId inputs d
    = (mkDevice (run JSON_parse JSON_stringify inputs' (dev_ble d)).1 peers'
         (dev_listener d),
       (run JSON_parse JSON_stringify inputs' (dev_ble d)).2).
Proof.
  revert d. induction inputs as [|i inputs IH]; intros d.
  { exists [], (dev_peers d). by destruct d. }
  assert (Hstep : ∃ i' peers1,
            devStep JSON_parse JSON_stringify deviceId i d
            = (mkDevice (run JSON_parse JSON_stringify i' (dev_ble d)).1
                 peers1 (dev_listener d),
               (run JSON_parse JSON_stringify i' (dev_ble d)).2)
            ∧ ∀ rest st,
                run JSON_parse JSON_stringify (i' ++ rest) st
                = let '(s1, e1) := run JSON_parse JSON_stringify i' st in
                  let '(s2, e2) := run JSON_parse JSON_stringify rest s1 in
                  (s2, e1 ++ e2)).
  { destruct i as [now env c|i]; cbn [devStep].
    - unfold onFrame. destruct (dev_listener d) as [captured|] eqn:Hl.
      + exists [InChunk (listenerEnv captured env) c]. eexists.
        cbn [run step]. split.
        * destruct (handleIncomingChunk _ _ _ c (dev_ble d)) as [s e].
          cbn [fst snd]. by rewrite app_nil_r.
        * intros rest st. cbn [app run step].
          destruct (handleIncomingChunk _ _ _ c st) as [s e].
          destruct (run _ _ rest s) as [s2 e2]. by rewrite app_nil_r.
      + exists [], (dev_peers d). rewrite <- Hl. split; [by destruct d|].
        intros rest st. cbn [app run]. by destruct (run _ _ rest st).
    - exists [i], (dev_peers d). unfold onLocal. cbn [run]. split.
      + destruct (step _ _ i (dev_ble d)) as [s e].
        cbn [fst snd]. by rewrite app_nil_r.
      + intros rest st. cbn [app run].
        destruct (step _ _ i st) as [s e].
        destruct (run _ _ rest s) as [s2 e2]. by rewrite app_nil_r. }
  destruct Hstep as (i' & peers1 & Hs & Happ).
  cbn [devRun]. rewrite Hs.
  destruct (IH (mkDevice (run JSON_parse JSON_stringify i' (dev_ble d)).1
                  peers1 (dev_listener d))) as (rest & peers2 & ->).
  cbn [dev_ble dev_listener].
  exists (i' ++ rest), peers2. rewrite Happ.
  destruct (run _ _ i' (dev_ble d)) as [s1 e1]. cbn [fst snd].
  by destruct (run _ _ rest s1).
Qed.

(** X4: whatever this device broadcasts it never receives: once
    [broadcastMessage] has queued a message under an id, a frame carrying
    that id changes nothing in the provider's refs and triggers no effect,
    whatever else the device handles in between short of a full reset;
    this includes the acknowledgement or response that reuses the id.  Such
    a frame leaves the peer table alone too unless its payload reads as a
    heartbeat, which touches, at most, the time stamp of the peer it
    names. *)
Theorem own_broadcast_never_received
    JSON_parse JSON_stringify deviceId newId message inputs now env c d :
  ck_id c = newId →
  let d1 :=
    (onLocal JSON_parse JSON_stringify (InBroadcast newId message) d).1 in
  let d2 := (devRun JSON_parse JSON_stringify deviceId inputs d1).1 in
  let r := onFrame JSON_parse JSON_stringify deviceId now env c d2 in
  r.2 = []
  ∧ dev_ble r.1 = dev_ble d2
  ∧ (∀ p, heartbeatPeer c ≠ Some p →
       dev_peers r.1 !! p = dev_peers d2 !! p)
  ∧ (isHeartbeat c = false → r.1 = d2).
Proof.
  intros Hid d1 d2 r.
  destruct (onFrame_settled JSON_parse JSON_stringify deviceId now env c d2)
    as (H1 & H2 & _ & H4 & H5); [|by repeat split].
  intros _ _. right. left.
  unfold d2.
  destruct (devRun_run JSON_parse JSON_stringify deviceId inputs d1)
    as (inputs' & peers' & ->).
  cbn [fst dev_ble].
  apply (run_own JSON_parse JSON_stringify inputs' (dev_ble d1)).
  unfold d1, onLocal. cbn [step].
  destruct (broadcastMessage_spec newId message (dev_ble d))
    as (_ & _ & Hown & _).
  destruct (broadcastMessage newId message (dev_ble d)) as [s e].
  cbn [fst dev_ble] in *. rewrite Hown, Hid.
  by apply elem_of_union_l, elem_of_singleton.
Qed.

Lemma own_broadcast_never_received_witness :
  let d1 :=
    (onLocal parseNothing stringifyId (InBroadcast 7 [104; 105]%Z)
       (mountDevice false)).1 in
  let d2 :=
    (devRun parseNothing stringifyId [100]%Z
       [DevLocal InTimer; DevLocal (InConnectivity true)] d1).1 in
  onFrame parseNothing stringifyId [100]%Z 5%Z offlineEnv ackFragment7 d2
    = (d2, []).
Proof.
  intros d1 d2.
  pose proof (own_broadcast_never_received parseNothing stringifyId [100]%Z
                7 [104; 105]%Z
                [DevLocal InTimer; DevLocal (InConnectivity true)] 5%Z
                offlineEnv ackFragment7 (mountDevice false) eq_refl) as H.
  cbv zeta in H. destruct H as (H1 & _ & _ & H4).
  specialize (H4 eq_refl). unfold d2, d1.
  destruct (onFrame parseNothing stringifyId [100]%Z 5%Z offlineEnv
              ackFragment7 _) as [x y].
  cbn [fst snd] in H1, H4. by rewrite H1, H4.
Defined.

(** * Responses while offline *)

(** X5: a response, at a handler that reads the device as offline and has
    not sent a response to this query on before: the text is handed to the
    callback (when one is registered and the text is not empty), the key
    [response-<id>] enters the rebroadcast set, and exactly one rebroadcast
    is enqueued: the message is encoded anew under a fresh message id and
    put in the queue behind the entries already there, all of which stay,
    and the scheduler runs.  After that, whatever else happens short of a
    full reset, a response with that query id is handed to the callback
    and nothing more: no state changes and nothing is enqueued. *)
Theorem offline_response_rebroadcast_once JSON_parse JSON_stringify env m st :
  rm_type m = RELAY_RESPONSE →
  hasInternet env = false →
  responseKey (query_id m) ∉ rebroadcastedQueryIds st →
  let chunks :=
    encodeMessageToChunks (JSON_stringify m) (freshId env) false in
  let st1 := (handleRelayMessage JSON_stringify env m st).1 in
  (handleRelayMessage JSON_stringify env m st).2
    = deliveredTo st m ++ [EvEnqueue (freshId env) chunks]
  ∧ rebroadcastedQueryIds st1
    = {[responseKey (query_id m)]} ∪ rebroadcastedQueryIds st
  ∧ (freshId env, chunks) ∈ broadcastQueue st1
  ∧ (∀ kv, kv ∈ broadcastQueue st → kv.1 ≠ freshId env →
       kv ∈ broadcastQueue st1)
  ∧ (freshId env ∉ (broadcastQueue st).*1 →
     broadcastQueue st1 = broadcastQueue st ++ [(freshId env, chunks)])
  ∧ masterInterval st1 = true
  ∧ ∀ inputs env' m',
      rm_type m' = RELAY_RESPONSE → query_id m' = query_id m →
      let st2 := (run JSON_parse JSON_stringify inputs st1).1 in
      handleRelayMessage JSON_stringify env' m' st2
      = (st2, deliveredTo st2 m').
Proof.
  intros Ht Hoff Hr chunks st1.
  set (s0 := set_rebroadcastedQueryIds
               ({[responseKey (query_id m)]} ∪ rebroadcastedQueryIds st) st).
  assert (Hrun : handleRelayMessage JSON_stringify env m st
            = ((broadcastMessage (freshId env) (JSON_stringify m) s0).1,
               deliveredTo st m
               ++ (broadcastMessage (freshId env) (JSON_stringify m) s0).2)).
  { unfold handleRelayMessage, deliveredTo. rewrite Ht, Hoff.
    rewrite (bool_decide_eq_false_2 _ Hr). cbn [negb andb]. fold s0.
    by destruct (broadcastMessage _ _ s0). }
  destruct (broadcastMessage_spec (freshId env) (JSON_stringify m) s0)
    as (Hev & _ & _ & _ & _ & _ & Hreb & _).
  destruct (broadcastMessage_queued (freshId env) (JSON_stringify m) s0)
    as (Q1 & Q2 & Q3 & Q4 & _).
  unfold st1. rewrite Hrun. cbn [fst snd]. rewrite Hev, Hreb.
  split; [done|]. split; [done|]. split; [exact Q1|]. split; [exact Q2|].
  split; [exact Q3|]. split; [exact Q4|].
  intros inputs env' m' Ht' Hid.
  set (st2 := (run JSON_parse JSON_stringify inputs _).1).
  assert (Hin : responseKey (query_id m') ∈ rebroadcastedQueryIds st2).
  { rewrite Hid. unfold st2.
    destruct (run_dedup JSON_parse JSON_stringify inputs
                (broadcastMessage (freshId env) (JSON_stringify m) s0).1)
      as [_ Hsub].
    apply Hsub. rewrite Hreb. by apply elem_of_union_l, elem_of_singleton. }
  unfold handleRelayMessage, deliveredTo. rewrite Ht'.
  rewrite (bool_decide_eq_true_2 _ Hin). cbn [negb]. by rewrite andb_false_r.
Qed.

Lemma offline_response_rebroadcast_once_witness :
  let m := responseMessage "q1" [52; 50]%Z in
  let chunks := encodeMessageToChunks (stringifyId m) 9 false in
  let st := onRelayResponse twoQueued in
  let st1 := (handleRelayMessage stringifyId offlineEnv m st).1 in
  (handleRelayMessage stringifyId offlineEnv m st).2
    = [EvCallback "q1" [52; 50]%Z; EvEnqueue 9 chunks]
  ∧ broadcastQueue st1 = broadcastQueue twoQueued ++ [(9, chunks)]
  ∧ handleRelayMessage stringifyId offlineEnv m st1
    = (st1, [EvCallback "q1" [52; 50]%Z]).
Proof.
  intros m chunks st st1.
  destruct (offline_response_rebroadcast_once parseNothing stringifyId
              offlineEnv m st)
    as (H1 & _ & _ & _ & H5 & _ & H7).
  - reflexivity.
  - reflexivity.
  - apply (bool_decide_unpack _). vm_compute. exact I.
  - split; [exact H1|]. split.
    { apply H5. apply (bool_decide_unpack _). vm_compute. exact I. }
    exact (H7 [] offlineEnv m eq_refl eq_refl).
Defined.

(** * The full reset *)

(** X7: [clearAllAndStop] empties every ref of the reassembly, queue and
    relay state except the registered response callback, leaves the peer
    table as it is, disarms the timer and stops the scanner: no frame is
    handled until the scanner is started again, 500 ms later.  The new
    listener reads as [hasInternet] the value of the render the reset was
    called from, whatever the device's connectivity when a frame arrives.
    After the reset a query read as offline is rebroadcast whatever was
    known of it before, and a frame that is no heartbeat is tracked as
    received whatever id it carries, formerly own or not. *)
Theorem full_reset_forgets
    JSON_parse JSON_stringify deviceId now online env d :
  let cleared := (clearDevice d).1 in
  let d' := restartScanner online cleared in
  (clearDevice d).2 = [EvStopBle]
  ∧ dev_ble cleared
    = set_relayResponseCallback (relayResponseCallback (dev_ble d))
        initialState
  ∧ dev_peers d' = dev_peers d
  ∧ timerFires (dev_ble cleared) = (dev_ble cleared, [])
  ∧ (∀ c, onFrame JSON_parse JSON_stringify deviceId now env c cleared
          = (cleared, []))
  ∧ (∀ c, onFrame JSON_parse JSON_stringify deviceId now env c d'
          = (mkDevice
               (handleIncomingChunk JSON_parse JSON_stringify
                  (listenerEnv online env) c (dev_ble cleared)).1
               (noteHeartbeat deviceId now c (dev_peers d)) (Some online),
             (handleIncomingChunk JSON_parse JSON_stringify
                (listenerEnv online env) c (dev_ble cleared)).2))
  ∧ (∀ env' m,
       rm_type m = RELAY_QUERY → hasInternet env' = false →
       (handleRelayMessage JSON_stringify env' m (dev_ble cleared)).2
       = [EvEnqueue (freshId env')
            (encodeMessageToChunks (JSON_stringify m) (freshId env') false)])
  ∧ (∀ c, isHeartbeat c = false →
       ck_id c ∈ receivedMessageIds (trackChunk c (dev_ble cleared)).1).
Proof.
  intros cleared d'.
  split; [done|]. split; [done|]. split; [done|]. split; [done|].
  split; [done|].
  split.
  { intros c. by rewrite (onFrame_listening _ _ _ _ _ _ d' online). }
  split.
  - intros env' m Ht Hoff. unfold handleRelayMessage. rewrite Ht, Hoff.
    cbv zeta. rewrite decide_False by set_solver.
    rewrite decide_False by set_solver.
    apply broadcastMessage_events.
  - intros c Hh. rewrite trackChunk_accepted; [|done|set_solver].
    cbv zeta.
    assert (Hput : ∀ e,
              ck_id c ∈ receivedMessageIds
                (set_masterState
                   (<[ck_id c := e]> (masterState (dev_ble cleared)))
                   (set_receivedMessageIds
                      ({[ck_id c]} ∪ receivedMessageIds (dev_ble cleared))
                      (dev_ble cleared)))).
    { intros e. simpl. by apply elem_of_union_l, elem_of_singleton. }
    repeat (case_match; try apply Hput).
Qed.

Lemma full_reset_forgets_witness :
  let d := mkDevice twoQueued ({[ [112%Z] := 3%Z ]} : gmap Text Z) (Some false) in
  let d' := restartScanner true (clearDevice d).1 in
  dev_ble d' = initialState
  ∧ dev_peers d' = ({[ [112%Z] := 3%Z ]} : gmap Text Z)
  ∧ dev_listener d' = Some true
  ∧ (onFrame parseByTag stringifyByTag [100]%Z 9%Z offlineEnv
       (mkChunk 7 1 1 false [81; 113; 49; 0; 0; 0]%Z) d').2
    = [EvRelayFetch "q1"].
Proof.
  intros d d'.
  destruct (full_reset_forgets parseByTag stringifyByTag [100]%Z 9%Z true
              offlineEnv d) as (_ & H2 & H3 & _ & _ & H6 & _).
  split; [exact H2|]. split; [exact H3|]. split; [reflexivity|].
  fold d' in H6. by rewrite H6.
Defined.

(** * What the listener's flag rules out *)

(** Nothing that happens outside the listener calls the backend or touches
    the relay sets. *)
Lemma step_local JSON_parse JSON_stringify i st :
  localInput i →
  Forall (λ ev, ¬ isFetch ev) (step JSON_parse JSON_stringify i st).2
  ∧ processedRelayQueries (step JSON_parse JSON_stringify i st).1
    = processedRelayQueries st
  ∧ rebroadcastedQueryIds (step JSON_parse JSON_stringify i st).1
    = rebroadcastedQueryIds st
  ∧ querySenderMap (step JSON_parse JSON_stringify i st).1
    = querySenderMap st.
Proof.
  assert (Hb : ∀ newId message s,
            Forall (λ ev, ¬ isFetch ev) (broadcastMessage newId message s).2
            ∧ processedRelayQueries (broadcastMessage newId message s).1
              = processedRelayQueries s
            ∧ rebroadcastedQueryIds (broadcastMessage newId message s).1
              = rebroadcastedQueryIds s
            ∧ querySenderMap (broadcastMessage newId message s).1
              = querySenderMap s).
  { intros newId message s.
    destruct (broadcastMessage_spec newId message s)
      as (-> & _ & _ & _ & _ & -> & -> & -> & _).
    split; [plain_events|done]. }
  destruct i; cbn [step localInput]; intros Hl; [done|done|..].
  - unfold timerFires. destruct (masterInterval st); [|repeat split; try done; plain_events].
    destruct (tick_plain st) as [H1 H2]. split; [done|]. split; [done|].
    unfold tick. repeat (case_match; simpl; try done).
  - repeat split; try done; plain_events.
  - repeat split; try done; plain_events.
  - apply Hb.
  - unfold relayQuery. destruct (hasInternet env); [repeat split; try done; plain_events|].
    apply Hb.
  - apply Hb.
  - repeat split; try done; plain_events.
  - unfold onConnectivityChange. destruct online; [|repeat split; try done; plain_events].
    destruct (_ && _); simpl; repeat split; try done; plain_events.
Qed.

(** X8: the backend is called from the listener only, and only by a
    listener that was registered from an online render.  A device whose
    listener was registered from an offline render (or that has none)
    sends no request to the backend and marks no query as processed,
    whatever frames it receives, whatever its connectivity when they
    arrive, and whatever timer ticks, connectivity changes and calls of the
    exported functions happen in between, until a reset registers another
    listener. *)
Theorem listener_offline_never_fetches
    JSON_parse JSON_stringify deviceId inputs d :
  dev_listener d ≠ Some true →
  Forall localDeviceInput inputs →
  let r := devRun JSON_parse JSON_stringify deviceId inputs d in
  Forall (λ ev, ¬ isFetch ev) r.2
  ∧ processedRelayQueries (dev_ble r.1) = processedRelayQueries (dev_ble d)
  ∧ dev_listener r.1 = dev_listener d.
Proof.
  revert d. induction inputs as [|i inputs IH]; intros d Hl Hall; simpl.
  { by repeat split. }
  apply Forall_cons in Hall as [Hi Hall].
  assert (Hstep : Forall (λ ev, ¬ isFetch ev)
                    (devStep JSON_parse JSON_stringify deviceId i d).2
                  ∧ processedRelayQueries
                      (dev_ble (devStep JSON_parse JSON_stringify deviceId
                                  i d).1)
                    = processedRelayQueries (dev_ble d)
                  ∧ dev_listener
                      (devStep JSON_parse JSON_stringify deviceId i d).1
                    = dev_listener d).
  { destruct i as [now env c|i]; cbn [devStep].
    - unfold onFrame.
      destruct (dev_listener d) as [[|]|] eqn:Hcap; [done| |by repeat split].
      destruct (step_offline JSON_parse JSON_stringify
                  (InChunk (listenerEnv false env) c) (dev_ble d) eq_refl)
        as [H1 H2].
      cbn [step] in H1, H2.
      destruct (handleIncomingChunk _ _ _ c (dev_ble d)) as [s e].
      by repeat split.
    - unfold onLocal.
      destruct (step_local JSON_parse JSON_stringify i (dev_ble d) Hi)
        as (H1 & H2 & _).
      destruct (step _ _ i (dev_ble d)) as [s e]. by repeat split. }
  destruct Hstep as (H1 & H2 & H3).
  destruct (devStep _ _ _ i d) as [d1 ev1]. cbn [fst snd] in *.
  destruct (IH d1) as (H4 & H5 & H6); [by rewrite H3|done|].
  destruct (devRun _ _ _ inputs d1) as [d2 ev2]. cbn [fst snd] in *.
  split; [by apply Forall_app|]. split; [by rewrite H5|by rewrite H6].
Qed.

Lemma listener_offline_never_fetches_witness :
  let online := onlineEnv (HttpOk true (Some [52; 50]%Z)) in
  let r :=
    devRun parseByTag stringifyByTag [100]%Z
      [DevFrame 5%Z online (mkChunk 7 1 1 false [81; 113; 49; 0; 0; 0]%Z);
       DevLocal InTimer]
      (mountDevice false) in
  Forall (λ ev, ¬ isFetch ev) r.2
  ∧ processedRelayQueries (dev_ble r.1) = ∅
  ∧ "q1" ∈ rebroadcastedQueryIds (dev_ble r.1).
Proof.
  intros online r.
  destruct (listener_offline_never_fetches parseByTag stringifyByTag
              [100]%Z
              [DevFrame 5%Z online
                 (mkChunk 7 1 1 false [81; 113; 49; 0; 0; 0]%Z);
               DevLocal InTimer]
              (mountDevice false)) as (H1 & H2 & _).
  - discriminate.
  - repeat constructor.
  - split; [exact H1|]. split; [exact H2|].
    apply (bool_decide_unpack _). vm_compute. exact I.
Defined.

(** X9: a query or a response is sent on from the listener only, and only
    by a listener that was registered from an offline render.  A device
    whose listener was registered from an online render (or that has none)
    adds nothing to the rebroadcast set and nothing to the sender map,
    whatever frames it receives, whatever its connectivity when they
    arrive, and whatever happens outside the listener in between, until a
    reset registers another listener. *)
Theorem listener_online_never_rebroadcasts
    JSON_parse JSON_stringify deviceId inputs d :
  dev_listener d ≠ Some false →
  Forall localDeviceInput inputs →
  let r := devRun JSON_parse JSON_stringify deviceId inputs d in
  rebroadcastedQueryIds (dev_ble r.1) = rebroadcastedQueryIds (dev_ble d)
  ∧ querySenderMap (dev_ble r.1) = querySenderMap (dev_ble d)
  ∧ dev_listener r.1 = dev_listener d.
Proof.
  revert d. induction inputs as [|i inputs IH]; intros d Hl Hall; simpl.
  { by repeat split. }
  apply Forall_cons in Hall as [Hi Hall].
  assert (Hstep : rebroadcastedQueryIds
                    (dev_ble (devStep JSON_parse JSON_stringify deviceId
                                i d).1)
                  = rebroadcastedQueryIds (dev_ble d)
                  ∧ querySenderMap
                      (dev_ble (devStep JSON_parse JSON_stringify deviceId
                                  i d).1)
                    = querySenderMap (dev_ble d)
                  ∧ dev_listener
                      (devStep JSON_parse JSON_stringify deviceId i d).1
                    = dev_listener d).
  { destruct i as [now env c|i]; cbn [devStep].
    - unfold onFrame.
      destruct (dev_listener d) as [[|]|] eqn:Hcap; [|done|by repeat split].
      destruct (step_online JSON_parse JSON_stringify
                  (InChunk (listenerEnv true env) c) (dev_ble d) eq_refl)
        as [H1 H2].
      cbn [step] in H1, H2.
      destruct (handleIncomingChunk _ _ _ c (dev_ble d)) as [s e].
      by repeat split.
    - unfold onLocal.
      destruct (step_local JSON_parse JSON_stringify i (dev_ble d) Hi)
        as (_ & _ & H1 & H2).
      destruct (step _ _ i (dev_ble d)) as [s e]. by repeat split. }
  destruct Hstep as (H1 & H2 & H3).
  destruct (devStep _ _ _ i d) as [d1 ev1]. cbn [fst snd] in *.
  destruct (IH d1) as (H4 & H5 & H6); [by rewrite H3|done|].
  destruct (devRun _ _ _ inputs d1) as [d2 ev2]. cbn [fst snd] in *.
  split; [by rewrite H4|]. split; [by rewrite H5|by rewrite H6].
Qed.

Lemma listener_online_never_rebroadcasts_witness :
  let r :=
    devRun parseByTag stringifyByTag [100]%Z
      [DevFrame 5%Z offlineEnv (mkChunk 7 1 1 false [81; 113; 49; 0; 0; 0]%Z);
       DevLocal (InRelayQuery offlineEnv "q2" [104; 105]%Z assistant None
                   "d1" None)]
      (mountDevice true) in
  rebroadcastedQueryIds (dev_ble r.1) = ∅
  ∧ "q1" ∈ processedRelayQueries (dev_ble r.1).
Proof.
  intros r.
  destruct (listener_online_never_rebroadcasts parseByTag stringifyByTag
              [100]%Z
              [DevFrame 5%Z offlineEnv
                 (mkChunk 7 1 1 false [81; 113; 49; 0; 0; 0]%Z);
               DevLocal (InRelayQuery offlineEnv "q2" [104; 105]%Z assistant
                           None "d1" None)]
              (mountDevice true)) as (H1 & _).
  - discriminate.
  - repeat constructor.
  - split; [exact H1|].
    apply (bool_decide_unpack _). vm_compute. exact I.
Defined.

(** * A message across the mesh *)

(** What the dispatch of a complete relay message does, whatever the
    flag: the message goes to [handleRelayMessage]. *)
Lemma dispatch_relay JSON_parse JSON_stringify env id m st :
  JSON_parse (JSON_stringify m) = Relay m →
  dispatchComplete JSON_parse JSON_stringify env
    (mkCompletion id false (JSON_stringify m)) st
  = handleRelayMessage JSON_stringify env m st.
Proof.
  intros Hp. unfold dispatchComplete, handleApiResponse. simpl.
  rewrite Hp. by destruct (hasInternet env).
Qed.

(** Frames that reach a listener one after the other. *)
Lemma devRun_frames JSON_parse JSON_stringify deviceId now env
    (heard : list Chunk) d captured :
  dev_listener d = Some captured →
  ∃ peers',
    devRun JSON_parse JSON_stringify deviceId
      ((λ c, DevFrame now env c) <$> heard) d
    = (mkDevice
         (deliver JSON_parse JSON_stringify
            ((λ c, (listenerEnv captured env, c)) <$> heard) (dev_ble d)).1
         peers' (Some captured),
       (deliver JSON_parse JSON_stringify
          ((λ c, (listenerEnv captured env, c)) <$> heard) (dev_ble d)).2).
Proof.
  revert d. induction heard as [|c heard IH]; intros d Hl.
  { exists (dev_peers d). rewrite <- Hl. by destruct d. }
  rewrite !fmap_cons. cbn [devRun devStep deliver].
  rewrite (onFrame_listening _ _ _ _ _ _ _ _ Hl).
  destruct (handleIncomingChunk _ _ _ c (dev_ble d)) as [s e].
  cbn [fst snd].
  destruct (IH (mkDevice s (noteHeartbeat deviceId now c (dev_peers d))
                  (Some captured)) eq_refl) as [peers' ->].
  cbn [dev_ble]. exists peers'.
  by destruct (deliver _ _ _ s).
Qed.

(** The fragments of a relay message, received in any order under an
    unknown message id, end in [handleRelayMessage] on a state that differs
    from the first in the tracker's tables only. *)
Lemma deliver_relay JSON_parse JSON_stringify
    (m : RelayMessage) id (env : Env) (heard : list Chunk) st :
  JSON_parse (JSON_stringify m) = Relay m →
  cleanText (JSON_stringify m) →
  masterState st !! id = None → id ∉ ownMessageIds st →
  heard ≡ₚ encodeMessageToChunks (JSON_stringify m) id false →
  ∃ st2,
    deliver JSON_parse JSON_stringify ((λ c, (env, c)) <$> heard) st
      = handleRelayMessage JSON_stringify env m st2
    ∧ processedRelayQueries st2 = processedRelayQueries st
    ∧ rebroadcastedQueryIds st2 = rebroadcastedQueryIds st
    ∧ relayResponseCallback st2 = relayResponseCallback st
    ∧ broadcastQueue st2 = broadcastQueue st.
Proof.
  intros Hp Hz Hm Hown Hheard.
  destruct (deliver_dispatch JSON_parse JSON_stringify (JSON_stringify m)
              id false ((λ c, (env, c)) <$> heard) st Hz Hm Hown)
    as (env' & st2 & Henv & Hd & S1 & S2 & S3 & _ & _ & S6 & _).
  { rewrite <- list_fmap_compose. by rewrite list_fmap_id. }
  rewrite <- list_fmap_compose in Henv.
  apply list_elem_of_fmap in Henv as (c & -> & _). simpl in Hd.
  exists st2. by rewrite Hd, (dispatch_relay _ _ _ _ _ _ Hp).
Qed.

(** A query at a handler that reads the device as online. *)
Lemma query_effects JSON_stringify env (m : RelayMessage) st :
  rm_type m = RELAY_QUERY →
  hasInternet env = true →
  query_id m ∉ processedRelayQueries st →
  query_id m ∉ rebroadcastedQueryIds st →
  let reply answer :=
    encodeMessageToChunks
      (JSON_stringify (responseMessage (query_id m) answer))
      (freshId env) false in
  let out := handleRelayMessage JSON_stringify env m st in
  out.2 = EvRelayFetch (query_id m)
            :: match backendAnswer (backend env) with
               | Some answer => [EvEnqueue (freshId env) (reply answer)]
               | None => []
               end
  ∧ processedRelayQueries out.1 = {[query_id m]} ∪ processedRelayQueries st
  ∧ rebroadcastedQueryIds out.1 = rebroadcastedQueryIds st
  ∧ broadcastQueue out.1
    = match backendAnswer (backend env) with
      | Some answer =>
          queueSet (freshId env) (reply answer) (broadcastQueue st)
      | None => broadcastQueue st
      end
  ∧ (is_Some (backendAnswer (backend env)) → masterInterval out.1 = true).
Proof.
  intros Ht Hnet Hproc Hreb reply out. unfold out, handleRelayMessage.
  rewrite Ht, Hnet. rewrite decide_False by done.
  rewrite decide_False by done. cbv zeta.
  set (st1 := set_processedRelayQueries _ st).
  assert (Hnone : backendAnswer (backend env) = None →
            ∀ r, r = (st1, [EvRelayFetch (query_id m)]) →
            r.2 = EvRelayFetch (query_id m)
                    :: match backendAnswer (backend env) with
                       | Some answer =>
                           [EvEnqueue (freshId env) (reply answer)]
                       | None => []
                       end
            ∧ processedRelayQueries r.1
              = {[query_id m]} ∪ processedRelayQueries st
            ∧ rebroadcastedQueryIds r.1 = rebroadcastedQueryIds st
            ∧ broadcastQueue r.1
              = match backendAnswer (backend env) with
                | Some answer =>
                    queueSet (freshId env) (reply answer) (broadcastQueue st)
                | None => broadcastQueue st
                end
            ∧ (is_Some (backendAnswer (backend env)) →
               masterInterval r.1 = true)).
  { intros -> r ->. repeat split; try done; by intros [x Hx]. }
  destruct (backend env) as [| |success result] eqn:Hb;
    [by apply Hnone..|].
  destruct success; [|by apply Hnone].
  cbn [backendAnswer] in *.
  destruct (truthy result) as [answer|]; [|by apply Hnone].
  unfold relayResponse.
  destruct (broadcastMessage_spec (freshId env)
              (JSON_stringify (responseMessage (query_id m) answer)) st1)
    as (B1 & B2 & _ & _ & B5 & B6 & B7 & _).
  destruct (broadcastMessage _ _ st1) as [st4 ev]. cbn [fst snd] in *.
  by rewrite B1, B2, B6, B7.
Qed.

(** X21: a device whose listener was registered from an online render
    receives, in any order, the fragments of a relay query.  The message is
    such that the platform's JSON reads back what it wrote and the text is
    clean (well-formed UTF-8, no byte order mark in front, no U+0000); its
    message id is neither stored nor one of the device's own, and its query
    id is in neither dedup set.  Then, whatever the device's connectivity
    when the frames arrive and whatever the backend answers, exactly one
    request goes to the backend, the query id is marked processed and the
    rebroadcast set stays as it is.  When the backend returns success with
    a response that is not empty, the response to the same query id is
    queued under a fresh message id and the scheduler runs; otherwise
    nothing is queued. *)
Theorem gateway_answers_query JSON_parse JSON_stringify deviceId now
    (m : RelayMessage) id (env : Env) (heard : list Chunk) d :
  dev_listener d = Some true →
  JSON_parse (JSON_stringify m) = Relay m →
  cleanText (JSON_stringify m) →
  rm_type m = RELAY_QUERY →
  masterState (dev_ble d) !! id = None →
  id ∉ ownMessageIds (dev_ble d) →
  query_id m ∉ processedRelayQueries (dev_ble d) →
  query_id m ∉ rebroadcastedQueryIds (dev_ble d) →
  heard ≡ₚ encodeMessageToChunks (JSON_stringify m) id false →
  let reply answer :=
    encodeMessageToChunks
      (JSON_stringify (responseMessage (query_id m) answer))
      (freshId env) false in
  let out :=
    devRun JSON_parse JSON_stringify deviceId
      ((λ c, DevFrame now env c) <$> heard) d in
  out.2 = EvRelayFetch (query_id m)
            :: match backendAnswer (backend env) with
               | Some answer => [EvEnqueue (freshId env) (reply answer)]
               | None => []
               end
  ∧ query_id m ∈ processedRelayQueries (dev_ble out.1)
  ∧ rebroadcastedQueryIds (dev_ble out.1)
    = rebroadcastedQueryIds (dev_ble d)
  ∧ (∀ answer, backendAnswer (backend env) = Some answer →
       (freshId env, reply answer) ∈ broadcastQueue (dev_ble out.1)
       ∧ masterInterval (dev_ble out.1) = true)
  ∧ (backendAnswer (backend env) = None →
     broadcastQueue (dev_ble out.1) = broadcastQueue (dev_ble d)).
Proof.
  intros Hl Hp Hz Ht Hm Hown Hproc Hreb Hheard reply out.
  destruct (devRun_frames JSON_parse JSON_stringify deviceId now env heard
              d true Hl) as [peers' Hrun].
  destruct (deliver_relay JSON_parse JSON_stringify m id
              (listenerEnv true env) heard (dev_ble d) Hp Hz Hm Hown Hheard)
    as (st2 & Hd & S1 & S2 & _ & S4).
  destruct (query_effects JSON_stringify (listenerEnv true env) m st2 Ht
              eq_refl) as (E1 & E2 & E3 & E4 & E5).
  { by rewrite S1. }
  { by rewrite S2. }
  rewrite <- Hd in E1, E2, E3, E4, E5.
  unfold out. rewrite Hrun. cbn [fst snd dev_ble].
  cbn [listenerEnv backend freshId] in E1, E4, E5.
  split; [exact E1|]. split.
  { rewrite E2. by apply elem_of_union_l, elem_of_singleton. }
  split; [by rewrite E3, S2|]. split.
  - intros answer Ha. rewrite Ha in E4, E5. rewrite E4.
    split; [apply queueSet_elem|]. apply E5. by eexists.
  - intros Ha. rewrite Ha in E4. by rewrite E4, S4.
Qed.

Lemma gateway_answers_query_witness :
  let env := mkEnv false 9 (HttpOk true (Some [52; 50]%Z)) StoreFetchRejects in
  let heard := reverse (encodeMessageToChunks (stringifyByTag queryQ1) 7 false) in
  let reply :=
    encodeMessageToChunks
      (stringifyByTag (responseMessage "q1" [52; 50]%Z)) 9 false in
  let out :=
    devRun parseByTag stringifyByTag [100]%Z
      ((λ c, DevFrame 5%Z env c) <$> heard) (mountDevice true) in
  out.2 = [EvRelayFetch "q1"; EvEnqueue 9 reply]
  ∧ "q1" ∈ processedRelayQueries (dev_ble out.1)
  ∧ (9, reply) ∈ broadcastQueue (dev_ble out.1).
Proof.
  intros env heard reply out.
  destruct (gateway_answers_query parseByTag stringifyByTag [100]%Z 5%Z
              queryQ1 7 env heard (mountDevice true))
    as (H1 & H2 & _ & H4 & _);
    try reflexivity;
    try (apply (bool_decide_unpack _); vm_compute; exact I).
  split; [exact H1|]. split; [exact H2|].
  exact (proj1 (H4 [52; 50]%Z eq_refl)).
Defined.

(** The effects of a response with a text on a device with a callback. *)
Lemma response_effects JSON_stringify env (m : RelayMessage) text st :
  rm_type m = RELAY_RESPONSE →
  response m = Some text → text ≠ [] →
  relayResponseCallback st = true →
  (handleRelayMessage JSON_stringify env m st).2
  = EvCallback (query_id m) text
      :: (if negb (hasInternet env)
             && negb (bool_decide
                        (responseKey (query_id m) ∈ rebroadcastedQueryIds st))
          then [EvEnqueue (freshId env)
                  (encodeMessageToChunks (JSON_stringify m) (freshId env)
                     false)]
          else []).
Proof.
  intros Ht Hr Htext Hcb.
  unfold handleRelayMessage. rewrite Ht, Hcb, Hr.
  destruct text as [|x text]; [done|]. cbn [truthy].
  destruct (negb (hasInternet env) && _); [|done].
  set (st3 := set_rebroadcastedQueryIds _ st).
  pose proof (broadcastMessage_events (freshId env) (JSON_stringify m) st3)
    as Hev.
  destruct (broadcastMessage _ _ st3) as [st4 ev]. simpl in *. by subst ev.
Qed.

(** What a response does to the state: the rebroadcast, when the handler
    reads the device as offline and the key is new, and nothing otherwise. *)
Lemma response_state JSON_stringify env (m : RelayMessage) st :
  rm_type m = RELAY_RESPONSE →
  let chunks :=
    encodeMessageToChunks (JSON_stringify m) (freshId env) false in
  let again :=
    negb (hasInternet env)
    && negb (bool_decide
               (responseKey (query_id m) ∈ rebroadcastedQueryIds st)) in
  let st' := (handleRelayMessage JSON_stringify env m st).1 in
  (again = true →
     (freshId env, chunks) ∈ broadcastQueue st'
     ∧ (∀ kv, kv ∈ broadcastQueue st → kv.1 ≠ freshId env →
          kv ∈ broadcastQueue st')
     ∧ masterInterval st' = true
     ∧ rebroadcastedQueryIds st'
       = {[responseKey (query_id m)]} ∪ rebroadcastedQueryIds st)
  ∧ (again = false → st' = st).
Proof.
  intros Ht chunks again st'. unfold st', handleRelayMessage. rewrite Ht.
  cbv zeta. fold again. split; intros ->; [|done].
  set (s0 := set_rebroadcastedQueryIds _ st).
  destruct (broadcastMessage_spec (freshId env) (JSON_stringify m) s0)
    as (_ & _ & _ & _ & _ & _ & Hreb & _).
  destruct (broadcastMessage_queued (freshId env) (JSON_stringify m) s0)
    as (Q1 & Q2 & _ & Q4 & _).
  destruct (broadcastMessage _ _ s0) as [st4 ev]. cbn [fst snd] in *.
  by rewrite Hreb.
Qed.

(** X22: a device with a registered response callback receives, in any
    order, the fragments of a relay response whose text is not empty.  The
    message is such that the platform's JSON reads back what it wrote and
    the text is clean (well-formed UTF-8, no byte order mark in front, no
    U+0000); its message id is neither stored nor one of the device's own.
    Then the callback is called exactly once, with the query id and the
    response text, whatever the device's connectivity.  When the listener
    was registered from an offline render and the device has not sent a
    response to this query on before, one rebroadcast of the response is
    enqueued as well: the message encoded under a fresh message id is in
    the queue, the earlier entries stay, the scheduler runs and the key
    [response-<id>] joins the rebroadcast set.  Otherwise nothing else
    happens: the queue and the rebroadcast set are as they were. *)
Theorem requester_gets_answer JSON_parse JSON_stringify deviceId now
    (m : RelayMessage) id (env : Env) (heard : list Chunk) text captured d :
  dev_listener d = Some captured →
  JSON_parse (JSON_stringify m) = Relay m →
  cleanText (JSON_stringify m) →
  rm_type m = RELAY_RESPONSE →
  response m = Some text → text ≠ [] →
  relayResponseCallback (dev_ble d) = true →
  masterState (dev_ble d) !! id = None →
  id ∉ ownMessageIds (dev_ble d) →
  heard ≡ₚ encodeMessageToChunks (JSON_stringify m) id false →
  let chunks :=
    encodeMessageToChunks (JSON_stringify m) (freshId env) false in
  let again :=
    negb captured
    && negb (bool_decide
               (responseKey (query_id m)
                  ∈ rebroadcastedQueryIds (dev_ble d))) in
  let out :=
    devRun JSON_parse JSON_stringify deviceId
      ((λ c, DevFrame now env c) <$> heard) d in
  out.2 = EvCallback (query_id m) text
            :: (if again then [EvEnqueue (freshId env) chunks] else [])
  ∧ (again = true →
     (freshId env, chunks) ∈ broadcastQueue (dev_ble out.1)
     ∧ (∀ kv, kv ∈ broadcastQueue (dev_ble d) → kv.1 ≠ freshId env →
          kv ∈ broadcastQueue (dev_ble out.1))
     ∧ masterInterval (dev_ble out.1) = true
     ∧ rebroadcastedQueryIds (dev_ble out.1)
       = {[responseKey (query_id m)]} ∪ rebroadcastedQueryIds (dev_ble d))
  ∧ (again = false →
     broadcastQueue (dev_ble out.1) = broadcastQueue (dev_ble d)
     ∧ rebroadcastedQueryIds (dev_ble out.1)
       = rebroadcastedQueryIds (dev_ble d)).
Proof.
  intros Hl Hp Hz Ht Hr Htext Hcb Hm Hown Hheard chunks again out.
  destruct (devRun_frames JSON_parse JSON_stringify deviceId now env heard
              d captured Hl) as [peers' Hrun].
  destruct (deliver_relay JSON_parse JSON_stringify m id
              (listenerEnv captured env) heard (dev_ble d) Hp Hz Hm Hown
              Hheard) as (st2 & Hd & _ & S2 & S3 & S4).
  destruct (response_state JSON_stringify (listenerEnv captured env) m st2 Ht)
    as [Hyes Hno].
  cbn [listenerEnv hasInternet freshId] in Hyes, Hno.
  rewrite S2, S4 in Hyes. rewrite S2 in Hno.
  fold chunks again in Hyes, Hno. rewrite <- Hd in Hyes, Hno.
  unfold out. rewrite Hrun. cbn [fst snd dev_ble]. split.
  - rewrite Hd.
    rewrite (response_effects JSON_stringify (listenerEnv captured env) m
               text st2 Ht Hr Htext); [|by rewrite S3].
    cbn [listenerEnv hasInternet freshId]. by rewrite S2.
  - split; [exact Hyes|]. intros Hag. rewrite (Hno Hag). by split.
Qed.

Lemma requester_gets_answer_witness :
  let m := responseMessage "q1" [52; 50]%Z in
  let chunks := encodeMessageToChunks (stringifyByTag m) 9 false in
  let heard := reverse (encodeMessageToChunks (stringifyByTag m) 5 false) in
  let d := mkDevice (onRelayResponse twoQueued) ∅ (Some false) in
  let online := onlineEnv NetworkFailure in
  let out :=
    devRun parseByTag stringifyByTag [100]%Z
      ((λ c, DevFrame 5%Z online c) <$> heard) d in
  out.2 = [EvCallback "q1" [52; 50]%Z; EvEnqueue 9 chunks]
  ∧ (9, chunks) ∈ broadcastQueue (dev_ble out.1)
  ∧ masterInterval (dev_ble out.1) = true.
Proof.
  intros m chunks heard d online out.
  destruct (requester_gets_answer parseByTag stringifyByTag [100]%Z 5%Z m 5
              online heard [52; 50]%Z false d)
    as (H1 & H2 & _);
    try reflexivity; try discriminate;
    try (apply (bool_decide_unpack _); vm_compute; exact I).
  destruct (H2 eq_refl) as (Q1 & _ & Q3 & _).
  split; [exact H1|]. split; [exact Q1|exact Q3].
Defined.

Lemma single_entry_air st id chunks :
  broadcastQueue st = [(id, chunks)] → chunks ≠ [] →
  ticks (chunkTotal (broadcastQueue st)) st
    = (set_broadcastCursor (currentCursor st) st,
       (ticks (chunkTotal (broadcastQueue st)) st).2)
  ∧ sentChunks (ticks (chunkTotal (broadcastQueue st)) st).2 ≡ₚ chunks.
Proof.
  intros Hq Hc.
  destruct (traversal_perm st) as [Hst Hperm].
  { by rewrite Hq. }
  { rewrite Hq. by repeat constructor. }
  split; [exact Hst|].
  unfold sentChunks. rewrite (omap_Permutation _ _ _ Hperm).
  fold (sentChunks (broadcastQueue st ≫= sendsOf)).
  rewrite sentChunks_sendsOf, Hq. simpl. by rewrite app_nil_r.
Qed.

(** X23: a question asked offline comes back answered.  The asking device
    calls [relayQuery] from an offline render, with an empty queue and a
    registered response callback; the second device has a listener that
    was registered from an online render, an empty queue, and a backend
    that returns success with an answer that is not empty.  The platform's
    JSON reads back both messages as written and both texts are clean
    (well-formed UTF-8, no byte order mark in front, no U+0000).  The two
    encoders draw different message ids, each neither stored nor own at
    the other device, and the query id is in neither dedup set of the
    second device.  If the second device receives, in any order, the chunks
    the first sends in one traversal of its queue, it sends one request to
    the backend and queues the answer; if the first, whatever flag its
    listener holds, then receives, in any order, the chunks the second
    sends in one traversal, its callback is called with the answer under
    the query id it asked with, and it sends no request to the backend. *)
Theorem mesh_round_trip JSON_parse JSON_stringify idR idG now
    (envR envG : Env) queryId queryText queryType loc dev sosData answer
    (dR dG : Device) capturedR (heardG heardR : list Chunk) :
  let mq := queryMessage queryId queryText queryType loc dev sosData in
  let mr := responseMessage queryId answer in
  JSON_parse (JSON_stringify mq) = Relay mq →
  JSON_parse (JSON_stringify mr) = Relay mr →
  cleanText (JSON_stringify mq) →
  cleanText (JSON_stringify mr) →
  hasInternet envR = false →
  dev_listener dR = Some capturedR →
  broadcastQueue (dev_ble dR) = [] →
  relayResponseCallback (dev_ble dR) = true →
  masterState (dev_ble dR) !! freshId envG = None →
  freshId envG ∉ ownMessageIds (dev_ble dR) →
  freshId envG ≠ freshId envR →
  dev_listener dG = Some true →
  backend envG = HttpOk true (Some answer) →
  answer ≠ [] →
  broadcastQueue (dev_ble dG) = [] →
  masterState (dev_ble dG) !! freshId envR = None →
  freshId envR ∉ ownMessageIds (dev_ble dG) →
  queryId ∉ processedRelayQueries (dev_ble dG) →
  queryId ∉ rebroadcastedQueryIds (dev_ble dG) →
  let asked :=
    (onLocal JSON_parse JSON_stringify
       (InRelayQuery envR queryId queryText queryType loc dev sosData)
       dR).1 in
  let airR := ticks (chunkTotal (broadcastQueue (dev_ble asked)))
                (dev_ble asked) in
  heardG ≡ₚ sentChunks airR.2 →
  let gate :=
    devRun JSON_parse JSON_stringify idG
      ((λ c, DevFrame now envG c) <$> heardG) dG in
  let airG := ticks (chunkTotal (broadcastQueue (dev_ble gate.1)))
                (dev_ble gate.1) in
  heardR ≡ₚ sentChunks airG.2 →
  let back :=
    devRun JSON_parse JSON_stringify idR
      ((λ c, DevFrame now envR c) <$> heardR)
      (mkDevice airR.1 (dev_peers asked) (dev_listener asked)) in
  gate.2
    = [EvRelayFetch queryId;
       EvEnqueue (freshId envG)
         (encodeMessageToChunks (JSON_stringify mr) (freshId envG) false)]
  ∧ broadcastQueue (dev_ble gate.1)
    = [(freshId envG,
        encodeMessageToChunks (JSON_stringify mr) (freshId envG) false)]
  ∧ ∃ rest, back.2 = EvCallback queryId answer :: rest
            ∧ Forall (λ ev, ¬ isFetch ev) rest.
Proof.
  intros mq mr Hpq Hpr Hzq Hzr HnetR HlR HqR Hcb HmR HownR Hids HlG Hb Ha
    HqG HmG HownG Hproc Hreb asked airR HheardG gate airG HheardR back.
  (* the asking device *)
  assert (Hasked : asked
            = mkDevice
                (broadcastMessage (freshId envR) (JSON_stringify mq)
                   (dev_ble dR)).1 (dev_peers dR) (dev_listener dR)).
  { unfold asked, onLocal. cbn [step]. unfold relayQuery. rewrite HnetR.
    by destruct (broadcastMessage _ _ (dev_ble dR)). }
  destruct (broadcastMessage_spec (freshId envR) (JSON_stringify mq)
              (dev_ble dR))
    as (_ & A2 & A3 & A4 & _ & _ & A7 & _ & A9 & _).
  assert (Hble : dev_ble asked
            = (broadcastMessage (freshId envR) (JSON_stringify mq)
                 (dev_ble dR)).1) by by rewrite Hasked.
  rewrite <- Hble in A2, A3, A4, A7, A9. rewrite HqR in A2. simpl in A2.
  destruct (single_entry_air (dev_ble asked) _ _ A2 (encode_nonempty _ _ _))
    as [HairR HsentR].
  fold airR in HairR, HsentR.
  (* the device with the online listener *)
  destruct (devRun_frames JSON_parse JSON_stringify idG now envG heardG dG
              true HlG) as [peersG HrunG].
  destruct (deliver_relay JSON_parse JSON_stringify mq (freshId envR)
              (listenerEnv true envG) heardG (dev_ble dG) Hpq Hzq HmG HownG)
    as (sG & HdG & G1 & G2 & _ & G4).
  { by rewrite HheardG, HsentR. }
  destruct (query_effects JSON_stringify (listenerEnv true envG) mq sG
              eq_refl eq_refl) as (E1 & _ & _ & E4 & _).
  { by rewrite G1. }
  { by rewrite G2. }
  rewrite <- HdG in E1, E4. cbn [listenerEnv backend freshId] in E1, E4.
  rewrite Hb in E1, E4. destruct answer as [|x answer]; [done|].
  cbn [backendAnswer truthy] in E1, E4.
  assert (Hgate2 : gate.2 = (deliver JSON_parse JSON_stringify
                    ((λ c, (listenerEnv true envG, c)) <$> heardG)
                    (dev_ble dG)).2) by (unfold gate; by rewrite HrunG).
  assert (Hgate1 : dev_ble gate.1 = (deliver JSON_parse JSON_stringify
                    ((λ c, (listenerEnv true envG, c)) <$> heardG)
                    (dev_ble dG)).1) by (unfold gate; by rewrite HrunG).
  rewrite <- Hgate2 in E1. rewrite <- Hgate1 in E4.
  split; [exact E1|].
  rewrite G4, HqG in E4. simpl in E4.
  split; [exact E4|].
  destruct (single_entry_air (dev_ble gate.1) _ _ E4 (encode_nonempty _ _ _))
    as [_ HsentG].
  fold airG in HsentG.
  (* back at the asking device *)
  set (dR2 := mkDevice airR.1 (dev_peers asked) (dev_listener asked)).
  assert (HlR2 : dev_listener dR2 = Some capturedR).
  { unfold dR2. cbn [dev_listener]. by rewrite Hasked. }
  destruct (devRun_frames JSON_parse JSON_stringify idR now envR heardR dR2
              capturedR HlR2) as [peersR HrunR].
  destruct (deliver_relay JSON_parse JSON_stringify mr (freshId envG)
              (listenerEnv capturedR envR) heardR (dev_ble dR2) Hpr Hzr)
    as (sR & HdR & _ & _ & R3 & _).
  { unfold dR2; cbn [dev_ble]. rewrite HairR. simpl. rewrite A4.
    by rewrite lookup_insert_ne. }
  { unfold dR2; cbn [dev_ble]. rewrite HairR. simpl. rewrite A3.
    intros [Hin|Hin]%elem_of_union; [|done].
    by apply elem_of_singleton in Hin. }
  { by rewrite HheardR, HsentG. }
  unfold back. fold dR2. rewrite HrunR. cbn [snd]. rewrite HdR.
  rewrite (response_effects JSON_stringify (listenerEnv capturedR envR) mr
             (x :: answer) sR eq_refl eq_refl).
  - eexists. split; [reflexivity|].
    destruct (_ && _); repeat constructor. by intros [].
  - done.
  - rewrite R3. unfold dR2; cbn [dev_ble]. rewrite HairR. simpl. by rewrite A9.
Qed.

Lemma mesh_round_trip_witness :
  let envR := mkEnv false 7 NetworkFailure StoreFetchRejects in
  let envG := mkEnv false 9 (HttpOk true (Some [52; 50]%Z)) StoreFetchRejects in
  let dR := mkDevice (onRelayResponse initialState) ∅ (Some false) in
  let asked :=
    (onLocal parseByTag stringifyByTag
       (InRelayQuery envR "q1" [104; 105]%Z assistant None "d1" None) dR).1 in
  let airR := ticks (chunkTotal (broadcastQueue (dev_ble asked)))
                (dev_ble asked) in
  let gate :=
    devRun parseByTag stringifyByTag [103]%Z
      ((λ c, DevFrame 5%Z envG c) <$> reverse (sentChunks airR.2))
      (mountDevice true) in
  let airG := ticks (chunkTotal (broadcastQueue (dev_ble gate.1)))
                (dev_ble gate.1) in
  let back :=
    devRun parseByTag stringifyByTag [114]%Z
      ((λ c, DevFrame 5%Z envR c) <$> sentChunks airG.2)
      (mkDevice airR.1 (dev_peers asked) (dev_listener asked)) in
  gate.2
    = [EvRelayFetch "q1";
       EvEnqueue 9
         (encodeMessageToChunks
            (stringifyByTag (responseMessage "q1" [52; 50]%Z)) 9 false)]
  ∧ broadcastQueue (dev_ble gate.1)
    = [(9, encodeMessageToChunks
             (stringifyByTag (responseMessage "q1" [52; 50]%Z)) 9 false)]
  ∧ ∃ rest, back.2 = EvCallback "q1" [52; 50]%Z :: rest
            ∧ Forall (λ ev, ¬ isFetch ev) rest.
Proof.
  intros envR envG dR asked airR gate airG back.
  apply (mesh_round_trip parseByTag stringifyByTag [114]%Z [103]%Z 5%Z
           envR envG "q1" [104; 105]%Z assistant None "d1" None [52; 50]%Z
           dR (mountDevice true) false
           (reverse (sentChunks airR.2)) (sentChunks airG.2));
    try reflexivity; try discriminate;
    apply (bool_decide_unpack _); vm_compute; exact I.
Defined.

(** * Messages that go no further *)

(** X24: only relay messages hop, and only incident reports that reach a
    listener registered from an online render are answered.  A message
    whose text is clean (well-formed UTF-8, no byte order mark in front, no
    U+0000) and whose id is neither stored nor one of the device's own,
    received in any order, is stored complete with its text and causes
    nothing else (no request, no callback, nothing queued, the relay sets
    as they were) when it is an acknowledgement, or its text is not JSON,
    or is JSON other than a relay message or an incident report, or is an
    incident report and the listener was registered from an offline
    render. *)
Theorem plain_message_only_stored JSON_parse JSON_stringify deviceId now
    (msg : Text) id ack (env : Env) (heard : list Chunk) captured d :
  dev_listener d = Some captured →
  cleanText msg →
  masterState (dev_ble d) !! id = None →
  id ∉ ownMessageIds (dev_ble d) →
  heard ≡ₚ encodeMessageToChunks msg id ack →
  ack = true
  ∨ JSON_parse msg = NotJson
  ∨ JSON_parse msg = OtherJson
  ∨ (captured = false
     ∧ ∃ incident, JSON_parse msg = IncidentReport incident) →
  let out :=
    devRun JSON_parse JSON_stringify deviceId
      ((λ c, DevFrame now env c) <$> heard) d in
  out.2 = []
  ∧ (∃ chunks,
       masterState (dev_ble out.1) !! id
       = Some (mkMessageState id (chunkCount msg) true ack chunks msg))
  ∧ broadcastQueue (dev_ble out.1) = broadcastQueue (dev_ble d)
  ∧ processedRelayQueries (dev_ble out.1)
    = processedRelayQueries (dev_ble d)
  ∧ rebroadcastedQueryIds (dev_ble out.1)
    = rebroadcastedQueryIds (dev_ble d).
Proof.
  intros Hl Hz Hm Hown Hheard Hkind out.
  destruct (devRun_frames JSON_parse JSON_stringify deviceId now env heard
              d captured Hl) as [peers' Hrun].
  destruct (deliver_dispatch JSON_parse JSON_stringify msg id ack
              ((λ c, (listenerEnv captured env, c)) <$> heard) (dev_ble d)
              Hz Hm Hown)
    as (env' & st2 & Henv & Hd & S1 & S2 & _ & _ & _ & S6 & _ & _ & S9).
  { rewrite <- list_fmap_compose. by rewrite list_fmap_id. }
  rewrite <- list_fmap_compose in Henv.
  apply list_elem_of_fmap in Henv as (c & -> & _). simpl in Hd.
  assert (Hquiet : dispatchComplete JSON_parse JSON_stringify
                     (listenerEnv captured env)
                     (mkCompletion id ack msg) st2 = (st2, [])).
  { unfold dispatchComplete, handleApiResponse. simpl.
    destruct Hkind as [-> | [Hp | [Hp | (-> & incident & Hp)]]]; [done|..].
    - rewrite Hp. by destruct ack, captured.
    - rewrite Hp. by destruct ack, captured.
    - rewrite Hp. by destruct ack. }
  unfold out. rewrite Hrun. cbn [fst snd dev_ble].
  rewrite Hd, Hquiet. simpl. by rewrite S1, S2, S6.
Qed.

Lemma plain_message_only_stored_witness :
  let msg := [80; 85; 76; 83; 69; 32; 109; 101; 115; 104]%Z in
  let heard := reverse (encodeMessageToChunks msg 5 false) in
  let d := mkDevice twoQueued ∅ (Some true) in
  let out :=
    devRun parseNothing stringifyId [100]%Z
      ((λ c, DevFrame 5%Z (onlineEnv NetworkFailure) c) <$> heard) d in
  out.2 = []
  ∧ (∃ chunks,
       masterState (dev_ble out.1) !! 5
       = Some (mkMessageState 5 (chunkCount msg) true false chunks msg))
  ∧ broadcastQueue (dev_ble out.1) = broadcastQueue twoQueued.
Proof.
  intros msg heard d out.
  destruct (plain_message_only_stored parseNothing stringifyId [100]%Z 5%Z
              msg 5 false (onlineEnv NetworkFailure) heard true d)
    as (H1 & H2 & H3 & _).
  - reflexivity.
  - apply (bool_decide_unpack _). vm_compute. exact I.
  - reflexivity.
  - apply (bool_decide_unpack _). vm_compute. exact I.
  - apply (bool_decide_unpack _). vm_compute. exact I.
  - right. left. reflexivity.
  - split; [exact H1|]. split; [exact H2|exact H3].
Defined.
